(** * The ART thread pool ([src/thread_pool.cc]) in Rocq

    A shallow embedding of [ThreadPool], [WorkStealingWorker] and
    [WorkStealingThreadPool].

    Conventions of the embedding:
    - a [Task*] that points to a task object is a [Task] (the identity of
      the object); the null pointer is [None] of [option Task];
    - [uint64_t] and [size_t] values are integers of [Z] with the wrap-around
      of the 64-bit arithmetic written out ([wrap64], [size_wrap]; [size_t]
      is taken 64 bits wide, as on an LP64 target);
    - every region executed while a mutex is held is one function from the
      pool to the pool, together with the list of [Event]s it performs
      (lock operations, condition-variable operations, calls into the task);
    - a function that blocks on a condition variable is cut at the wait: the
      part up to the wait and the part from the wake-up on are separate
      functions, and what the other threads did in between is the pool the
      second part is run on;
    - [NanoTime()] readings are arguments of the functions that take them. *)

From Stdlib Require Import ZArith Lia Bool.
From stdpp Require Import base numbers list strings pretty.

Local Open Scope Z_scope.

(** ** Machine integers *)

Definition wrap64 (x : Z) : Z := x mod 2 ^ 64.

Definition size_wrap (x : Z) : Z := x mod 2 ^ 64.

Definition is_uint64 (x : Z) : Prop := 0 <= x < 2 ^ 64.

(** ** Tasks, mutexes, condition variables and the events of a run *)

Definition Task := nat.

Inductive Mutex := task_queue_lock_ | work_steal_lock_.

Inductive ConditionVariable := task_queue_condition_ | completion_condition_.

Inductive Event :=
| EvLock (m : Mutex)
| EvUnlock (m : Mutex)
| EvSignal (c : ConditionVariable)
| EvBroadcast (c : ConditionVariable)
| EvWait (c : ConditionVariable)
| EvRun (t : Task)
| EvFinalize (t : Task)
| EvStealFrom (thief victim : Task)
| EvRefInc (t : Task) (value : Z)
| EvRefDec (t : Task) (value : Z)
| EvDestroy (m : Mutex)
| EvJoin (worker : nat).

Global Instance Mutex_eq_dec : EqDecision Mutex.
Proof. solve_decision. Defined.

Global Instance ConditionVariable_eq_dec : EqDecision ConditionVariable.
Proof. solve_decision. Defined.

Global Instance Event_eq_dec : EqDecision Event.
Proof. solve_decision. Defined.

(** ** Workers as objects

    [threads_] holds pointers to [ThreadPoolWorker]s; a [WorkStealingWorker]
    is a [ThreadPoolWorker] with the extra field [task_]. *)

Inductive Worker :=
| ThreadPoolWorker (name_ : string)
| WorkStealingWorker (name_ : string) (task_ : option Task).

Definition worker_task (w : Worker) : option Task :=
  match w with
  | ThreadPoolWorker _ => None
  | WorkStealingWorker _ t => t
  end.

Definition set_worker_task (t : option Task) (w : Worker) : Worker :=
  match w with
  | ThreadPoolWorker n => ThreadPoolWorker n
  | WorkStealingWorker n _ => WorkStealingWorker n t
  end.

(** ** The pool object *)

Record ThreadPool := mkThreadPool {
  tasks_ : list Task;
  threads_ : list Worker;
  started_ : bool;
  shutting_down_ : bool;
  waiting_count_ : Z;
  start_time_ : Z;
  total_wait_time_ : Z
}.

Definition set_tasks (q : list Task) (p : ThreadPool) : ThreadPool :=
  mkThreadPool q (threads_ p) (started_ p) (shutting_down_ p)
    (waiting_count_ p) (start_time_ p) (total_wait_time_ p).

Definition set_threads (ws : list Worker) (p : ThreadPool) : ThreadPool :=
  mkThreadPool (tasks_ p) ws (started_ p) (shutting_down_ p)
    (waiting_count_ p) (start_time_ p) (total_wait_time_ p).

Definition set_started (b : bool) (p : ThreadPool) : ThreadPool :=
  mkThreadPool (tasks_ p) (threads_ p) b (shutting_down_ p)
    (waiting_count_ p) (start_time_ p) (total_wait_time_ p).

Definition set_shutting_down (b : bool) (p : ThreadPool) : ThreadPool :=
  mkThreadPool (tasks_ p) (threads_ p) (started_ p) b
    (waiting_count_ p) (start_time_ p) (total_wait_time_ p).

Definition set_waiting_count (n : Z) (p : ThreadPool) : ThreadPool :=
  mkThreadPool (tasks_ p) (threads_ p) (started_ p) (shutting_down_ p)
    n (start_time_ p) (total_wait_time_ p).

Definition set_start_time (n : Z) (p : ThreadPool) : ThreadPool :=
  mkThreadPool (tasks_ p) (threads_ p) (started_ p) (shutting_down_ p)
    (waiting_count_ p) n (total_wait_time_ p).

Definition set_total_wait_time (n : Z) (p : ThreadPool) : ThreadPool :=
  mkThreadPool (tasks_ p) (threads_ p) (started_ p) (shutting_down_ p)
    (waiting_count_ p) (start_time_ p) n.

(** Modelled from the spec: the accessors [GetThreadCount] and
    [IsShuttingDown] are declared in [thread_pool.h], which is not part of
    the sources at hand; the spec speaks of the "worker count" of the fixed
    set [workers] and of the flag [shutting_down]. *)
Definition GetThreadCount (p : ThreadPool) : Z := Z.of_nat (length (threads_ p)).

Definition IsShuttingDown (p : ThreadPool) : bool := shutting_down_ p.

(** ** [ThreadPool]: the regions under [task_queue_lock_] *)

(** [ThreadPool::AddTask] *)
Definition AddTask (task : Task) (p : ThreadPool) : ThreadPool * list Event :=
  let p1 := set_tasks (tasks_ p ++ [task]) p in
  (p1,
   [EvLock task_queue_lock_]
   ++ (if negb (waiting_count_ p1 =? 0) then [EvSignal task_queue_condition_] else [])
   ++ [EvUnlock task_queue_lock_]).

(** [ThreadPool::ThreadPool]: the member initialisers set [started_],
    [shutting_down_] and [waiting_count_]; [start_time_] and
    [total_wait_time_] have no initialiser, so they hold whatever the
    storage of the object held ([old_start_time], [old_total_wait_time]).
    The loop then creates the workers. *)
Fixpoint ThreadPool_add_workers (fuel : nat) (num_threads : Z) (p : ThreadPool)
  : ThreadPool :=
  match fuel with
  | O => p
  | S fuel' =>
      if GetThreadCount p <? num_threads then
        let name := "Thread pool worker " +:+ pretty (GetThreadCount p) in
        ThreadPool_add_workers fuel' num_threads
          (set_threads (threads_ p ++ [ThreadPoolWorker name]) p)
      else p
  end.

Definition ThreadPool_ctor (old_start_time old_total_wait_time : Z)
    (num_threads : Z) : ThreadPool :=
  ThreadPool_add_workers (Z.to_nat num_threads) num_threads
    (mkThreadPool [] [] false false 0 old_start_time old_total_wait_time).

(** [ThreadPool::~ThreadPool]: the region under the lock; joining the
    workers follows it. *)
Definition ThreadPool_dtor_locked (p : ThreadPool) : ThreadPool * list Event :=
  (set_shutting_down true p,
   [EvLock task_queue_lock_;
    EvBroadcast task_queue_condition_;
    EvBroadcast completion_condition_;
    EvUnlock task_queue_lock_]).

(** [ThreadPool::StartWorkers]; [now] is the reading of [NanoTime()]. *)
Definition StartWorkers (now : Z) (p : ThreadPool) : ThreadPool * list Event :=
  (set_total_wait_time 0 (set_start_time now (set_started true p)),
   [EvLock task_queue_lock_;
    EvBroadcast task_queue_condition_;
    EvUnlock task_queue_lock_]).

(** [ThreadPool::StopWorkers] *)
Definition StopWorkers (p : ThreadPool) : ThreadPool * list Event :=
  (set_started false p, [EvLock task_queue_lock_; EvUnlock task_queue_lock_]).

(** [ThreadPool::TryGetTaskLocked] *)
Definition TryGetTaskLocked (p : ThreadPool) : ThreadPool * option Task :=
  if started_ p && negb (bool_decide (tasks_ p = [])) then
    match tasks_ p with
    | task :: rest => (set_tasks rest p, Some task)
    | [] => (p, None)
    end
  else (p, None).

(** [ThreadPool::TryGetTask] *)
Definition TryGetTask (p : ThreadPool) : ThreadPool * list Event * option Task :=
  let '(p1, r) := TryGetTaskLocked p in
  (p1, [EvLock task_queue_lock_; EvUnlock task_queue_lock_], r).

(** [ThreadPool::GetTaskCount] *)
Definition GetTaskCount (p : ThreadPool) : list Event * Z :=
  ([EvLock task_queue_lock_; EvUnlock task_queue_lock_],
   size_wrap (Z.of_nat (length (tasks_ p)))).

(** [ThreadPool::GetTask].  The function holds [task_queue_lock_] from its
    entry to its return, except while it is blocked in
    [task_queue_condition_.Wait]. *)
Inductive GetTaskStatus :=
| GT_Return (task : option Task)
| GT_Blocked (wait_start : Z).

(** From the head of the [while] loop to the [return] or to the wait;
    [now] is the reading of [NanoTime()] taken for [wait_start]. *)
Definition GetTask_loop (now : Z) (p : ThreadPool)
  : ThreadPool * list Event * GetTaskStatus :=
  if negb (IsShuttingDown p) then
    match TryGetTaskLocked p with
    | (p1, Some task) => (p1, [EvUnlock task_queue_lock_], GT_Return (Some task))
    | (p1, None) =>
        let p2 := set_waiting_count (size_wrap (waiting_count_ p1 + 1)) p1 in
        (p2,
         (if (waiting_count_ p2 =? GetThreadCount p2) && bool_decide (tasks_ p2 = [])
          then [EvBroadcast completion_condition_] else [])
         ++ [EvWait task_queue_condition_],
         GT_Blocked now)
    end
  else (p, [EvUnlock task_queue_lock_], GT_Return None).

(** The value of [wait_end - std::max(wait_start, start_time_)] in
    [uint64_t]. *)
Definition wait_time_added (wait_start wait_end start_time : Z) : Z :=
  wrap64 (wait_end - Z.max wait_start start_time).

(** From the return of the wait to the end of the loop body. *)
Definition GetTask_wake (wait_start wait_end : Z) (p : ThreadPool) : ThreadPool :=
  let p1 :=
    set_total_wait_time
      (wrap64 (total_wait_time_ p
               + wait_time_added wait_start wait_end (start_time_ p))) p in
  set_waiting_count (size_wrap (waiting_count_ p1 - 1)) p1.

Definition GetTask_enter (now : Z) (p : ThreadPool)
  : ThreadPool * list Event * GetTaskStatus :=
  let '(p1, evs, st) := GetTask_loop now p in
  (p1, EvLock task_queue_lock_ :: evs, st).

Definition GetTask_resume (wait_start wait_end now : Z) (p : ThreadPool)
  : ThreadPool * list Event * GetTaskStatus :=
  GetTask_loop now (GetTask_wake wait_start wait_end p).

(** A whole call of [GetTask], given what happens at each return of the
    wait: [others] is the effect of the other threads on the pool while this
    one was blocked, [wait_end] and [next_now] are the clock readings. *)
Record Wakeup := mkWakeup {
  others : ThreadPool -> ThreadPool;
  wait_end : Z;
  next_now : Z
}.

Fixpoint GetTask_from (wakeups : list Wakeup) (p : ThreadPool) (st : GetTaskStatus)
  : ThreadPool * list Event * GetTaskStatus :=
  match st, wakeups with
  | GT_Blocked wait_start, w :: rest =>
      let '(p1, evs1, st1) :=
        GetTask_resume wait_start (wait_end w) (next_now w) (others w p) in
      let '(p2, evs2, st2) := GetTask_from rest p1 st1 in
      (p2, evs1 ++ evs2, st2)
  | _, _ => (p, [], st)
  end.

Definition GetTask (now : Z) (wakeups : list Wakeup) (p : ThreadPool)
  : ThreadPool * list Event * GetTaskStatus :=
  let '(p1, evs1, st1) := GetTask_enter now p in
  let '(p2, evs2, st2) := GetTask_from wakeups p1 st1 in
  (p2, evs1 ++ evs2, st2).

(** [ThreadPool::Wait], as the steps of the calling thread.  Each step is
    one region under the lock or one call into a task. *)
Inductive WaitPc :=
| Wait_TryGetTask
| Wait_Run (task : Task)
| Wait_Finalize (task : Task)
| Wait_Lock
| Wait_Blocked
| Wait_Return.

(** The body never reads [do_work]: the call starts at the first loop. *)
Definition Wait_entry (do_work : bool) : WaitPc := Wait_TryGetTask.

Definition Wait_completion_loop (p : ThreadPool) : list Event * WaitPc :=
  if negb (shutting_down_ p)
     && (negb (waiting_count_ p =? GetThreadCount p)
         || negb (bool_decide (tasks_ p = [])))
  then ([EvWait completion_condition_], Wait_Blocked)
  else ([EvUnlock task_queue_lock_], Wait_Return).

Definition Wait_step (pc : WaitPc) (p : ThreadPool)
  : ThreadPool * list Event * WaitPc :=
  match pc with
  | Wait_TryGetTask =>
      let '(p1, evs, r) := TryGetTask p in
      match r with
      | Some task => (p1, evs, Wait_Run task)
      | None => (p1, evs, Wait_Lock)
      end
  | Wait_Run task => (p, [EvRun task], Wait_Finalize task)
  | Wait_Finalize task => (p, [EvFinalize task], Wait_TryGetTask)
  | Wait_Lock =>
      let '(evs, pc') := Wait_completion_loop p in
      (p, EvLock task_queue_lock_ :: evs, pc')
  | Wait_Blocked =>
      let '(evs, pc') := Wait_completion_loop p in (p, evs, pc')
  | Wait_Return => (p, [], Wait_Return)
  end.

(** [n] steps of the caller of [Wait] with no other thread running. *)
Fixpoint Wait_steps (n : nat) (pc : WaitPc) (p : ThreadPool)
  : ThreadPool * list Event * WaitPc :=
  match n with
  | O => (p, [], pc)
  | S n' =>
      let '(p1, evs1, pc1) := Wait_step pc p in
      let '(p2, evs2, pc2) := Wait_steps n' pc1 p1 in
      (p2, evs1 ++ evs2, pc2)
  end.

(** ** Sequences of pool operations *)

Inductive PoolOp :=
| OpAddTask (task : Task)
| OpStartWorkers (now : Z)
| OpStopWorkers
| OpGetTask (now : Z)
| OpGetTaskWake (wait_start wait_end now : Z)
| OpTryGetTask
| OpGetTaskCount
| OpWait (pc : WaitPc)
| OpShutdown.

Definition apply_op (op : PoolOp) (p : ThreadPool) : ThreadPool :=
  match op with
  | OpAddTask task => fst (AddTask task p)
  | OpStartWorkers now => fst (StartWorkers now p)
  | OpStopWorkers => fst (StopWorkers p)
  | OpGetTask now => fst (fst (GetTask_enter now p))
  | OpGetTaskWake ws we now => fst (fst (GetTask_resume ws we now p))
  | OpTryGetTask => fst (fst (TryGetTask p))
  | OpGetTaskCount => p
  | OpWait pc => fst (fst (Wait_step pc p))
  | OpShutdown => fst (ThreadPool_dtor_locked p)
  end.

Definition apply_ops (ops : list PoolOp) (p : ThreadPool) : ThreadPool :=
  foldl (fun q op => apply_op op q) p ops.

Definition is_StartWorkers (op : PoolOp) : bool :=
  match op with OpStartWorkers _ => true | _ => false end.

(** Whether [op], run on [p], keeps the wait-time arithmetic inside
    [uint64_t]: the wake-up is not before the clipped start of the wait, and
    the sum fits. *)
Definition op_in_range (op : PoolOp) (p : ThreadPool) : bool :=
  match op with
  | OpGetTaskWake ws we _ =>
      (Z.max ws (start_time_ p) <=? we)
      && (total_wait_time_ p + (we - Z.max ws (start_time_ p)) <? 2 ^ 64)
  | _ => true
  end.

Fixpoint ops_in_range (ops : list PoolOp) (p : ThreadPool) : bool :=
  match ops with
  | [] => true
  | op :: rest =>
      negb (is_StartWorkers op) && op_in_range op p
      && ops_in_range rest (apply_op op p)
  end.

(** ** The work-stealing pool *)

(** The result of code that may index [threads_] out of its bounds or
    [down_cast] a worker of the wrong class. *)
Inductive Outcome (A : Type) :=
| Defined_ (a : A)
| Undefined.

Arguments Defined_ {A} a.
Arguments Undefined {A}.

Record WorkStealingThreadPool := mkWorkStealingThreadPool {
  pool : ThreadPool;
  steal_index_ : Z
}.

(** [WorkStealingThreadPool::WorkStealingThreadPool]: the base is built with
    no threads and the loop adds the stealing workers. *)
Fixpoint WorkStealing_add_workers (fuel : nat) (num_threads : Z) (p : ThreadPool)
  : ThreadPool :=
  match fuel with
  | O => p
  | S fuel' =>
      if GetThreadCount p <? num_threads then
        let name := "Work stealing worker " +:+ pretty (GetThreadCount p) in
        WorkStealing_add_workers fuel' num_threads
          (set_threads (threads_ p ++ [WorkStealingWorker name None]) p)
      else p
  end.

Definition WorkStealingThreadPool_ctor (old_start_time old_total_wait_time : Z)
    (num_threads : Z) : WorkStealingThreadPool :=
  mkWorkStealingThreadPool
    (WorkStealing_add_workers (Z.to_nat num_threads) num_threads
       (ThreadPool_ctor old_start_time old_total_wait_time 0))
    0.

(** [WorkStealingThreadPool::FindTaskToStealFrom]: [n] is the number of
    iterations of the [for] loop still to run. *)
Fixpoint FindTaskToStealFrom_loop (n : nat) (thread_count : Z)
    (threads : list Worker) (steal_index : Z) : Outcome (Z * option Task) :=
  match n with
  | O => Defined_ (steal_index, None)
  | S n' =>
      let si := size_wrap (steal_index + 1) in
      let si := if thread_count <=? si then size_wrap (si - thread_count) else si in
      match threads !! Z.to_nat si with
      | Some (WorkStealingWorker _ task) =>
          match task with
          | Some t => Defined_ (si, Some t)
          | None => FindTaskToStealFrom_loop n' thread_count threads si
          end
      | _ => Undefined
      end
  end.

Definition FindTaskToStealFrom (wp : WorkStealingThreadPool)
  : Outcome (WorkStealingThreadPool * option Task) :=
  let thread_count := GetThreadCount (pool wp) in
  match FindTaskToStealFrom_loop (Z.to_nat thread_count) thread_count
          (threads_ (pool wp)) (steal_index_ wp) with
  | Defined_ (si, r) => Defined_ (mkWorkStealingThreadPool (pool wp) si, r)
  | Undefined => Undefined
  end.

(** ** [ThreadPoolWorker::Run] as the steps of one worker thread

    The thread takes a task from [GetTask], runs it and finalizes it, until
    [GetTask] returns none.  A step is a region under the queue lock or a
    call into a task.  This is the loop of every worker of a plain
    [ThreadPool]. *)
Inductive WorkerPc :=
| WP_GetTask
| WP_InGetTask (wait_start : Z)
| WP_Run (task : Task)
| WP_Finalize (task : Task)
| WP_Exit.

Definition GetTask_wpc (st : GetTaskStatus) : WorkerPc :=
  match st with
  | GT_Return (Some task) => WP_Run task
  | GT_Return None => WP_Exit
  | GT_Blocked wait_start => WP_InGetTask wait_start
  end.

(** The next step of a worker at [pc]; [t1] and [t2] are the readings of
    the clock for the steps that take one. *)
Definition ThreadPoolWorker_Run_step (t1 t2 : Z) (pc : WorkerPc) (p : ThreadPool)
  : ThreadPool * list Event * WorkerPc :=
  match pc with
  | WP_GetTask =>
      let '(p1, evs, st) := GetTask_enter t1 p in (p1, evs, GetTask_wpc st)
  | WP_InGetTask wait_start =>
      let '(p1, evs, st) := GetTask_resume wait_start t1 t2 p in
      (p1, evs, GetTask_wpc st)
  | WP_Run task => (p, [EvRun task], WP_Finalize task)
  | WP_Finalize task => (p, [EvFinalize task], WP_GetTask)
  | WP_Exit => (p, [], WP_Exit)
  end.

Global Instance WorkerPc_eq_dec : EqDecision WorkerPc.
Proof. solve_decision. Defined.

(** The task in the hands of a worker, before and after its [Run]. *)
Definition wpc_tasks (pc : WorkerPc) : list Task :=
  match pc with
  | WP_Run t | WP_Finalize t => [t]
  | _ => []
  end.

Definition wpc_before_run (pc : WorkerPc) : list Task :=
  match pc with
  | WP_Run t => [t]
  | _ => []
  end.

Definition wpc_after_run (pc : WorkerPc) : list Task :=
  match pc with
  | WP_Finalize t => [t]
  | _ => []
  end.

Definition wpc_waiting (pc : WorkerPc) : bool :=
  match pc with
  | WP_InGetTask _ => true
  | _ => false
  end.

Definition wpc_idle (pc : WorkerPc) : bool :=
  match pc with
  | WP_Run _ | WP_Finalize _ => false
  | _ => true
  end.

(** ** [WorkStealingWorker::Run] as the steps of one worker thread

    A step is a region under a lock, a call into a task, or the unlocked
    store [task_ = NULL].

    The thread of a worker is created by the constructor of the base class
    ([pthread_create] in [ThreadPoolWorker::ThreadPoolWorker]) and calls
    [worker->Run()] from [Callback]; [Run] is virtual and the constructor of
    [WorkStealingWorker] runs only after that of the base class has
    returned.  A thread that reaches the call before the derived
    constructor has run executes [ThreadPoolWorker::Run]: it is then in
    [SP_Plain pc], at [pc] of that loop, for the rest of its life. *)
Inductive StealPc :=
| SP_GetTask
| SP_InGetTask (wait_start : Z)
| SP_Register (stealing_task : Task)
| SP_Run (stealing_task : Task)
| SP_Clear (stealing_task : Task)
| SP_StealLoop (stealing_task : Task)
| SP_Find (stealing_task : Task)
| SP_StealFrom (stealing_task steal_from_task : Task)
| SP_Unref (stealing_task steal_from_task : Task)
| SP_FinalizeVictim (stealing_task steal_from_task : Task)
| SP_Release (stealing_task : Task)
| SP_FinalizeOwn (stealing_task : Task)
| SP_Exit
| SP_Abort
| SP_Plain (pc : WorkerPc).

Global Instance StealPc_eq_dec : EqDecision StealPc.
Proof. solve_decision. Defined.

(** The whole system: the pool object, the [ref_count_] field of every task
    object, the control state of the thread of each worker of [threads_],
    the control state of each thread that is inside [ThreadPool::Wait], the
    tasks that are finalized without a look at their [ref_count_], by a
    caller of [Wait] or by a thread in [ThreadPoolWorker::Run] (a history
    kept for the proofs), and the events so far, oldest first. *)
Record System := mkSystem {
  wpool : WorkStealingThreadPool;
  ref_count_ : Task -> Z;
  pcs : list StealPc;
  callers : list WaitPc;
  wait_finalized : list Task;
  trace : list Event
}.

Definition set_ref_count (t : Task) (v : Z) (rc : Task -> Z) : Task -> Z :=
  fun x => if decide (x = t) then v else rc x.

Definition set_pool (p : ThreadPool) (wp : WorkStealingThreadPool)
  : WorkStealingThreadPool :=
  mkWorkStealingThreadPool p (steal_index_ wp).

Definition set_task_ (i : nat) (t : option Task) (p : ThreadPool) : ThreadPool :=
  set_threads (alter (set_worker_task t) i (threads_ p)) p.

Definition GetTask_pc (st : GetTaskStatus) : StealPc :=
  match st with
  | GT_Return (Some task) => SP_Register task
  | GT_Return None => SP_Exit
  | GT_Blocked wait_start => SP_InGetTask wait_start
  end.

(** The next step of worker [i] at [pc]; [t1] and [t2] are the readings of
    the clock for the steps that take one.  The result is the pool, the
    reference counts, the next control state and the events. *)
Definition worker_step (i : nat) (t1 t2 : Z) (pc : StealPc)
    (wp : WorkStealingThreadPool) (rc : Task -> Z)
  : WorkStealingThreadPool * (Task -> Z) * StealPc * list Event :=
  match pc with
  | SP_GetTask =>
      let '(p1, evs, st) := GetTask_enter t1 (pool wp) in
      (set_pool p1 wp, rc, GetTask_pc st, evs)
  | SP_InGetTask wait_start =>
      let '(p1, evs, st) := GetTask_resume wait_start t1 t2 (pool wp) in
      (set_pool p1 wp, rc, GetTask_pc st, evs)
  | SP_Register task =>
      match worker_task <$> threads_ (pool wp) !! i with
      | Some None =>
          let v := size_wrap (rc task + 1) in
          (set_pool (set_task_ i (Some task) (pool wp)) wp,
           set_ref_count task v rc, SP_Run task,
           [EvLock work_steal_lock_; EvRefInc task v; EvUnlock work_steal_lock_])
      | _ => (wp, rc, SP_Abort, [])
      end
  | SP_Run task => (wp, rc, SP_Clear task, [EvRun task])
  | SP_Clear task =>
      (set_pool (set_task_ i None (pool wp)) wp, rc, SP_StealLoop task, [])
  | SP_StealLoop task =>
      let '(evs, n) := GetTaskCount (pool wp) in
      (wp, rc, if n =? 0 then SP_Find task else SP_Release task, evs)
  | SP_Find task =>
      match FindTaskToStealFrom wp with
      | Defined_ (wp1, Some victim) =>
          if decide (task = victim) then
            (wp1, rc, SP_Abort, [EvLock work_steal_lock_])
          else
            let v := size_wrap (rc victim + 1) in
            (wp1, set_ref_count victim v rc, SP_StealFrom task victim,
             [EvLock work_steal_lock_; EvRefInc victim v; EvUnlock work_steal_lock_])
      | Defined_ (wp1, None) =>
          (wp1, rc, SP_Release task,
           [EvLock work_steal_lock_; EvUnlock work_steal_lock_])
      | Undefined => (wp, rc, SP_Abort, [EvLock work_steal_lock_])
      end
  | SP_StealFrom task victim =>
      (wp, rc, SP_Unref task victim, [EvStealFrom task victim])
  | SP_Unref task victim =>
      let v := size_wrap (rc victim - 1) in
      (wp, set_ref_count victim v rc,
       if v =? 0 then SP_FinalizeVictim task victim else SP_StealLoop task,
       [EvLock work_steal_lock_; EvRefDec victim v; EvUnlock work_steal_lock_])
  | SP_FinalizeVictim task victim =>
      (wp, rc, SP_StealLoop task, [EvFinalize victim])
  | SP_Release task =>
      let v := size_wrap (rc task - 1) in
      (wp, set_ref_count task v rc,
       if v =? 0 then SP_FinalizeOwn task else SP_GetTask,
       [EvLock work_steal_lock_; EvRefDec task v; EvUnlock work_steal_lock_])
  | SP_FinalizeOwn task => (wp, rc, SP_GetTask, [EvFinalize task])
  | SP_Exit => (wp, rc, SP_Exit, [])
  | SP_Abort => (wp, rc, SP_Abort, [])
  | SP_Plain pc0 =>
      let '(p1, evs, pc1) := ThreadPoolWorker_Run_step t1 t2 pc0 (pool wp) in
      (set_pool p1 wp, rc, SP_Plain pc1, evs)
  end.

(** ** The threads of a work-stealing pool run together

    The threads take their steps one at a time, in any order.  A thread
    that waits on a condition variable may resume at any moment: the wait
    may return without a signal, and the loops around the waits test their
    conditions again. *)

(** Number of occurrences of [x] in [l]. *)
Fixpoint occ {A} `{EqDecision A} (x : A) (l : list A) : Z :=
  match l with
  | [] => 0
  | y :: l' => (if decide (x = y) then 1 else 0) + occ x l'
  end.

(** Every task a control state names. *)
Definition pc_tasks (pc : StealPc) : list Task :=
  match pc with
  | SP_Register t | SP_Run t | SP_Clear t | SP_StealLoop t | SP_Find t
  | SP_Release t | SP_FinalizeOwn t => [t]
  | SP_StealFrom t v | SP_Unref t v | SP_FinalizeVictim t v => [t; v]
  | SP_GetTask | SP_InGetTask _ | SP_Exit | SP_Abort => []
  | SP_Plain pc0 => wpc_tasks pc0
  end.

(** The task a caller of [Wait] has taken from the queue. *)
Definition wait_pc_tasks (pc : WaitPc) : list Task :=
  match pc with
  | Wait_Run t | Wait_Finalize t => [t]
  | _ => []
  end.

(** The steps of the system: worker [i] takes its next step; some thread
    calls [AddTask], [StartWorkers] or [StopWorkers]; the thread that
    destroys the pool takes its next step; some thread calls [Wait]; the
    [j]-th thread that is inside [Wait] takes its next step. *)
Inductive Action :=
| ActWorker (i : nat) (t1 t2 : Z)
| ActAddTask (task : Task)
| ActStartWorkers (now : Z)
| ActStopWorkers
| ActShutdown
| ActWait (do_work : bool)
| ActCaller (j : nat).

(** A task object is handed to [AddTask] once: it is not in the queue, not
    in the hands of a worker or of a caller of [Wait], and not finalized. *)
Definition fresh_task (task : Task) (s : System) : bool :=
  bool_decide (task ∉ tasks_ (pool (wpool s)))
  && bool_decide (task ∉ flat_map pc_tasks (pcs s))
  && bool_decide (task ∉ flat_map wait_pc_tasks (callers s))
  && bool_decide (EvFinalize task ∉ trace s).

(** A caller of [Wait] that has no task in its hands. *)
Definition wait_pc_idle (pc : WaitPc) : bool :=
  match pc with
  | Wait_Run _ | Wait_Finalize _ => false
  | _ => true
  end.

(** The task that the step of a caller of [Wait] at [pc] finalizes. *)
Definition wait_pc_finalizes (pc : WaitPc) : list Task :=
  match pc with
  | Wait_Finalize t => [t]
  | _ => []
  end.

Definition with_pool (r : ThreadPool * list Event) (s : System) : System :=
  mkSystem (set_pool (fst r) (wpool s)) (ref_count_ s) (pcs s)
    (callers s) (wait_finalized s) (trace s ++ snd r).

(** [WorkStealingThreadPool::~WorkStealingThreadPool]: the body is empty;
    the members of the derived class are destroyed, [work_steal_lock_]
    among them, and only then does [ThreadPool::~ThreadPool] run. *)
Definition WorkStealingThreadPool_dtor_members (p : ThreadPool)
  : ThreadPool * list Event :=
  (p, [EvDestroy work_steal_lock_]).

Definition work_steal_lock_destroyed (s : System) : bool :=
  bool_decide (EvDestroy work_steal_lock_ ∈ trace s).

(** The workers that [STLDeleteElements(&threads_)] has deleted so far: it
    deletes them in the order of [threads_], and the destructor of a worker
    joins its thread. *)
Fixpoint joined_workers (tr : list Event) : nat :=
  match tr with
  | [] => 0%nat
  | EvJoin _ :: rest => S (joined_workers rest)
  | _ :: rest => joined_workers rest
  end.

(** A thread that has returned from its [Run]. *)
Definition pc_exited (pc : StealPc) : bool :=
  match pc with
  | SP_Exit | SP_Plain WP_Exit => true
  | _ => false
  end.

(** One [delete] of [STLDeleteElements(&threads_)] at the end of
    [ThreadPool::~ThreadPool]: [ThreadPoolWorker::~ThreadPoolWorker] joins
    the thread of the next worker, which returns once that thread has
    returned from [Run]; [None] as long as it has not, and when no worker
    is left.  The entry of a deleted worker stays in [threads_] until the
    last join, as in the code; no defined step reads through it. *)
Definition ThreadPool_dtor_delete (pcs : list StealPc) (tr : list Event)
    (p : ThreadPool) : option (ThreadPool * list Event) :=
  match pcs !! joined_workers tr with
  | Some pc => if pc_exited pc then Some (p, [EvJoin (joined_workers tr)]) else None
  | None => None
  end.

(** The steps of [WorkStealingWorker::Run] that lock [work_steal_lock_]. *)
Definition takes_work_steal_lock (pc : StealPc) : bool :=
  match pc with
  | SP_Register _ | SP_Find _ | SP_Unref _ _ | SP_Release _ => true
  | _ => false
  end.

(** The task that the step of a worker thread at [pc] takes on to its
    [Finalize] without a look at its [ref_count_]: the thread is in
    [ThreadPoolWorker::Run] and runs it. *)
Definition plain_pc_runs (pc : StealPc) : list Task :=
  match pc with
  | SP_Plain (WP_Run t) => [t]
  | _ => []
  end.

(** One step of the system; [None] when the action cannot be taken (there
    is no such thread, the task was handed over before, the join has to
    wait), and when the behaviour of the step is undefined: a worker locks
    [work_steal_lock_] after the destruction of that mutex.

    The thread that destroys the pool takes one step per [ActShutdown]:
    first the members of the derived class are destroyed,
    [work_steal_lock_] among them; then comes the locked region of
    [ThreadPool::~ThreadPool]; then [STLDeleteElements] deletes the workers
    one by one, each [delete] after the join of that worker's thread.  The
    code reads the object of another worker only in [FindTaskToStealFrom],
    under [work_steal_lock_], so that no defined step reads a deleted
    worker; [GetThreadCount] reads the size of [threads_], which
    [STLDeleteElements] changes only after the last join. *)
Definition sys_step (a : Action) (s : System) : option System :=
  match a with
  | ActWorker i t1 t2 =>
      match pcs s !! i with
      | Some pc =>
          if work_steal_lock_destroyed s && takes_work_steal_lock pc then None
          else
            let '(wp1, rc1, pc1, evs) :=
              worker_step i t1 t2 pc (wpool s) (ref_count_ s) in
            Some (mkSystem wp1 rc1 (<[i := pc1]> (pcs s)) (callers s)
                    (plain_pc_runs pc ++ wait_finalized s) (trace s ++ evs))
      | None => None
      end
  | ActAddTask task =>
      if fresh_task task s
      then Some (with_pool (AddTask task (pool (wpool s))) s)
      else None
  | ActStartWorkers now => Some (with_pool (StartWorkers now (pool (wpool s))) s)
  | ActStopWorkers => Some (with_pool (StopWorkers (pool (wpool s))) s)
  | ActShutdown =>
      if work_steal_lock_destroyed s then
        if shutting_down_ (pool (wpool s)) then
          match ThreadPool_dtor_delete (pcs s) (trace s) (pool (wpool s)) with
          | Some r => Some (with_pool r s)
          | None => None
          end
        else Some (with_pool (ThreadPool_dtor_locked (pool (wpool s))) s)
      else Some (with_pool (WorkStealingThreadPool_dtor_members (pool (wpool s))) s)
  | ActWait do_work =>
      Some (mkSystem (wpool s) (ref_count_ s) (pcs s)
              (callers s ++ [Wait_entry do_work]) (wait_finalized s) (trace s))
  | ActCaller j =>
      match callers s !! j with
      | Some pc =>
          let '(p1, evs, pc1) := Wait_step pc (pool (wpool s)) in
          Some (mkSystem (set_pool p1 (wpool s)) (ref_count_ s) (pcs s)
                  (<[j := pc1]> (callers s))
                  (wait_pc_finalizes pc ++ wait_finalized s)
                  (trace s ++ evs))
      | None => None
      end
  end.

Fixpoint sys_run (acts : list Action) (s : System) : option System :=
  match acts with
  | [] => Some s
  | a :: rest =>
      match sys_step a s with
      | Some s1 => sys_run rest s1
      | None => None
      end
  end.

(** Modelled from the spec: the constructor of [WorkStealingTask] is in
    [thread_pool.h], which is not part of the sources at hand; by the spec a
    task with [ref_count == 0] is one that no worker can reach, which is the
    state of every task before its submission. *)
Definition new_task_ref_count : Z := 0.

(** The system right after the construction of a pool of [num_threads]
    workers: every thread is about to call [GetTask], in the loop that its
    virtual call of [Run] entered.  [plain_run i] tells whether the thread
    of worker [i] made that call before the constructor of
    [WorkStealingWorker] had run, and so is in [ThreadPoolWorker::Run].
    The steps of the threads begin here: a thread that is inside [GetTask]
    while the constructor of the pool still appends to [threads_] reads
    [GetThreadCount()] without any ordering against that append, and what
    it reads is not modelled. *)
Definition init_system (old_start_time old_total_wait_time num_threads : Z)
    (plain_run : nat -> bool) : System :=
  mkSystem
    (WorkStealingThreadPool_ctor old_start_time old_total_wait_time num_threads)
    (fun _ => new_task_ref_count)
    (map (fun i => if plain_run i then SP_Plain WP_GetTask else SP_GetTask)
       (seq 0 (Z.to_nat num_threads)))
    [] [] [].

(** *** What each control state contributes to the accounting of a task *)

(** The worker's own task, obtained from [GetTask], not counted in its
    [ref_count_] and not run yet. *)
Definition pc_unregistered (pc : StealPc) : list Task :=
  match pc with
  | SP_Register t | SP_Plain (WP_Run t) => [t]
  | _ => []
  end.

(** The worker's own task, counted in its [ref_count_]. *)
Definition pc_registered (pc : StealPc) : list Task :=
  match pc with
  | SP_Run t | SP_Clear t | SP_StealLoop t | SP_Find t | SP_Release t
  | SP_StealFrom t _ | SP_Unref t _ | SP_FinalizeVictim t _ => [t]
  | _ => []
  end.

(** The task the worker steals from, counted in its [ref_count_]. *)
Definition pc_victim (pc : StealPc) : list Task :=
  match pc with
  | SP_StealFrom _ v | SP_Unref _ v => [v]
  | _ => []
  end.

(** The task the worker has decided to finalize and has not finalized yet. *)
Definition pc_pending (pc : StealPc) : list Task :=
  match pc with
  | SP_FinalizeVictim _ v => [v]
  | SP_FinalizeOwn t | SP_Plain (WP_Finalize t) => [t]
  | _ => []
  end.

(** The value of the worker's field [task_]. *)
Definition pc_task_field (pc : StealPc) : option Task :=
  match pc with
  | SP_Run t | SP_Clear t => Some t
  | _ => None
  end.

Definition pc_wf (pc : StealPc) : Prop :=
  match pc with
  | SP_StealFrom t v | SP_Unref t v | SP_FinalizeVictim t v => t <> v
  | SP_Abort => False
  | _ => True
  end.

(** A worker that is outside of a cycle of its loop. *)
Definition pc_idle (pc : StealPc) : bool :=
  match pc with
  | SP_GetTask | SP_InGetTask _ | SP_Exit => true
  | SP_Plain pc0 => wpc_idle pc0
  | _ => false
  end.

(** Number of occurrences of [x] in what [f] gives for the threads [l]. *)
Definition occ_pcs {St} (f : St -> list Task) (x : Task) (l : list St) : Z :=
  occ x (flat_map f l).

(** Whether [work_steal_lock_] is held after the events [tr], given whether
    it was held before them. *)
Fixpoint steal_lock_held (held : bool) (tr : list Event) : bool :=
  match tr with
  | [] => held
  | EvLock work_steal_lock_ :: tr' => steal_lock_held true tr'
  | EvUnlock work_steal_lock_ :: tr' => steal_lock_held false tr'
  | _ :: tr' => steal_lock_held held tr'
  end.

(** Every [Finalize] of the run, those of the callers of [Wait] and of
    the threads in [ThreadPoolWorker::Run] ([wf]) apart, comes after a
    decrement of the task's [ref_count_] to 0; and every [Finalize] comes at
    a moment when [work_steal_lock_] is free. *)
Definition finalize_discipline (tr : list Event) (wf : list Task) : Prop :=
  forall pre x post,
    tr = pre ++ EvFinalize x :: post ->
    (EvRefDec x 0 ∈ pre \/ x ∈ wf) /\ steal_lock_held false pre = false.

Record TaskInv (s : System) (x : Task) : Prop := mkTaskInv {
  inv_single :
    occ x (tasks_ (pool (wpool s)))
    + occ_pcs pc_unregistered x (pcs s) + occ_pcs pc_registered x (pcs s)
    + occ_pcs pc_pending x (pcs s) + occ (EvFinalize x) (trace s)
    + occ_pcs wait_pc_tasks x (callers s) <= 1;
  inv_ref :
    ref_count_ s x = occ_pcs pc_registered x (pcs s) + occ_pcs pc_victim x (pcs s);
  inv_held :
    0 < ref_count_ s x ->
    occ x (tasks_ (pool (wpool s))) + occ_pcs pc_unregistered x (pcs s)
    + occ_pcs pc_pending x (pcs s) + occ (EvFinalize x) (trace s)
    + occ_pcs wait_pc_tasks x (callers s) = 0;
  inv_run :
    0 < occ (EvRun x) (trace s) ->
    0 < ref_count_ s x + occ_pcs pc_pending x (pcs s)
        + occ (EvFinalize x) (trace s) + occ_pcs wait_pc_tasks x (callers s);
  inv_zero :
    occ (EvFinalize x) (trace s) + occ_pcs pc_pending x (pcs s)
    = occ (EvRefDec x 0) (trace s) + occ x (wait_finalized s);
  inv_wait :
    occ x (wait_finalized s)
    <= occ (EvFinalize x) (trace s) + occ_pcs pc_pending x (pcs s)
}.

(** The object of a worker agrees with the control state of its thread. *)
Definition worker_matches (w : Worker) (pc : StealPc) : Prop :=
  exists n, w = WorkStealingWorker n (pc_task_field pc).

Record Inv (s : System) : Prop := mkInv {
  inv_threads :
    Forall2 worker_matches (threads_ (pool (wpool s))) (pcs s);
  inv_count : Z.of_nat (length (pcs s)) < 2 ^ 64;
  inv_index :
    0 <= steal_index_ (wpool s)
    /\ (steal_index_ (wpool s) < Z.of_nat (length (pcs s))
        \/ steal_index_ (wpool s) = 0);
  inv_wf : Forall pc_wf (pcs s);
  inv_task : forall x, TaskInv s x;
  inv_lock_free : steal_lock_held false (trace s) = false;
  inv_discipline : finalize_discipline (trace s) (wait_finalized s)
}.

(** Events of the regions under [task_queue_lock_] and of the destruction
    of the pool: the events that name no task and neither lock nor unlock
    [work_steal_lock_]. *)
Definition is_pool_event (e : Event) : Prop :=
  match e with
  | EvLock task_queue_lock_ | EvUnlock task_queue_lock_
  | EvSignal _ | EvBroadcast _ | EvWait _ | EvDestroy _ | EvJoin _ => True
  | _ => False
  end.

(** Operations that neither start the workers nor end a wait. *)
Definition is_quiet (op : PoolOp) : bool :=
  match op with
  | OpStartWorkers _ | OpGetTaskWake _ _ _ => false
  | _ => true
  end.

Definition is_stealing_worker (w : Worker) : Prop :=
  match w with
  | WorkStealingWorker _ _ => True
  | ThreadPoolWorker _ => False
  end.

(** The [task_] of the [j]-th worker after position [cursor], going round
    [threads]. *)
Definition candidate_task (threads : list Worker) (cursor j : Z) : option Task :=
  match threads !! Z.to_nat ((cursor + j) mod Z.of_nat (length threads)) with
  | Some w => worker_task w
  | None => None
  end.

(** ** Further notions used by the properties *)

(** The tasks that the [AddTask] operations of [ops] submit, in order. *)
Definition added_tasks (ops : list PoolOp) : list Task :=
  flat_map (fun op => match op with OpAddTask t => [t] | _ => [] end) ops.

(** The events of the caller of [Wait] for one task of its first loop. *)
Definition drain_events (t : Task) : list Event :=
  [EvLock task_queue_lock_; EvUnlock task_queue_lock_; EvRun t; EvFinalize t].

(** The tasks run, and the tasks finalized, by the events [evs], in order. *)
Definition run_order (evs : list Event) : list Task :=
  flat_map (fun e => match e with EvRun t => [t] | _ => [] end) evs.

Definition finalize_order (evs : list Event) : list Task :=
  flat_map (fun e => match e with EvFinalize t => [t] | _ => [] end) evs.

(** The calls and wake-ups of [GetTask] among the operations. *)
Definition is_GetTask_op (op : PoolOp) : bool :=
  match op with
  | OpGetTask _ | OpGetTaskWake _ _ _ => true
  | _ => false
  end.

(** ** Further notions about the threads of the work-stealing pool *)

(** A worker that is blocked in the wait of [GetTask]. *)
Definition pc_waiting (pc : StealPc) : bool :=
  match pc with
  | SP_InGetTask _ => true
  | SP_Plain pc0 => wpc_waiting pc0
  | _ => false
  end.

(** Number of the workers that are blocked in the wait of [GetTask]. *)
Fixpoint waiting_workers (l : list StealPc) : Z :=
  match l with
  | [] => 0
  | pc :: l' => (if pc_waiting pc then 1 else 0) + waiting_workers l'
  end.

(** The worker's own task before the call [stealing_task->Run(self)]. *)
Definition pc_before_run (pc : StealPc) : list Task :=
  match pc with
  | SP_Register t | SP_Run t | SP_Plain (WP_Run t) => [t]
  | _ => []
  end.

(** The task of a caller of [Wait] before, and after, [task->Run(self)]. *)
Definition wait_before_run (pc : WaitPc) : list Task :=
  match pc with
  | Wait_Run t => [t]
  | _ => []
  end.

Definition wait_after_run (pc : WaitPc) : list Task :=
  match pc with
  | Wait_Finalize t => [t]
  | _ => []
  end.

(** The tasks that the actions hand to [AddTask]. *)
Definition submitted (acts : list Action) : list Task :=
  flat_map (fun a => match a with ActAddTask t => [t] | _ => [] end) acts.

(** The tasks an event names. *)
Definition event_tasks (e : Event) : list Task :=
  match e with
  | EvRun t | EvFinalize t | EvRefInc t _ | EvRefDec t _ => [t]
  | EvStealFrom t v => [t; v]
  | _ => []
  end.

(** What the waiting count and the exits of the workers say about the
    threads. *)
Record QueueInv (s : System) : Prop := mkQueueInv {
  qinv_waiting : waiting_count_ (pool (wpool s)) = waiting_workers (pcs s);
  qinv_exit :
    forall i,
      pcs s !! i = Some SP_Exit \/ pcs s !! i = Some (SP_Plain WP_Exit) ->
      shutting_down_ (pool (wpool s)) = true
}.

(** Task [x] is somewhere: in the queue, in the hands of a thread, counted
    in its [ref_count_], or finalized. *)
Definition accounted (s : System) (x : Task) : Prop :=
  1 <= occ x (tasks_ (pool (wpool s))) + occ_pcs pc_unregistered x (pcs s)
       + occ_pcs pc_pending x (pcs s) + occ (EvFinalize x) (trace s)
       + occ_pcs wait_pc_tasks x (callers s) + ref_count_ s x.

(** The history of task [x]: it is run at most once, it is finalized only
    after its run, and a task that is referenced has been run or is about
    to be run by its owner. *)
Record HistInv (s : System) (x : Task) : Prop := mkHistInv {
  hist_once :
    occ (EvRun x) (trace s) + occ x (tasks_ (pool (wpool s)))
    + occ_pcs pc_before_run x (pcs s) + occ_pcs wait_before_run x (callers s) <= 1;
  hist_done :
    occ (EvFinalize x) (trace s) + occ_pcs pc_pending x (pcs s)
    + occ_pcs wait_after_run x (callers s) <= occ (EvRun x) (trace s);
  hist_held :
    0 < ref_count_ s x ->
    1 <= occ (EvRun x) (trace s) + occ_pcs pc_before_run x (pcs s)
}.

(** No event after [Finalize] of a task names that task. *)
Definition no_use_after_finalize (tr : list Event) : Prop :=
  forall pre x post e,
    tr = pre ++ EvFinalize x :: post -> e ∈ post -> x ∉ event_tasks e.


(** Every [Finalize] of a task comes after the [Run] of that task. *)
Definition run_before_finalize (tr : list Event) : Prop :=
  forall pre x post, tr = pre ++ EvFinalize x :: post -> EvRun x ∈ pre.


(** What the events of one step say about task [x]: an event names only a
    task that is not finalized, a [Finalize] comes after the [Run], and it
    is the last event of its step. *)
Definition events_in_order (s : System) (evs : list Event) (x : Task) : Prop :=
  (0 < occ x (flat_map event_tasks evs) -> occ (EvFinalize x) (trace s) = 0)
  /\ (0 < occ (EvFinalize x) evs -> 0 < occ (EvRun x) (trace s))
  /\ (forall pre post, evs = pre ++ EvFinalize x :: post -> post = []).

(** The plain pool with its threads: the pool object, the control state of
    the thread of each worker of [threads_], the control state of each
    thread that is inside [ThreadPool::Wait], and the events so far. *)
Record PoolSystem := mkPoolSystem {
  ppool : ThreadPool;
  ppcs : list WorkerPc;
  pcallers : list WaitPc;
  ptrace : list Event
}.

Fixpoint waiting_pool_workers (l : list WorkerPc) : Z :=
  match l with
  | [] => 0
  | pc :: l' => (if wpc_waiting pc then 1 else 0) + waiting_pool_workers l'
  end.

(** A task object is handed to [AddTask] once. *)
Definition pool_fresh_task (task : Task) (s : PoolSystem) : bool :=
  bool_decide (task ∉ tasks_ (ppool s))
  && bool_decide (task ∉ flat_map wpc_tasks (ppcs s))
  && bool_decide (task ∉ flat_map wait_pc_tasks (pcallers s))
  && bool_decide (EvFinalize task ∉ ptrace s).

Definition pool_with (r : ThreadPool * list Event) (s : PoolSystem) : PoolSystem :=
  mkPoolSystem (fst r) (ppcs s) (pcallers s) (ptrace s ++ snd r).

(** One step of the plain pool and its threads; [None] when the action
    cannot be taken. *)
Definition pool_step (a : Action) (s : PoolSystem) : option PoolSystem :=
  match a with
  | ActWorker i t1 t2 =>
      match ppcs s !! i with
      | Some pc =>
          let '(p1, evs, pc1) := ThreadPoolWorker_Run_step t1 t2 pc (ppool s) in
          Some (mkPoolSystem p1 (<[i := pc1]> (ppcs s)) (pcallers s) (ptrace s ++ evs))
      | None => None
      end
  | ActAddTask task =>
      if pool_fresh_task task s
      then Some (pool_with (AddTask task (ppool s)) s)
      else None
  | ActStartWorkers now => Some (pool_with (StartWorkers now (ppool s)) s)
  | ActStopWorkers => Some (pool_with (StopWorkers (ppool s)) s)
  | ActShutdown => Some (pool_with (ThreadPool_dtor_locked (ppool s)) s)
  | ActWait do_work =>
      Some (mkPoolSystem (ppool s) (ppcs s) (pcallers s ++ [Wait_entry do_work])
              (ptrace s))
  | ActCaller j =>
      match pcallers s !! j with
      | Some pc =>
          let '(p1, evs, pc1) := Wait_step pc (ppool s) in
          Some (mkPoolSystem p1 (ppcs s) (<[j := pc1]> (pcallers s)) (ptrace s ++ evs))
      | None => None
      end
  end.

Fixpoint pool_run (acts : list Action) (s : PoolSystem) : option PoolSystem :=
  match acts with
  | [] => Some s
  | a :: rest =>
      match pool_step a s with
      | Some s1 => pool_run rest s1
      | None => None
      end
  end.

(** The plain pool right after its construction: every worker thread is
    about to call [GetTask]. *)
Definition pool_init (old_start_time old_total_wait_time num_threads : Z)
  : PoolSystem :=
  mkPoolSystem (ThreadPool_ctor old_start_time old_total_wait_time num_threads)
    (replicate (Z.to_nat num_threads) WP_GetTask) [] [].

(** The accounting of task [x] in the plain pool: it is in one place at
    most, it is run at most once, and it has been run exactly when it is
    finalized or about to be. *)
Record PoolInv (s : PoolSystem) (x : Task) : Prop := mkPoolInv {
  pinv_single :
    occ x (tasks_ (ppool s)) + occ_pcs wpc_tasks x (ppcs s)
    + occ_pcs wait_pc_tasks x (pcallers s) + occ (EvFinalize x) (ptrace s) <= 1;
  pinv_once :
    occ (EvRun x) (ptrace s) + occ x (tasks_ (ppool s))
    + occ_pcs wpc_before_run x (ppcs s) + occ_pcs wait_before_run x (pcallers s) <= 1;
  pinv_done :
    occ (EvFinalize x) (ptrace s) + occ_pcs wpc_after_run x (ppcs s)
    + occ_pcs wait_after_run x (pcallers s) = occ (EvRun x) (ptrace s)
}.

Definition pool_accounted (s : PoolSystem) (x : Task) : Prop :=
  1 <= occ x (tasks_ (ppool s)) + occ_pcs wpc_tasks x (ppcs s)
       + occ_pcs wait_pc_tasks x (pcallers s) + occ (EvFinalize x) (ptrace s).

Record PoolQueueInv (s : PoolSystem) : Prop := mkPoolQueueInv {
  pq_waiting : waiting_count_ (ppool s) = waiting_pool_workers (ppcs s);
  pq_threads : length (threads_ (ppool s)) = length (ppcs s);
  pq_count : Z.of_nat (length (ppcs s)) < 2 ^ 64;
  pq_exit : forall i, ppcs s !! i = Some WP_Exit -> shutting_down_ (ppool s) = true
}.

(** What the events of one step say about task [x], given the events [tr]
    before the step. *)
Definition step_events_in_order (tr evs : list Event) (x : Task) : Prop :=
  (0 < occ x (flat_map event_tasks evs) -> occ (EvFinalize x) tr = 0)
  /\ (0 < occ (EvFinalize x) evs -> 0 < occ (EvRun x) tr)
  /\ (forall pre post, evs = pre ++ EvFinalize x :: post -> post = []).


(** Number of the steps that worker [i] takes in [acts]. *)
Fixpoint own_steps (i : nat) (acts : list Action) : nat :=
  match acts with
  | [] => 0
  | ActWorker k _ _ :: rest =>
      ((if bool_decide (k = i) then 1 else 0) + own_steps i rest)%nat
  | _ :: rest => own_steps i rest
  end.

(** Number of the steps a worker of a pool that is shutting down still
    takes before it leaves the loop of [ThreadPoolWorker::Run]. *)
Definition wpc_rank (pc : WorkerPc) : nat :=
  match pc with
  | WP_Run _ => 3
  | WP_Finalize _ => 2
  | WP_GetTask | WP_InGetTask _ => 1
  | WP_Exit => 0
  end.




(** The events of the thread that destroys the pool, apart from the locked
    region of [ThreadPool::~ThreadPool]. *)
Definition is_dtor_event (e : Event) : bool :=
  match e with
  | EvDestroy _ | EvJoin _ => true
  | _ => false
  end.



(** * Properties *)

(** ** Arithmetic helpers *)

Lemma wrap64_small (x : Z) : 0 <= x < 2 ^ 64 -> wrap64 x = x.
Proof. intros H. unfold wrap64. apply Z.mod_small. exact H. Qed.

Lemma wrap64_range (x : Z) : 0 <= wrap64 x < 2 ^ 64.
Proof. unfold wrap64. apply Z.mod_pos_bound. lia. Qed.

Lemma size_wrap_small (x : Z) : 0 <= x < 2 ^ 64 -> size_wrap x = x.
Proof. intros H. unfold size_wrap. apply Z.mod_small. exact H. Qed.

Lemma size_wrap_range (x : Z) : 0 <= size_wrap x < 2 ^ 64.
Proof. unfold size_wrap. apply Z.mod_pos_bound. lia. Qed.

Lemma occ_nonneg {A} `{EqDecision A} (x : A) (l : list A) : 0 <= occ x l.
Proof. induction l as [|y l IH]; simpl; [lia|]. destruct (decide (x = y)); lia. Qed.

Lemma occ_app {A} `{EqDecision A} (x : A) (l k : list A) :
  occ x (l ++ k) = occ x l + occ x k.
Proof. induction l as [|y l IH]; simpl; [lia|]. rewrite IH. lia. Qed.

Lemma occ_pos_elem_of {A} `{EqDecision A} (x : A) (l : list A) :
  0 < occ x l <-> x ∈ l.
Proof.
  induction l as [|y l IH]; simpl.
  - split; [lia|]. intros Hx. inversion Hx.
  - rewrite elem_of_cons. pose proof (occ_nonneg x l).
    destruct (decide (x = y)) as [->|Hne].
    + split; [auto | lia].
    + split.
      * intros Hp. right. apply IH. lia.
      * intros [Heq|Hin]; [congruence|]. apply IH in Hin. lia.
Qed.

Lemma occ_zero_not_elem_of {A} `{EqDecision A} (x : A) (l : list A) :
  occ x l = 0 <-> x ∉ l.
Proof.
  pose proof (occ_nonneg x l). pose proof (occ_pos_elem_of x l) as Hp.
  split.
  - intros Hz Hin. apply Hp in Hin. lia.
  - intros Hn. destruct (decide (0 < occ x l)) as [Hlt|Hge]; [|lia].
    apply Hp in Hlt. contradiction.
Qed.

(** ** [AddTask] *)

(** C7: [AddTask] puts the task at the tail of the queue and keeps the
    tasks already queued, in their order; it signals [task_queue_condition_]
    once when [waiting_count_] is positive and not at all when it is zero;
    it broadcasts on no condition variable and touches no other field. *)
Theorem AddTask_appends_and_signals_once (task : Task) (p : ThreadPool) :
  0 <= waiting_count_ p < 2 ^ 64 ->
  let p' := fst (AddTask task p) in
  let evs := snd (AddTask task p) in
  tasks_ p' = tasks_ p ++ [task]
  /\ p' = set_tasks (tasks_ p ++ [task]) p
  /\ (0 < waiting_count_ p -> occ (EvSignal task_queue_condition_) evs = 1)
  /\ (waiting_count_ p = 0 -> occ (EvSignal task_queue_condition_) evs = 0)
  /\ (occ (EvSignal task_queue_condition_) evs = 1 <-> 0 < waiting_count_ p)
  /\ (forall c, EvBroadcast c ∉ evs)
  /\ EvSignal completion_condition_ ∉ evs.
Proof.
  intros Hwc p' evs. subst p' evs. unfold AddTask. simpl.
  destruct (Z.eqb_spec (waiting_count_ p) 0) as [Hz|Hnz]; simpl.
  - repeat split; try reflexivity; try lia.
    + intros c Hin. repeat (apply elem_of_cons in Hin as [Hin|Hin]; [discriminate|]).
      inversion Hin.
    + intros Hin. repeat (apply elem_of_cons in Hin as [Hin|Hin]; [discriminate|]).
      inversion Hin.
  - repeat split; try reflexivity; try lia.
    + intros c Hin. repeat (apply elem_of_cons in Hin as [Hin|Hin]; [discriminate|]).
      inversion Hin.
    + intros Hin. repeat (apply elem_of_cons in Hin as [Hin|Hin]; [discriminate|]).
      inversion Hin.
Qed.

Lemma AddTask_appends_and_signals_once_witness :
  let p := mkThreadPool [4; 9]%nat [ThreadPoolWorker "w"] true false 1 0 0 in
  tasks_ (fst (AddTask 7%nat p)) = [4; 9; 7]%nat
  /\ occ (EvSignal task_queue_condition_) (snd (AddTask 7%nat p)) = 1.
Proof.
  pose proof (AddTask_appends_and_signals_once 7%nat
    (mkThreadPool [4; 9]%nat [ThreadPoolWorker "w"] true false 1 0 0)) as H.
  simpl in H. destruct H as (Hq & _ & Hs & _); [lia|].
  split; [exact Hq | apply Hs; lia].
Defined.

(** ** [StartWorkers] *)

(** C8: two calls of [StartWorkers] in a row leave the pool in the state
    that the second call alone produces: [started_] is true, [start_time_]
    is the clock reading of the latest call, [total_wait_time_] is 0, and
    each call broadcasts [task_queue_condition_]. *)
Theorem StartWorkers_idempotent (t1 t2 : Z) (p : ThreadPool) :
  let once := StartWorkers t2 p in
  let twice := StartWorkers t2 (fst (StartWorkers t1 p)) in
  fst twice = fst once
  /\ fst (StartWorkers t1 (fst (StartWorkers t1 p))) = fst (StartWorkers t1 p)
  /\ started_ (fst twice) = true
  /\ start_time_ (fst twice) = t2
  /\ total_wait_time_ (fst twice) = 0
  /\ tasks_ (fst twice) = tasks_ p
  /\ EvBroadcast task_queue_condition_ ∈ snd once
  /\ EvBroadcast task_queue_condition_ ∈ snd twice.
Proof.
  simpl. repeat split; try reflexivity.
  - apply elem_of_cons. right. apply elem_of_cons. left. reflexivity.
  - apply elem_of_cons. right. apply elem_of_cons. left. reflexivity.
Qed.

(** ** [TryGetTask] *)

Lemma TryGetTaskLocked_cons (p : ThreadPool) (task : Task) (rest : list Task) :
  started_ p = true -> tasks_ p = task :: rest ->
  TryGetTaskLocked p = (set_tasks rest p, Some task).
Proof.
  intros Hs Hq. unfold TryGetTaskLocked. rewrite Hs, Hq. reflexivity.
Qed.

Lemma TryGetTaskLocked_none (p : ThreadPool) :
  started_ p = false \/ tasks_ p = [] -> TryGetTaskLocked p = (p, None).
Proof.
  intros [Hs|Hq]; unfold TryGetTaskLocked.
  - rewrite Hs. reflexivity.
  - rewrite Hq. destruct (started_ p); reflexivity.
Qed.

Lemma TryGetTaskLocked_cases (p : ThreadPool) :
  (exists task rest, started_ p = true /\ tasks_ p = task :: rest
     /\ TryGetTaskLocked p = (set_tasks rest p, Some task))
  \/ ((started_ p = false \/ tasks_ p = []) /\ TryGetTaskLocked p = (p, None)).
Proof.
  destruct (started_ p) eqn:Hs.
  - destruct (tasks_ p) as [|task rest] eqn:Hq.
    + right. split; [auto|]. apply TryGetTaskLocked_none. auto.
    + left. exists task, rest. repeat split.
      apply TryGetTaskLocked_cons; assumption.
  - right. split; [auto|]. apply TryGetTaskLocked_none. auto.
Qed.

(** C9: [TryGetTask] never reads [shutting_down_]: on a started pool with a
    non-empty queue it removes and returns the head whatever the flag is,
    and it returns none exactly when the pool is not started or the queue
    is empty. *)
Theorem TryGetTask_ignores_shutting_down (p : ThreadPool) :
  (forall task rest,
     started_ p = true -> tasks_ p = task :: rest ->
     TryGetTask p
     = (set_tasks rest p,
        [EvLock task_queue_lock_; EvUnlock task_queue_lock_], Some task))
  /\ (snd (TryGetTask p) = None <-> started_ p = false \/ tasks_ p = [])
  /\ (forall b,
        snd (TryGetTask (set_shutting_down b p)) = snd (TryGetTask p)
        /\ tasks_ (fst (fst (TryGetTask (set_shutting_down b p))))
           = tasks_ (fst (fst (TryGetTask p))))
  /\ shutting_down_ (fst (fst (TryGetTask p))) = shutting_down_ p.
Proof.
  split; [|split; [|split]].
  - intros task rest Hs Hq. unfold TryGetTask.
    rewrite (TryGetTaskLocked_cons p task rest Hs Hq). reflexivity.
  - unfold TryGetTask.
    destruct (TryGetTaskLocked_cases p) as [(task & rest & Hs & Hq & ->)|[Hc ->]]; simpl.
    + split; [discriminate|]. intros [H|H]; congruence.
    + split; auto.
  - intros b. unfold TryGetTask, TryGetTaskLocked. simpl.
    destruct (started_ p); simpl; [|auto].
    destruct (tasks_ p); simpl; auto.
  - unfold TryGetTask.
    destruct (TryGetTaskLocked_cases p) as [(task & rest & Hs & Hq & ->)|[Hc ->]];
      reflexivity.
Qed.

Lemma TryGetTask_ignores_shutting_down_witness :
  let p := mkThreadPool [4; 9]%nat [ThreadPoolWorker "w"] true true 0 0 0 in
  snd (TryGetTask p) = Some 4%nat /\ tasks_ (fst (fst (TryGetTask p))) = [9%nat].
Proof.
  cbv zeta.
  destruct (TryGetTask_ignores_shutting_down
              (mkThreadPool [4; 9]%nat [ThreadPoolWorker "w"] true true 0 0 0))
    as (Hpop & _).
  rewrite (Hpop 4%nat [9%nat] eq_refl eq_refl). split; reflexivity.
Defined.

(** ** [GetTask] *)

Lemma GetTask_loop_shutting_down (now : Z) (p : ThreadPool) :
  shutting_down_ p = true ->
  GetTask_loop now p = (p, [EvUnlock task_queue_lock_], GT_Return None).
Proof. intros H. unfold GetTask_loop, IsShuttingDown. rewrite H. reflexivity. Qed.

Lemma GetTask_loop_pop (now : Z) (p : ThreadPool) (task : Task) (rest : list Task) :
  shutting_down_ p = false -> started_ p = true -> tasks_ p = task :: rest ->
  GetTask_loop now p
  = (set_tasks rest p, [EvUnlock task_queue_lock_], GT_Return (Some task)).
Proof.
  intros Hd Hs Hq. unfold GetTask_loop, IsShuttingDown. rewrite Hd. simpl.
  rewrite (TryGetTaskLocked_cons p task rest Hs Hq). reflexivity.
Qed.

Lemma GetTask_loop_block (now : Z) (p : ThreadPool) :
  shutting_down_ p = false -> started_ p = false \/ tasks_ p = [] ->
  GetTask_loop now p
  = (set_waiting_count (size_wrap (waiting_count_ p + 1)) p,
     (if (size_wrap (waiting_count_ p + 1) =? GetThreadCount p)
         && bool_decide (tasks_ p = [])
      then [EvBroadcast completion_condition_] else [])
     ++ [EvWait task_queue_condition_],
     GT_Blocked now).
Proof.
  intros Hd Hc. unfold GetTask_loop, IsShuttingDown. rewrite Hd. simpl.
  rewrite (TryGetTaskLocked_none p Hc). reflexivity.
Qed.

Lemma GetTask_loop_keeps_flag (now : Z) (p : ThreadPool) :
  shutting_down_ (fst (fst (GetTask_loop now p))) = shutting_down_ p.
Proof.
  destruct (shutting_down_ p) eqn:Hd.
  - rewrite GetTask_loop_shutting_down by assumption. assumption.
  - destruct (TryGetTaskLocked_cases p) as [(task & rest & Hs & Hq & _)|[Hc _]].
    + rewrite (GetTask_loop_pop now p task rest) by assumption. assumption.
    + rewrite GetTask_loop_block by assumption. assumption.
Qed.

Lemma GetTask_loop_none (now : Z) (p : ThreadPool) :
  snd (GetTask_loop now p) = GT_Return None <-> shutting_down_ p = true.
Proof.
  split.
  - intros H. destruct (shutting_down_ p) eqn:Hd; [reflexivity|].
    destruct (TryGetTaskLocked_cases p) as [(task & rest & Hs & Hq & _)|[Hc _]].
    + rewrite (GetTask_loop_pop now p task rest) in H by assumption. discriminate.
    + rewrite GetTask_loop_block in H by assumption. discriminate.
  - intros Hd. rewrite GetTask_loop_shutting_down by assumption. reflexivity.
Qed.

Lemma GetTask_from_return (wakeups : list Wakeup) (p : ThreadPool)
    (r : option Task) :
  GetTask_from wakeups p (GT_Return r) = (p, [], GT_Return r).
Proof. destruct wakeups; reflexivity. Qed.

Lemma GetTask_from_flag (wakeups : list Wakeup) (p : ThreadPool) (st : GetTaskStatus) :
  (st = GT_Return None <-> shutting_down_ p = true) ->
  (snd (GetTask_from wakeups p st) = GT_Return None
   <-> shutting_down_ (fst (fst (GetTask_from wakeups p st))) = true).
Proof.
  revert p st. induction wakeups as [|w rest IH]; intros p st Hst.
  - destruct st; simpl in *; exact Hst.
  - destruct st as [r|wait_start]; simpl in *; [exact Hst|].
    unfold GetTask_resume in *.
    pose proof (GetTask_loop_none (next_now w)
                  (GetTask_wake wait_start (wait_end w) (others w p))) as Hn.
    pose proof (GetTask_loop_keeps_flag (next_now w)
                  (GetTask_wake wait_start (wait_end w) (others w p))) as Hk.
    destruct (GetTask_loop (next_now w)
                (GetTask_wake wait_start (wait_end w) (others w p)))
      as [[p1 evs1] st1] eqn:Hloop.
    specialize (IH p1 st1).
    destruct (GetTask_from rest p1 st1) as [[p2 evs2] st2] eqn:Hfrom.
    simpl in *. apply IH. rewrite Hk. exact Hn.
Qed.

Lemma GetTask_none (now : Z) (wakeups : list Wakeup) (p : ThreadPool) :
  snd (GetTask now wakeups p) = GT_Return None
  <-> shutting_down_ (fst (fst (GetTask now wakeups p))) = true.
Proof.
  unfold GetTask, GetTask_enter.
  pose proof (GetTask_loop_none now p) as Hn.
  pose proof (GetTask_loop_keeps_flag now p) as Hk.
  destruct (GetTask_loop now p) as [[p1 evs1] st1] eqn:Hloop.
  pose proof (GetTask_from_flag wakeups p1 st1) as Hfrom.
  destruct (GetTask_from wakeups p1 st1) as [[p2 evs2] st2]. simpl in *.
  apply Hfrom. rewrite Hk. exact Hn.
Qed.

Lemma GetTask_shutting_down (now : Z) (wakeups : list Wakeup) (p : ThreadPool) :
  shutting_down_ p = true ->
  GetTask now wakeups p
  = (p, [EvLock task_queue_lock_; EvUnlock task_queue_lock_], GT_Return None).
Proof.
  intros Hd. unfold GetTask, GetTask_enter.
  rewrite GetTask_loop_shutting_down by assumption.
  rewrite GetTask_from_return. reflexivity.
Qed.

Lemma GetTask_pop (now : Z) (wakeups : list Wakeup) (p : ThreadPool)
    (task : Task) (rest : list Task) :
  shutting_down_ p = false -> started_ p = true -> tasks_ p = task :: rest ->
  GetTask now wakeups p
  = (set_tasks rest p, [EvLock task_queue_lock_; EvUnlock task_queue_lock_],
     GT_Return (Some task)).
Proof.
  intros Hd Hs Hq. unfold GetTask, GetTask_enter.
  rewrite (GetTask_loop_pop now p task rest) by assumption.
  rewrite GetTask_from_return. reflexivity.
Qed.

Lemma GetTask_block (now : Z) (p : ThreadPool) :
  shutting_down_ p = false -> started_ p = false \/ tasks_ p = [] ->
  let n := size_wrap (waiting_count_ p + 1) in
  let blocking :=
    EvLock task_queue_lock_
    :: (if (n =? GetThreadCount p) && bool_decide (tasks_ p = [])
        then [EvBroadcast completion_condition_] else [])
       ++ [EvWait task_queue_condition_] in
  GetTask now [] p = (set_waiting_count n p, blocking, GT_Blocked now)
  /\ forall w rest,
       let q := GetTask_wake now (wait_end w) (others w (set_waiting_count n p)) in
       GetTask now (w :: rest) p
       = (fst (fst (GetTask (next_now w) rest q)),
          blocking ++ tail (snd (fst (GetTask (next_now w) rest q))),
          snd (GetTask (next_now w) rest q)).
Proof.
  intros Hd Hc n blocking. subst n blocking. unfold GetTask, GetTask_enter.
  rewrite GetTask_loop_block by assumption. split.
  - cbn [GetTask_from]. rewrite app_nil_r. reflexivity.
  - intros w rest. cbv zeta. cbn [GetTask_from]. unfold GetTask_resume.
    destruct (GetTask_loop (next_now w) _) as [[p1 evs1] st1].
    destruct (GetTask_from rest p1 st1) as [[p2 evs2] st2].
    reflexivity.
Qed.

(** C4: a call of [GetTask] returns none exactly when it finds
    [shutting_down_] set: on a pool that is shutting down it returns none
    at once, and whatever the wake-ups, it returns none exactly when the
    pool it leaves is shutting down.  Otherwise, on a started pool with a
    non-empty queue, it removes the head of the queue and returns it.
    Otherwise it increments [waiting_count_] and, when the new count equals
    the number of workers and the queue is empty, broadcasts
    [completion_condition_] before it waits on [task_queue_condition_];
    with no wake-up the call stays blocked there, and after a wake-up it
    goes on as a new call on the pool that the wake-up finds, the lock
    being held already.  Every pass of the loop decides in the same
    way. *)
Theorem GetTask_behaviour (now : Z) (p : ThreadPool) :
  (snd (GetTask_loop now p) = GT_Return None <-> shutting_down_ p = true)
  /\ (shutting_down_ p = true ->
      GetTask_loop now p = (p, [EvUnlock task_queue_lock_], GT_Return None))
  /\ (forall task rest,
        shutting_down_ p = false -> started_ p = true -> tasks_ p = task :: rest ->
        GetTask_loop now p
        = (set_tasks rest p, [EvUnlock task_queue_lock_], GT_Return (Some task)))
  /\ (shutting_down_ p = false -> started_ p = false \/ tasks_ p = [] ->
      let n := size_wrap (waiting_count_ p + 1) in
      fst (fst (GetTask_loop now p)) = set_waiting_count n p
      /\ snd (GetTask_loop now p) = GT_Blocked now
      /\ (n = GetThreadCount p /\ tasks_ p = [] ->
          snd (fst (GetTask_loop now p))
          = [EvBroadcast completion_condition_; EvWait task_queue_condition_])
      /\ (n <> GetThreadCount p \/ tasks_ p <> [] ->
          snd (fst (GetTask_loop now p)) = [EvWait task_queue_condition_]))
  /\ (forall wakeups,
        snd (GetTask now wakeups p) = GT_Return None
        <-> shutting_down_ (fst (fst (GetTask now wakeups p))) = true)
  /\ (shutting_down_ p = true ->
      forall wakeups,
        GetTask now wakeups p
        = (p, [EvLock task_queue_lock_; EvUnlock task_queue_lock_],
           GT_Return None))
  /\ (forall task rest,
        shutting_down_ p = false -> started_ p = true -> tasks_ p = task :: rest ->
        forall wakeups,
          GetTask now wakeups p
          = (set_tasks rest p,
             [EvLock task_queue_lock_; EvUnlock task_queue_lock_],
             GT_Return (Some task)))
  /\ (shutting_down_ p = false -> started_ p = false \/ tasks_ p = [] ->
      let n := size_wrap (waiting_count_ p + 1) in
      let blocking :=
        EvLock task_queue_lock_
        :: (if (n =? GetThreadCount p) && bool_decide (tasks_ p = [])
            then [EvBroadcast completion_condition_] else [])
           ++ [EvWait task_queue_condition_] in
      GetTask now [] p = (set_waiting_count n p, blocking, GT_Blocked now)
      /\ forall w rest,
           let q := GetTask_wake now (wait_end w)
                      (others w (set_waiting_count n p)) in
           GetTask now (w :: rest) p
           = (fst (fst (GetTask (next_now w) rest q)),
              blocking ++ tail (snd (fst (GetTask (next_now w) rest q))),
              snd (GetTask (next_now w) rest q))).
Proof.
  split; [apply GetTask_loop_none|].
  split; [apply GetTask_loop_shutting_down|].
  split; [intros; apply GetTask_loop_pop; assumption|].
  split.
  - intros Hd Hc n. rewrite GetTask_loop_block by assumption. simpl.
    split; [reflexivity|]. split; [reflexivity|]. split.
    + intros [Hn Hq]. fold n. rewrite Hn, Z.eqb_refl, Hq. reflexivity.
    + intros [Hn|Hq]; fold n.
      * destruct (Z.eqb_spec n (GetThreadCount p)); [contradiction|reflexivity].
      * rewrite (bool_decide_eq_false_2 _ Hq), andb_false_r. reflexivity.
  - split; [intros wakeups; apply GetTask_none|].
    split; [intros Hd wakeups; apply GetTask_shutting_down; assumption|].
    split; [intros task rest Hd Hs Hq wakeups; apply GetTask_pop; assumption|].
    intros Hd Hc. apply GetTask_block; assumption.
Qed.

(** A worker enters [GetTask] at time 3 on a started pool of one worker
    with an empty queue: it broadcasts [completion_condition_] and waits.
    Woken at time 10 after an [AddTask] of task 7, it returns task 7; woken
    after the destructor's shutdown instead, it returns none. *)
Lemma GetTask_behaviour_witness :
  let p := mkThreadPool [] [ThreadPoolWorker "w"] true false 0 0 0 in
  let added := mkWakeup (fun q => fst (AddTask 7%nat q)) 10 11 in
  let shutdown := mkWakeup (fun q => fst (ThreadPool_dtor_locked q)) 10 11 in
  GetTask 3 [] p
  = (set_waiting_count 1 p,
     [EvLock task_queue_lock_; EvBroadcast completion_condition_;
      EvWait task_queue_condition_], GT_Blocked 3)
  /\ snd (GetTask 3 [added] p) = GT_Return (Some 7%nat)
  /\ snd (fst (GetTask 3 [added] p))
     = [EvLock task_queue_lock_; EvBroadcast completion_condition_;
        EvWait task_queue_condition_; EvUnlock task_queue_lock_]
  /\ snd (GetTask 3 [shutdown] p) = GT_Return None
  /\ shutting_down_ (fst (fst (GetTask 3 [shutdown] p))) = true.
Proof.
  cbv zeta.
  destruct (GetTask_behaviour 3
              (mkThreadPool [] [ThreadPoolWorker "w"] true false 0 0 0))
    as (_ & _ & _ & _ & Hnone & _ & _ & Hblock).
  destruct (Hblock eq_refl (or_intror eq_refl)) as (Hstay & Hwake).
  split; [exact Hstay|].
  split; [rewrite Hwake; reflexivity|].
  split; [rewrite Hwake; reflexivity|].
  split; [rewrite Hwake; reflexivity|].
  apply Hnone. rewrite Hwake. reflexivity.
Defined.

(** C2: the code at a worker that waits from 5 to 10 on a pool of one
    worker before any [StartWorkers].  The constructor has not written
    [start_time_], which still holds what was in memory (20): the
    subtraction [wait_end - std::max(wait_start, start_time_)] wraps in
    [uint64_t], and [2^64 - 10] is added to [total_wait_time_] where
    [max(0, wait_end - max(wait_start, start_time_))] is 0.  Once
    [StartWorkers] has written [start_time_] with a reading of the clock
    that is not after the wake-up, the amount added is the clamped
    difference, for every wait. *)
Theorem wait_time_wraps_on_unset_start_time :
  let p0 := ThreadPool_ctor 20 0 1 in
  let p1 := fst (fst (GetTask_enter 5 p0)) in
  let p2 := fst (AddTask 3%nat p1) in
  snd (GetTask_enter 5 p0) = GT_Blocked 5
  /\ start_time_ p2 = 20
  /\ Z.max 0 (10 - Z.max 5 (start_time_ p2)) = 0
  /\ wait_time_added 5 10 (start_time_ p2) = 2 ^ 64 - 10
  /\ total_wait_time_ (GetTask_wake 5 10 p2) = 2 ^ 64 - 10
  /\ snd (GetTask_resume 5 10 11 p2) = GT_Blocked 11
  /\ (forall now wait_start wait_end p,
        0 <= wait_start <= wait_end -> 0 <= now <= wait_end -> wait_end < 2 ^ 64 ->
        wait_time_added wait_start wait_end (start_time_ (fst (StartWorkers now p)))
        = Z.max 0 (wait_end
                   - Z.max wait_start (start_time_ (fst (StartWorkers now p))))).
Proof.
  cbv zeta.
  split; [reflexivity|]. split; [reflexivity|]. split; [reflexivity|].
  split; [reflexivity|]. split; [reflexivity|]. split; [reflexivity|].
  intros now wait_start wait_end p Hws Hnow Hwe. unfold wait_time_added.
  cbn [StartWorkers fst start_time_ set_total_wait_time set_start_time].
  rewrite wrap64_small by lia. lia.
Qed.

(** X22: when the wake-up is not before the clipped start of the wait,
    [max(wait_start, start_time_) <= wait_end], the amount added to
    [total_wait_time_] is [wait_end - max(wait_start, start_time_)], which
    is then [max(0, ...)]: a wait that began before [start_time_] counts
    from [start_time_], and the amount is neither negative nor wrapped nor
    more than the length of the wait. *)
Theorem wait_time_added_clipped (wait_start wait_end : Z) (p : ThreadPool) :
  0 <= wait_start -> 0 <= start_time_ p -> wait_end < 2 ^ 64 ->
  Z.max wait_start (start_time_ p) <= wait_end ->
  let added := wait_time_added wait_start wait_end (start_time_ p) in
  added = Z.max 0 (wait_end - Z.max wait_start (start_time_ p))
  /\ added = wait_end - Z.max wait_start (start_time_ p)
  /\ 0 <= added <= wait_end - wait_start
  /\ (wait_start <= start_time_ p -> added = wait_end - start_time_ p)
  /\ total_wait_time_ (GetTask_wake wait_start wait_end p)
     = wrap64 (total_wait_time_ p + added).
Proof.
  intros Hws Hst Hwe Hle added. subst added. unfold wait_time_added.
  assert (Hsmall : wrap64 (wait_end - Z.max wait_start (start_time_ p))
                   = wait_end - Z.max wait_start (start_time_ p))
    by (apply wrap64_small; lia).
  repeat split; rewrite Hsmall; lia.
Qed.

Lemma wait_time_added_clipped_witness :
  let p := fst (StartWorkers 7 (ThreadPool_ctor 20 0 1)) in
  wait_time_added 5 10 (start_time_ p) = Z.max 0 (10 - Z.max 5 (start_time_ p))
  /\ total_wait_time_ (GetTask_wake 5 10 p) = 3.
Proof.
  cbv zeta.
  destruct (wait_time_added_clipped 5 10
              (fst (StartWorkers 7 (ThreadPool_ctor 20 0 1))))
    as (H1 & _ & _ & _ & H5); [simpl; lia ..|].
  split; [exact H1 | rewrite H5; reflexivity].
Defined.

(** ** [total_wait_time_] along sequences of operations *)

Lemma TryGetTaskLocked_total (p : ThreadPool) :
  total_wait_time_ (fst (TryGetTaskLocked p)) = total_wait_time_ p
  /\ start_time_ (fst (TryGetTaskLocked p)) = start_time_ p.
Proof.
  destruct (TryGetTaskLocked_cases p) as [(task & rest & _ & _ & ->)|[_ ->]];
    split; reflexivity.
Qed.

Lemma GetTask_loop_total (now : Z) (p : ThreadPool) :
  total_wait_time_ (fst (fst (GetTask_loop now p))) = total_wait_time_ p
  /\ start_time_ (fst (fst (GetTask_loop now p))) = start_time_ p.
Proof.
  destruct (shutting_down_ p) eqn:Hd.
  - rewrite GetTask_loop_shutting_down by assumption. split; reflexivity.
  - destruct (TryGetTaskLocked_cases p) as [(task & rest & Hs & Hq & _)|[Hc _]].
    + rewrite (GetTask_loop_pop now p task rest) by assumption. split; reflexivity.
    + rewrite GetTask_loop_block by assumption. split; reflexivity.
Qed.

Lemma GetTask_enter_total (now : Z) (p : ThreadPool) :
  total_wait_time_ (fst (fst (GetTask_enter now p))) = total_wait_time_ p
  /\ start_time_ (fst (fst (GetTask_enter now p))) = start_time_ p.
Proof.
  unfold GetTask_enter. pose proof (GetTask_loop_total now p) as H.
  destruct (GetTask_loop now p) as [[p1 evs] st]. exact H.
Qed.

Lemma Wait_step_total (pc : WaitPc) (p : ThreadPool) :
  total_wait_time_ (fst (fst (Wait_step pc p))) = total_wait_time_ p
  /\ start_time_ (fst (fst (Wait_step pc p))) = start_time_ p.
Proof.
  destruct pc; simpl; try (split; reflexivity).
  - unfold TryGetTask. pose proof (TryGetTaskLocked_total p) as H.
    destruct (TryGetTaskLocked p) as [p1 [task|]]; exact H.
  - destruct (Wait_completion_loop p); split; reflexivity.
  - destruct (Wait_completion_loop p); split; reflexivity.
Qed.

(** What each operation does to [total_wait_time_]. *)
Lemma apply_op_total (op : PoolOp) (p : ThreadPool) :
  total_wait_time_ (apply_op op p)
  = match op with
    | OpStartWorkers _ => 0
    | OpGetTaskWake ws we _ =>
        wrap64 (total_wait_time_ p + wait_time_added ws we (start_time_ p))
    | _ => total_wait_time_ p
    end.
Proof.
  destruct op; simpl; try reflexivity.
  - apply GetTask_enter_total.
  - unfold GetTask_resume.
    destruct (GetTask_loop_total now (GetTask_wake wait_start wait_end0 p)) as [-> _].
    reflexivity.
  - unfold TryGetTask. pose proof (TryGetTaskLocked_total p) as [H _].
    destruct (TryGetTaskLocked p) as [p1 r]. exact H.
  - apply Wait_step_total.
Qed.

Lemma apply_op_total_range (op : PoolOp) (p : ThreadPool) :
  is_uint64 (total_wait_time_ p) -> is_uint64 (total_wait_time_ (apply_op op p)).
Proof.
  intros H. rewrite apply_op_total. unfold is_uint64 in *.
  destruct op; try assumption; [lia | apply wrap64_range].
Qed.

Lemma apply_op_total_mono (op : PoolOp) (p : ThreadPool) :
  is_uint64 (total_wait_time_ p) ->
  is_StartWorkers op = false -> op_in_range op p = true ->
  total_wait_time_ p <= total_wait_time_ (apply_op op p).
Proof.
  intros Hu Hs Hr. rewrite apply_op_total. unfold is_uint64 in Hu.
  destruct op; try discriminate; try lia.
  simpl in Hr. apply andb_true_iff in Hr as [Hle Hlt].
  apply Z.leb_le in Hle. apply Z.ltb_lt in Hlt.
  unfold wait_time_added.
  rewrite (wrap64_small (wait_end0 - _)) by lia.
  rewrite wrap64_small by lia. lia.
Qed.

Lemma apply_ops_total_range (ops : list PoolOp) (p : ThreadPool) :
  is_uint64 (total_wait_time_ p) -> is_uint64 (total_wait_time_ (apply_ops ops p)).
Proof.
  revert p. induction ops as [|op ops IH]; intros p H; simpl; [assumption|].
  apply IH. apply apply_op_total_range. assumption.
Qed.

Lemma apply_ops_total_mono (ops : list PoolOp) (p : ThreadPool) :
  is_uint64 (total_wait_time_ p) -> ops_in_range ops p = true ->
  total_wait_time_ p <= total_wait_time_ (apply_ops ops p).
Proof.
  revert p. induction ops as [|op ops IH]; intros p Hu Hr; simpl; [lia|].
  simpl in Hr. apply andb_true_iff in Hr as [Hr Hrest].
  apply andb_true_iff in Hr as [Hs Hop]. apply negb_true_iff in Hs.
  pose proof (apply_op_total_mono op p Hu Hs Hop).
  pose proof (IH (apply_op op p) (apply_op_total_range op p Hu) Hrest).
  unfold apply_ops in *. lia.
Qed.

(** C3, as the spec states it, fails in two ways.  On a pool of one worker
    that has waited 10 ns since the first start, a second [StartWorkers]
    takes [total_wait_time_] from 10 back to 0.  On a pool that was never
    started and whose [start_time_] still holds what the constructor found
    in memory (20), a wait from 5 to 10 and a wait from 10 to 15 take
    [total_wait_time_] from 7 to [2^64 - 3] and then down to [2^64 - 8]. *)
Lemma total_wait_time_can_decrease :
  let p := apply_ops [OpStartWorkers 0; OpGetTask 1; OpGetTaskWake 1 11 11]
             (ThreadPool_ctor 0 0 1) in
  let q := apply_ops [OpGetTask 5; OpGetTaskWake 5 10 10] (ThreadPool_ctor 20 7 1) in
  (total_wait_time_ p = 10
   /\ total_wait_time_ (apply_op (OpStartWorkers 12) p) = 0
   /\ ~ (total_wait_time_ p <= total_wait_time_ (apply_op (OpStartWorkers 12) p)))
  /\ (total_wait_time_ q = 2 ^ 64 - 3
      /\ total_wait_time_ (apply_op (OpGetTaskWake 10 15 15) q) = 2 ^ 64 - 8
      /\ ~ (total_wait_time_ q
            <= total_wait_time_ (apply_op (OpGetTaskWake 10 15 15) q))).
Proof.
  vm_compute. split.
  - split; [reflexivity|]. split; [reflexivity|].
    intros H. apply H. reflexivity.
  - split; [reflexivity|]. split; [reflexivity|].
    intros H. apply H. reflexivity.
Qed.

(** C3 (amended): [total_wait_time_] stays a non-negative 64-bit value
    along every sequence of operations; [StartWorkers] resets it to 0; and
    along a sequence without [StartWorkers] in which every wake-up of
    [GetTask] is in range (it is not before the clipped start of its wait
    and the sum fits 64 bits) it never decreases. *)
Theorem total_wait_time_monotone_between_starts (ops : list PoolOp) (p : ThreadPool) :
  is_uint64 (total_wait_time_ p) ->
  (0 <= total_wait_time_ (apply_ops ops p) < 2 ^ 64)
  /\ (forall now, total_wait_time_ (apply_op (OpStartWorkers now) (apply_ops ops p)) = 0)
  /\ (ops_in_range ops p = true ->
      total_wait_time_ p <= total_wait_time_ (apply_ops ops p))
  /\ (forall op,
        ops_in_range (ops ++ [op]) p = true ->
        total_wait_time_ (apply_ops ops p)
        <= total_wait_time_ (apply_ops (ops ++ [op]) p)).
Proof.
  intros Hu. split; [apply apply_ops_total_range; assumption|].
  split; [intros now; reflexivity|].
  split; [apply apply_ops_total_mono; assumption|].
  intros op Hr. unfold apply_ops. rewrite foldl_app. simpl.
  fold (apply_ops ops p).
  assert (Hlast : ops_in_range [op] (apply_ops ops p) = true).
  { clear Hu. revert p Hr. induction ops as [|o ops IH]; intros p Hr.
    - exact Hr.
    - simpl in Hr. apply andb_true_iff in Hr as [_ Hr]. apply (IH _ Hr). }
  simpl in Hlast. rewrite andb_true_r in Hlast.
  apply andb_true_iff in Hlast as [Hs Hop]. apply negb_true_iff in Hs.
  apply apply_op_total_mono; [apply apply_ops_total_range| |]; assumption.
Qed.

Lemma total_wait_time_monotone_between_starts_witness :
  let p := fst (StartWorkers 0 (ThreadPool_ctor 0 0 1)) in
  let ops := [OpGetTask 1; OpAddTask 3%nat; OpGetTaskWake 1 11 11] in
  total_wait_time_ p <= total_wait_time_ (apply_ops ops p)
  /\ total_wait_time_ (apply_ops ops p) = 10.
Proof.
  cbv zeta.
  destruct (total_wait_time_monotone_between_starts
              [OpGetTask 1; OpAddTask 3%nat; OpGetTaskWake 1 11 11]
              (fst (StartWorkers 0 (ThreadPool_ctor 0 0 1))))
    as (_ & _ & Hmono & _); [simpl; unfold is_uint64; lia|].
  split; [apply Hmono; reflexivity | reflexivity].
Defined.


(** ** The constructor *)

Lemma ThreadPool_add_workers_fields (fuel : nat) (num_threads : Z) (p : ThreadPool) :
  let p' := ThreadPool_add_workers fuel num_threads p in
  tasks_ p' = tasks_ p /\ started_ p' = started_ p
  /\ shutting_down_ p' = shutting_down_ p /\ waiting_count_ p' = waiting_count_ p
  /\ start_time_ p' = start_time_ p /\ total_wait_time_ p' = total_wait_time_ p.
Proof.
  revert p. induction fuel as [|fuel IH]; intros p; simpl; [tauto|].
  destruct (GetThreadCount p <? num_threads); [|tauto].
  apply (IH (set_threads _ p)).
Qed.

Lemma apply_op_quiet (op : PoolOp) (p : ThreadPool) :
  is_quiet op = true ->
  start_time_ (apply_op op p) = start_time_ p
  /\ total_wait_time_ (apply_op op p) = total_wait_time_ p.
Proof.
  intros Hq. split; [|rewrite apply_op_total; destruct op; try discriminate; reflexivity].
  destruct op; try discriminate; simpl; try reflexivity.
  - apply GetTask_enter_total.
  - unfold TryGetTask. pose proof (TryGetTaskLocked_total p) as [_ H].
    destruct (TryGetTaskLocked p) as [p1 r]. exact H.
  - apply Wait_step_total.
Qed.

Lemma apply_ops_quiet (ops : list PoolOp) (p : ThreadPool) :
  forallb is_quiet ops = true ->
  start_time_ (apply_ops ops p) = start_time_ p
  /\ total_wait_time_ (apply_ops ops p) = total_wait_time_ p.
Proof.
  revert p. induction ops as [|op ops IH]; intros p Hq; simpl; [tauto|].
  simpl in Hq. apply andb_true_iff in Hq as [Hop Hrest].
  destruct (IH (apply_op op p) Hrest) as [-> ->]. apply apply_op_quiet. assumption.
Qed.

(** C10: the constructor sets [started_], [shutting_down_] and
    [waiting_count_] and leaves in [start_time_] and [total_wait_time_]
    what the storage of the object held before.  A worker that enters
    [GetTask] on the new pool blocks, and when it wakes up with no
    [StartWorkers] since, those old values are what it reads and what the
    new [total_wait_time_] is made of. *)
Theorem ThreadPool_ctor_leaves_times_unset
    (old_start_time old_total_wait_time num_threads : Z) :
  let p := ThreadPool_ctor old_start_time old_total_wait_time num_threads in
  started_ p = false /\ shutting_down_ p = false /\ waiting_count_ p = 0
  /\ start_time_ p = old_start_time
  /\ total_wait_time_ p = old_total_wait_time
  /\ (forall now, snd (GetTask_enter now p) = GT_Blocked now)
  /\ (forall now wait_end ops,
        forallb is_quiet ops = true ->
        let p1 := apply_ops ops (fst (fst (GetTask_enter now p))) in
        total_wait_time_ (GetTask_wake now wait_end p1)
        = wrap64 (old_total_wait_time
                  + wrap64 (wait_end - Z.max now old_start_time))).
Proof.
  intros p. subst p. unfold ThreadPool_ctor.
  pose proof (ThreadPool_add_workers_fields (Z.to_nat num_threads) num_threads
                (mkThreadPool [] [] false false 0 old_start_time old_total_wait_time))
    as (Hq & Hs & Hd & Hw & Hst & Htw).
  cbv zeta in *. simpl in Hq, Hs, Hd, Hw, Hst, Htw.
  repeat (split; [assumption|]). split.
  - intros now. unfold GetTask_enter.
    rewrite GetTask_loop_block by (auto). reflexivity.
  - intros now wait_end0 ops Hquiet. cbv zeta.
    unfold GetTask_wake, wait_time_added. simpl.
    destruct (apply_ops_quiet ops
                (fst (fst (GetTask_enter now
                   (ThreadPool_add_workers (Z.to_nat num_threads) num_threads
                      (mkThreadPool [] [] false false 0 old_start_time
                         old_total_wait_time))))) Hquiet) as [-> ->].
    destruct (GetTask_enter_total now
                (ThreadPool_add_workers (Z.to_nat num_threads) num_threads
                   (mkThreadPool [] [] false false 0 old_start_time
                      old_total_wait_time))) as [-> ->].
    rewrite Hst, Htw. reflexivity.
Qed.

Lemma ThreadPool_ctor_leaves_times_unset_witness :
  let p := ThreadPool_ctor 20 7 2 in
  let p1 := apply_ops [OpAddTask 3%nat] (fst (fst (GetTask_enter 5 p))) in
  start_time_ p = 20 /\ total_wait_time_ p = 7
  /\ total_wait_time_ (GetTask_wake 5 10 p1) = 2 ^ 64 - 3.
Proof.
  cbv zeta.
  destruct (ThreadPool_ctor_leaves_times_unset 20 7 2)
    as (_ & _ & _ & Hst & Htw & _ & Hacc).
  split; [exact Hst|]. split; [exact Htw|].
  rewrite (Hacc 5 10 [OpAddTask 3%nat] eq_refl). reflexivity.
Defined.

(** ** [Wait] *)

(** C1 fails on the code: [Wait] never reads [do_work].  A call with
    [do_work = false] on a started pool of no workers that holds task 7
    takes the task from the queue, runs it and finalizes it before it looks
    at the completion condition, exactly as a call with [do_work = true]. *)
Theorem Wait_drains_without_do_work :
  (forall n p, Wait_steps n (Wait_entry false) p = Wait_steps n (Wait_entry true) p)
  /\ let p := apply_ops [OpAddTask 7%nat; OpStartWorkers 0] (ThreadPool_ctor 0 0 0) in
     tasks_ p = [7%nat]
     /\ Wait_steps 5 (Wait_entry false) p
        = (set_tasks [] p,
           [EvLock task_queue_lock_; EvUnlock task_queue_lock_;
            EvRun 7%nat; EvFinalize 7%nat;
            EvLock task_queue_lock_; EvUnlock task_queue_lock_;
            EvLock task_queue_lock_; EvUnlock task_queue_lock_],
           Wait_Return).
Proof. split; [reflexivity|]. vm_compute. split; reflexivity. Qed.

(** ** [FindTaskToStealFrom] *)

Section FindTaskToStealFrom_scan.

Variable threads : list Worker.
Let n : Z := Z.of_nat (length threads).

Hypothesis threads_stealing : Forall is_stealing_worker threads.
Hypothesis threads_count : n < 2 ^ 64.

Lemma next_index (c : Z) :
  0 <= c < n ->
  (if n <=? size_wrap (c + 1)
   then size_wrap (size_wrap (c + 1) - n) else size_wrap (c + 1))
  = (c + 1) mod n.
Proof.
  intros Hc. rewrite (size_wrap_small (c + 1)) by lia.
  destruct (Z.leb_spec n (c + 1)) as [Hge|Hlt].
  - assert (c + 1 = n) as -> by lia.
    rewrite Z.sub_diag, Z_mod_same_full. reflexivity.
  - rewrite Z.mod_small by lia. reflexivity.
Qed.

Lemma stealing_worker_at (i : Z) :
  0 <= i < n ->
  exists name task, threads !! Z.to_nat i = Some (WorkStealingWorker name task).
Proof.
  intros Hi. subst n.
  destruct (lookup_lt_is_Some_2 threads (Z.to_nat i)) as [w Hw]; [lia|].
  pose proof (Forall_lookup_1 _ _ _ _ threads_stealing Hw) as Hs.
  destruct w as [name|name task]; [contradiction|]. eauto.
Qed.

Lemma FindTaskToStealFrom_loop_scan (k : nat) (c : Z) :
  0 <= c < n ->
  exists m r,
    FindTaskToStealFrom_loop k n threads c = Defined_ ((c + m) mod n, r)
    /\ 0 <= m <= Z.of_nat k
    /\ (forall j, 1 <= j < m -> candidate_task threads c j = None)
    /\ (forall t, r = Some t -> 1 <= m /\ candidate_task threads c m = Some t)
    /\ (r = None ->
        m = Z.of_nat k /\ forall j, 1 <= j <= m -> candidate_task threads c j = None).
Proof.
  revert c. induction k as [|k IH]; intros c Hc.
  - exists 0, None. simpl. rewrite Z.add_0_r, Z.mod_small by lia.
    repeat split; try lia; try discriminate.
  - cbn [FindTaskToStealFrom_loop]. cbv zeta. rewrite (next_index c Hc).
    assert (Hsi : 0 <= (c + 1) mod n < n) by (apply Z.mod_pos_bound; lia).
    destruct (stealing_worker_at _ Hsi) as (name & task & Hlook).
    rewrite Hlook.
    assert (Hcand1 : candidate_task threads c 1 = task).
    { unfold candidate_task. fold n. rewrite Hlook. reflexivity. }
    destruct task as [t|].
    + exists 1, (Some t). repeat split; try lia.
      * congruence.
      * discriminate.
      * discriminate.
    + destruct (IH _ Hsi) as (m & r & Heq & Hm & Hskip & Hsome & Hnone).
      assert (Hshift : forall j, candidate_task threads ((c + 1) mod n) j
                                 = candidate_task threads c (1 + j)).
      { intros j. unfold candidate_task. fold n.
        rewrite Zplus_mod_idemp_l. replace (c + 1 + j) with (c + (1 + j)) by lia.
        reflexivity. }
      exists (1 + m), r. rewrite Heq.
      rewrite Zplus_mod_idemp_l. replace (c + 1 + m) with (c + (1 + m)) by lia.
      split; [reflexivity|]. split; [lia|]. split; [|split].
      * intros j Hj. destruct (decide (j = 1)) as [->|Hne]; [assumption|].
        replace j with (1 + (j - 1)) by lia. rewrite <- Hshift.
        apply Hskip. lia.
      * intros t Hr. destruct (Hsome t Hr) as [Hm1 Hc1].
        split; [lia|]. rewrite <- Hshift. assumption.
      * intros Hr. destruct (Hnone Hr) as [Hmk Hall].
        split; [lia|]. intros j Hj.
        destruct (decide (j = 1)) as [->|Hne]; [assumption|].
        replace j with (1 + (j - 1)) by lia. rewrite <- Hshift.
        apply Hall. lia.
Qed.

Lemma every_worker_is_a_candidate (c : Z) (i : nat) (w : Worker) :
  0 <= c < n -> threads !! i = Some w ->
  exists j, 1 <= j <= n /\ candidate_task threads c j = worker_task w.
Proof.
  intros Hc Hw.
  assert (Hi : 0 <= Z.of_nat i < n).
  { apply lookup_lt_Some in Hw. subst n. lia. }
  destruct (decide (c < Z.of_nat i)) as [Hlt|Hge].
  - exists (Z.of_nat i - c). split; [lia|].
    unfold candidate_task. fold n.
    replace (c + (Z.of_nat i - c)) with (Z.of_nat i) by lia.
    rewrite Z.mod_small, Nat2Z.id, Hw by lia. reflexivity.
  - exists (Z.of_nat i - c + n). split; [lia|].
    unfold candidate_task. fold n.
    replace (c + (Z.of_nat i - c + n)) with (Z.of_nat i + 1 * n) by lia.
    rewrite Z_mod_plus_full, Z.mod_small, Nat2Z.id, Hw by lia. reflexivity.
Qed.

End FindTaskToStealFrom_scan.

(** The scan of [FindTaskToStealFrom] on a pool of stealing workers whose
    [steal_index_] is in range. *)
Lemma FindTaskToStealFrom_scan (wp : WorkStealingThreadPool) :
  let threads := threads_ (pool wp) in
  let n := GetThreadCount (pool wp) in
  let c := steal_index_ wp in
  Forall is_stealing_worker threads -> n < 2 ^ 64 -> 0 <= c < n ->
  exists m wp' r,
    FindTaskToStealFrom wp = Defined_ (wp', r)
    /\ pool wp' = pool wp
    /\ 1 <= m <= n
    /\ steal_index_ wp' = (c + m) mod n
    /\ 0 <= steal_index_ wp' < n
    /\ (forall j, 1 <= j < m -> candidate_task threads c j = None)
    /\ candidate_task threads c m = r
    /\ (r = None -> m = n /\ Forall (fun w => worker_task w = None) threads)
    /\ (forall i w, threads !! i = Some w -> worker_task w <> None -> r <> None).
Proof.
  intros threads n c Hst Hn Hc.
  assert (Hn0 : 0 <= n) by (subst n; unfold GetThreadCount; lia).
  destruct (FindTaskToStealFrom_loop_scan threads Hst Hn (Z.to_nat n) c Hc)
    as (m & r & Heq & Hm & Hskip & Hsome & Hnone).
  change (Z.of_nat (length threads)) with n in Heq.
  assert (Hnn : Z.of_nat (Z.to_nat n) = n) by (apply Z2Nat.id; exact Hn0).
  rewrite Hnn in Hm, Hnone. clear Hnn.
  assert (Hall : r = None -> Forall (fun w => worker_task w = None) threads).
  { intros Hr. destruct (Hnone Hr) as [Hmn Hcand].
    apply Forall_lookup_2. intros i w Hw.
    destruct (every_worker_is_a_candidate threads c i w Hc Hw) as (j & Hj & <-).
    apply Hcand. change (Z.of_nat (length threads)) with n in Hj. lia. }
  assert (Hm1 : 1 <= m).
  { destruct r as [t|]; [apply (Hsome t); reflexivity|].
    destruct (Hnone eq_refl) as [-> _]. lia. }
  exists m, (mkWorkStealingThreadPool (pool wp) ((c + m) mod n)), r.
  unfold FindTaskToStealFrom.
  change (GetThreadCount (pool wp)) with n.
  change (threads_ (pool wp)) with threads. change (steal_index_ wp) with c.
  rewrite Heq. simpl.
  split; [reflexivity|]. split; [reflexivity|]. split; [lia|].
  split; [reflexivity|]. split; [apply Z.mod_pos_bound; lia|].
  split; [assumption|]. split; [|split].
  - destruct r as [t|]; [apply (Hsome t); reflexivity|].
    destruct (Hnone eq_refl) as [_ Hcand]. apply Hcand. lia.
  - intros Hr. split; [apply (Hnone Hr) | apply (Hall Hr)].
  - intros i w Hw Hne Hr. apply Hne.
    exact (Forall_lookup_1 _ _ _ _ (Hall Hr) Hw).
Qed.

(** C6: one call of [FindTaskToStealFrom] examines [m] candidates, at
    least one and at most as many as there are workers; each candidate is
    the worker one position further round [threads_], so [steal_index_]
    ends [m] positions further modulo the worker count and stays there for
    the next call; the candidates before the last have a null [task_]; the
    result is the [task_] of the last candidate when that is not null, and
    none only after every worker was examined and found with a null
    [task_].  No worker is left out: a non-null [task_] of any worker, the
    caller's included, makes the result non-null. *)
Theorem FindTaskToStealFrom_round_robin (wp : WorkStealingThreadPool) :
  let threads := threads_ (pool wp) in
  let n := GetThreadCount (pool wp) in
  let c := steal_index_ wp in
  Forall is_stealing_worker threads -> n < 2 ^ 64 -> 0 <= c < n ->
  exists m wp' r,
    FindTaskToStealFrom wp = Defined_ (wp', r)
    /\ pool wp' = pool wp
    /\ 1 <= m <= n
    /\ steal_index_ wp' = (c + m) mod n
    /\ 0 <= steal_index_ wp' < n
    /\ (forall j, 1 <= j < m -> candidate_task threads c j = None)
    /\ candidate_task threads c m = r
    /\ (r = None -> m = n /\ Forall (fun w => worker_task w = None) threads)
    /\ (forall i w, threads !! i = Some w -> worker_task w <> None -> r <> None).
Proof. exact (FindTaskToStealFrom_scan wp). Qed.

(** On a pool without workers the loop body never runs: the result is
    none and [steal_index_] stays. *)
Lemma FindTaskToStealFrom_no_workers (wp : WorkStealingThreadPool) :
  threads_ (pool wp) = [] -> FindTaskToStealFrom wp = Defined_ (wp, None).
Proof.
  intros H. unfold FindTaskToStealFrom, GetThreadCount. rewrite H. simpl.
  destruct wp. reflexivity.
Qed.

Lemma FindTaskToStealFrom_round_robin_witness :
  let wp :=
    mkWorkStealingThreadPool
      (mkThreadPool []
         [WorkStealingWorker "a" None; WorkStealingWorker "b" None;
          WorkStealingWorker "c" (Some 5%nat); WorkStealingWorker "d" None]
         true false 0 0 0) 3 in
  FindTaskToStealFrom wp
  = Defined_ (mkWorkStealingThreadPool (pool wp) 2, Some 5%nat).
Proof.
  cbv zeta.
  destruct (FindTaskToStealFrom_round_robin
    (mkWorkStealingThreadPool
      (mkThreadPool []
         [WorkStealingWorker "a" None; WorkStealingWorker "b" None;
          WorkStealingWorker "c" (Some 5%nat); WorkStealingWorker "d" None]
         true false 0 0 0) 3))
    as (m & wp' & r & Heq & _).
  - repeat constructor.
  - vm_compute. reflexivity.
  - vm_compute. split; [discriminate | reflexivity].
  - rewrite Heq. vm_compute in Heq. inversion Heq. reflexivity.
Defined.

(** ** The work-stealing workers run together *)

(** *** Counting over the control states *)

Lemma occ_pcs_nonneg {St} (f : St -> list Task) (x : Task) (l : list St) :
  0 <= occ_pcs f x l.
Proof. apply occ_nonneg. Qed.

Lemma occ_pcs_cons {St} (f : St -> list Task) (x : Task) (pc : St) (l : list St) :
  occ_pcs f x (pc :: l) = occ x (f pc) + occ_pcs f x l.
Proof. unfold occ_pcs. simpl. apply occ_app. Qed.

Lemma occ_pcs_snoc {St} (f : St -> list Task) (x : Task) (pc : St) (l : list St) :
  occ_pcs f x (l ++ [pc]) = occ_pcs f x l + occ x (f pc).
Proof.
  induction l as [|a l IH]; simpl.
  - rewrite occ_pcs_cons. unfold occ_pcs. simpl. lia.
  - rewrite !occ_pcs_cons, IH. lia.
Qed.

Lemma occ_pcs_lookup {St} (f : St -> list Task) (x : Task) (l : list St)
    (i : nat) (pc : St) :
  l !! i = Some pc ->
  occ_pcs f x l = occ x (f pc) + occ_pcs f x (delete i l).
Proof.
  revert i. induction l as [|a l IH]; intros [|i] Hl; simpl in Hl; try discriminate.
  - inversion Hl; subst. apply occ_pcs_cons.
  - change (delete (S i) (a :: l)) with (a :: delete i l).
    rewrite !occ_pcs_cons, (IH i Hl). lia.
Qed.

Lemma occ_pcs_insert {St} (f : St -> list Task) (x : Task) (l : list St)
    (i : nat) (pc pc' : St) :
  l !! i = Some pc ->
  occ_pcs f x (<[i := pc']> l) = occ x (f pc') + occ_pcs f x (delete i l).
Proof.
  revert i. induction l as [|a l IH]; intros [|i] Hl; simpl in Hl; try discriminate.
  - apply occ_pcs_cons.
  - change (<[S i := pc']> (a :: l)) with (a :: <[i := pc']> l).
    change (delete (S i) (a :: l)) with (a :: delete i l).
    rewrite !occ_pcs_cons, (IH i Hl). lia.
Qed.

Lemma occ_pcs_ge_lookup {St} (f : St -> list Task) (x : Task) (l : list St)
    (j : nat) (pc : St) :
  l !! j = Some pc -> occ x (f pc) <= occ_pcs f x l.
Proof.
  intros Hl. rewrite (occ_pcs_lookup f x l j pc Hl).
  pose proof (occ_pcs_nonneg f x (delete j l)). lia.
Qed.

Lemma occ_pcs_delete_ge_lookup {St} (f : St -> list Task) (x : Task)
    (l : list St) (i j : nat) (pc : St) :
  i <> j -> l !! j = Some pc -> occ x (f pc) <= occ_pcs f x (delete i l).
Proof.
  intros Hne Hl.
  destruct (decide (j < i)%nat) as [Hlt|Hge].
  - apply (occ_pcs_ge_lookup f x _ j). rewrite list_lookup_delete_lt by lia. exact Hl.
  - apply (occ_pcs_ge_lookup f x _ (pred j)).
    rewrite list_lookup_delete_ge by lia.
    replace (S (pred j)) with j by lia. exact Hl.
Qed.

Lemma occ_pc_held_le_1 (x : Task) (pc : StealPc) :
  pc_wf pc -> occ x (pc_registered pc) + occ x (pc_victim pc) <= 1.
Proof.
  destruct pc; simpl; intros Hwf; repeat case_decide; subst; try lia; contradiction.
Qed.

Lemma occ_pcs_held_le_length (x : Task) (l : list StealPc) :
  Forall pc_wf l ->
  occ_pcs pc_registered x l + occ_pcs pc_victim x l <= Z.of_nat (length l).
Proof.
  induction 1 as [|pc l Hwf _ IH]; [unfold occ_pcs; simpl; lia|].
  rewrite !occ_pcs_cons. pose proof (occ_pc_held_le_1 x pc Hwf).
  simpl length. lia.
Qed.

Lemma occ_pcs_le_tasks (f : StealPc -> list Task) (x : Task) (l : list StealPc) :
  (forall pc, occ x (f pc) <= occ x (pc_tasks pc)) ->
  occ_pcs f x l <= occ_pcs pc_tasks x l.
Proof.
  intros Hf. induction l as [|pc l IH]; [unfold occ_pcs; simpl; lia|].
  rewrite !occ_pcs_cons. specialize (Hf pc). lia.
Qed.

Lemma occ_pcs_fresh (x : Task) (l : list StealPc) :
  x ∉ flat_map pc_tasks l ->
  occ_pcs pc_unregistered x l = 0 /\ occ_pcs pc_registered x l = 0
  /\ occ_pcs pc_victim x l = 0 /\ occ_pcs pc_pending x l = 0.
Proof.
  intros Hx. apply occ_zero_not_elem_of in Hx. fold (occ_pcs pc_tasks x l) in Hx.
  pose proof (occ_pcs_nonneg pc_unregistered x l).
  pose proof (occ_pcs_nonneg pc_registered x l).
  pose proof (occ_pcs_nonneg pc_victim x l).
  pose proof (occ_pcs_nonneg pc_pending x l).
  assert (occ_pcs pc_unregistered x l <= occ_pcs pc_tasks x l).
  { apply occ_pcs_le_tasks. intros pc. destruct pc as [| | | | | | | | | | | | | |[]];
      simpl; repeat case_decide; lia. }
  assert (occ_pcs pc_registered x l <= occ_pcs pc_tasks x l).
  { apply occ_pcs_le_tasks. intros pc. destruct pc as [| | | | | | | | | | | | | |[]];
      simpl; repeat case_decide; lia. }
  assert (occ_pcs pc_victim x l <= occ_pcs pc_tasks x l).
  { apply occ_pcs_le_tasks. intros pc. destruct pc as [| | | | | | | | | | | | | |[]];
      simpl; repeat case_decide; lia. }
  assert (occ_pcs pc_pending x l <= occ_pcs pc_tasks x l).
  { apply occ_pcs_le_tasks. intros pc. destruct pc as [| | | | | | | | | | | | | |[]];
      simpl; repeat case_decide; lia. }
  lia.
Qed.

(** *** Events *)

Lemma steal_lock_held_app (h : bool) (a b : list Event) :
  steal_lock_held h (a ++ b) = steal_lock_held (steal_lock_held h a) b.
Proof.
  revert h. induction a as [|e a IH]; intros h; [reflexivity|].
  destruct e as [[]|[]| | | | | | | | |[]|]; simpl; apply IH.
Qed.

Lemma queue_events_lock (h : bool) (evs : list Event) :
  Forall is_pool_event evs -> steal_lock_held h evs = h.
Proof.
  induction 1 as [|e evs He _ IH]; [reflexivity|].
  destruct e as [[]|[]| | | | | | | | |[]|]; simpl in *; try contradiction; exact IH.
Qed.

Lemma queue_events_occ (e : Event) (evs : list Event) :
  Forall is_pool_event evs -> ~ is_pool_event e -> occ e evs = 0.
Proof.
  intros Hq He. apply occ_zero_not_elem_of. intros Hin.
  apply He. exact (proj1 (Forall_forall _ _) Hq e Hin).
Qed.

Lemma discipline_app (tr evs : list Event) (wf : list Task) :
  finalize_discipline tr wf -> (forall x, EvFinalize x ∉ evs) ->
  finalize_discipline (tr ++ evs) wf.
Proof.
  intros Hd Hno pre x post Heq.
  apply app_eq_inv in Heq as [(k & Htr & Hevs)|(k & Hpre & Hevs)].
  - destruct k as [|e k].
    + exfalso. apply (Hno x). simpl in Hevs. rewrite <- Hevs.
      apply elem_of_cons. auto.
    + simpl in Hevs. inversion Hevs; subst.
      apply (Hd pre x k). reflexivity.
  - exfalso. apply (Hno x). rewrite Hevs. apply elem_of_app. right.
    apply elem_of_cons. auto.
Qed.

Lemma discipline_more (tr : list Event) (wf wf' : list Task) :
  finalize_discipline tr wf -> finalize_discipline tr (wf' ++ wf).
Proof.
  intros Hd pre x post Heq. destruct (Hd pre x post Heq) as [[Hz|Hw] Hfree].
  - auto.
  - split; [right; apply elem_of_app; auto | exact Hfree].
Qed.

Lemma discipline_app_finalize (tr : list Event) (wf : list Task) (x : Task) :
  finalize_discipline tr wf ->
  EvRefDec x 0 ∈ tr \/ x ∈ wf -> steal_lock_held false tr = false ->
  finalize_discipline (tr ++ [EvFinalize x]) wf.
Proof.
  intros Hd Hz Hfree pre y post Heq.
  apply app_eq_inv in Heq as [(k & Htr & Hevs)|(k & Hpre & Hevs)].
  - destruct k as [|e k].
    + simpl in Hevs. inversion Hevs; subst. rewrite app_nil_r in Hz, Hfree. auto.
    + simpl in Hevs. inversion Hevs; subst.
      apply (Hd pre y k). reflexivity.
  - destruct k as [|e k]; simpl in Hevs.
    + inversion Hevs; subst. rewrite app_nil_r. auto.
    + inversion Hevs as [[He Hk]]. destruct k; discriminate.
Qed.

(** *** The regions under the queue lock, seen from the system *)

Lemma GetTask_loop_effect (now : Z) (p : ThreadPool) :
  let '(p1, evs, st) := GetTask_loop now p in
  threads_ p1 = threads_ p /\ Forall is_pool_event evs
  /\ match st with
     | GT_Return (Some task) => tasks_ p = task :: tasks_ p1
     | _ => tasks_ p1 = tasks_ p
     end.
Proof.
  destruct (shutting_down_ p) eqn:Hd.
  - rewrite GetTask_loop_shutting_down by assumption.
    repeat split. repeat constructor.
  - destruct (TryGetTaskLocked_cases p) as [(task & rest & Hs & Hq & _)|[Hc _]].
    + rewrite (GetTask_loop_pop now p task rest) by assumption.
      repeat split; [repeat constructor | exact Hq].
    + rewrite GetTask_loop_block by assumption.
      repeat split. destruct (_ && _); repeat constructor.
Qed.

Lemma GetTask_enter_effect (now : Z) (p : ThreadPool) :
  let '(p1, evs, st) := GetTask_enter now p in
  threads_ p1 = threads_ p /\ Forall is_pool_event evs
  /\ match st with
     | GT_Return (Some task) => tasks_ p = task :: tasks_ p1
     | _ => tasks_ p1 = tasks_ p
     end.
Proof.
  unfold GetTask_enter. pose proof (GetTask_loop_effect now p) as H.
  destruct (GetTask_loop now p) as [[p1 evs] st].
  destruct H as (Ht & He & Hq). repeat split; try assumption.
  constructor; [exact I | exact He].
Qed.

Lemma GetTask_resume_effect (wait_start wait_end now : Z) (p : ThreadPool) :
  let '(p1, evs, st) := GetTask_resume wait_start wait_end now p in
  threads_ p1 = threads_ p /\ Forall is_pool_event evs
  /\ match st with
     | GT_Return (Some task) => tasks_ p = task :: tasks_ p1
     | _ => tasks_ p1 = tasks_ p
     end.
Proof.
  unfold GetTask_resume.
  exact (GetTask_loop_effect now (GetTask_wake wait_start wait_end p)).
Qed.

(** *** The invariant is kept by every step *)

Lemma threads_step (threads : list Worker) (l : list StealPc) (i : nat)
    (pc pc1 : StealPc) :
  Forall2 worker_matches threads l -> l !! i = Some pc ->
  pc_task_field pc1 = pc_task_field pc ->
  Forall2 worker_matches threads (<[i := pc1]> l).
Proof.
  intros Hf Hl Heq.
  destruct (Forall2_lookup_r _ _ _ _ _ Hf Hl) as (w & Hw & Hm).
  rewrite <- (list_insert_id threads i w Hw).
  apply Forall2_insert; [assumption|].
  destruct Hm as [n ->]. exists n. rewrite Heq. reflexivity.
Qed.

Lemma threads_step_set (threads : list Worker) (l : list StealPc) (i : nat)
    (pc pc1 : StealPc) :
  Forall2 worker_matches threads l -> l !! i = Some pc ->
  Forall2 worker_matches
    (alter (set_worker_task (pc_task_field pc1)) i threads) (<[i := pc1]> l).
Proof.
  intros Hf Hl. rewrite (list_insert_alter l).
  apply Forall2_alter; [assumption|].
  intros w y _ _ [n ->]. exists n. reflexivity.
Qed.

Lemma threads_all_stealing (threads : list Worker) (l : list StealPc) :
  Forall2 worker_matches threads l -> Forall is_stealing_worker threads.
Proof.
  induction 1 as [|w pc threads l [n ->] _ IH]; constructor; [exact I | exact IH].
Qed.

(** The accounting of task [x] seen from worker [i]: what the invariant
    says with the contribution of the worker's own control state set
    apart. *)
Lemma Inv_task_facts (s : System) (i : nat) (pc : StealPc) (x : Task) :
  Inv s -> pcs s !! i = Some pc ->
  TaskInv s x
  /\ (forall f, occ_pcs f x (pcs s) = occ x (f pc) + occ_pcs f x (delete i (pcs s)))
  /\ (forall f, 0 <= occ_pcs f x (delete i (pcs s)))
  /\ 0 <= occ x (tasks_ (pool (wpool s)))
  /\ (forall e, 0 <= occ e (trace s))
  /\ 0 <= occ_pcs wait_pc_tasks x (callers s)
  /\ 0 <= occ x (wait_finalized s)
  /\ occ_pcs pc_registered x (delete i (pcs s))
     + occ_pcs pc_victim x (delete i (pcs s)) <= 2 ^ 64 - 2.
Proof.
  intros Hinv Hl. split; [apply (inv_task s Hinv)|].
  split; [intros f; apply occ_pcs_lookup; assumption|].
  split; [intros f; apply occ_pcs_nonneg|].
  split; [apply occ_nonneg|]. split; [intros e; apply occ_nonneg|].
  split; [apply occ_pcs_nonneg|]. split; [apply occ_nonneg|].
  pose proof (occ_pcs_held_le_length x (delete i (pcs s))
                (Forall_delete _ _ i (inv_wf s Hinv))) as Hb.
  rewrite length_delete in Hb by (rewrite Hl; eauto).
  pose proof (inv_count s Hinv). apply lookup_lt_Some in Hl. lia.
Qed.

Ltac split_in H Hsplit :=
  try rewrite (Hsplit pc_unregistered) in H;
  try rewrite (Hsplit pc_registered) in H;
  try rewrite (Hsplit pc_victim) in H;
  try rewrite (Hsplit pc_pending) in H.

Ltac task_facts Hinv Hl x :=
  let HT := fresh "HT" in
  let Hsplit := fresh "Hsplit" in
  let Hnn := fresh "Hnn" in
  let Hq := fresh "Hq" in
  let Hev := fresh "Hev" in
  let Hb := fresh "Hb" in
  let Hcl := fresh "Hcl" in
  let Hwf := fresh "Hwf" in
  destruct (Inv_task_facts _ _ _ x Hinv Hl)
    as (HT & Hsplit & Hnn & Hq & Hev & Hcl & Hwf & Hb);
  destruct HT as [HA HB HC HG HH HW];
  split_in HA Hsplit; split_in HB Hsplit; split_in HC Hsplit;
  split_in HG Hsplit; split_in HH Hsplit;
  pose proof (Hnn pc_unregistered); pose proof (Hnn pc_registered);
  pose proof (Hnn pc_victim); pose proof (Hnn pc_pending);
  pose proof (Hev (EvFinalize x)); pose proof (Hev (EvRun x));
  pose proof (Hev (EvRefDec x 0));
  clear Hsplit Hnn Hev.

Ltac task_goal Hl :=
  constructor;
  cbn [wpool ref_count_ pcs callers wait_finalized trace pool set_pool tasks_ set_task_ set_threads];
  rewrite ?(occ_pcs_insert _ _ _ _ _ _ Hl), ?occ_app.

Ltac count_cases :=
  cbn [occ pc_unregistered pc_registered pc_victim pc_pending] in *;
  unfold set_ref_count in *;
  repeat case_decide; simplify_eq;
  rewrite ?size_wrap_small in * by lia; try lia; try congruence.

Ltac no_finalize :=
  let x := fresh "x" in
  let Hin := fresh "Hin" in
  intros x Hin;
  repeat (apply elem_of_cons in Hin as [Hin|Hin]; [discriminate|]);
  inversion Hin.

Ltac inv_frame Hinv Hl :=
  constructor;
  cbn [wpool ref_count_ pcs callers wait_finalized trace pool set_pool threads_ steal_index_
       set_task_ set_threads];
  [ try (apply (threads_step _ _ _ _ _ (inv_threads _ Hinv) Hl); reflexivity)
  | rewrite length_insert; apply (inv_count _ Hinv)
  | try (rewrite length_insert; apply (inv_index _ Hinv))
  | apply Forall_insert; [apply (inv_wf _ Hinv) | try exact I]
  | let x := fresh "x" in
    intros x; task_facts Hinv Hl x; task_goal Hl; count_cases
  | rewrite steal_lock_held_app, (inv_lock_free _ Hinv); try reflexivity
  | try (apply discipline_app;
         [apply (inv_discipline _ Hinv) | solve [no_finalize]]) ].

Lemma Inv_step_Run (s : System) (i : nat) (task : Task) :
  Inv s -> pcs s !! i = Some (SP_Run task) ->
  Inv (mkSystem (wpool s) (ref_count_ s) (<[i := SP_Clear task]> (pcs s)) (callers s) (wait_finalized s)
         (trace s ++ [EvRun task])).
Proof.
  intros Hinv Hl. constructor; cbn [wpool ref_count_ pcs callers wait_finalized trace].
  - apply (threads_step _ _ _ _ _ (inv_threads s Hinv) Hl). reflexivity.
  - rewrite length_insert. apply (inv_count s Hinv).
  - rewrite length_insert. apply (inv_index s Hinv).
  - apply Forall_insert; [apply (inv_wf s Hinv) | exact I].
  - intros x. task_facts Hinv Hl x. task_goal Hl; count_cases.
  - rewrite steal_lock_held_app, (inv_lock_free s Hinv). reflexivity.
  - apply discipline_app; [apply (inv_discipline s Hinv)|].
    intros x Hin. repeat (apply elem_of_cons in Hin as [Hin|Hin]; [discriminate|]).
    inversion Hin.
Qed.

Lemma Inv_step_Clear (s : System) (i : nat) (task : Task) :
  Inv s -> pcs s !! i = Some (SP_Clear task) ->
  Inv (mkSystem (set_pool (set_task_ i None (pool (wpool s))) (wpool s))
         (ref_count_ s) (<[i := SP_StealLoop task]> (pcs s)) (callers s) (wait_finalized s) (trace s ++ [])).
Proof.
  intros Hinv Hl. inv_frame Hinv Hl.
  apply (threads_step_set _ _ _ _ (SP_StealLoop task) (inv_threads s Hinv) Hl).
Qed.

Lemma Inv_step_StealLoop (s : System) (i : nat) (task : Task) (pc1 : StealPc) :
  Inv s -> pcs s !! i = Some (SP_StealLoop task) ->
  pc1 = SP_Find task \/ pc1 = SP_Release task ->
  Inv (mkSystem (wpool s) (ref_count_ s) (<[i := pc1]> (pcs s)) (callers s) (wait_finalized s)
         (trace s ++ [EvLock task_queue_lock_; EvUnlock task_queue_lock_])).
Proof.
  intros Hinv Hl [-> | ->]; inv_frame Hinv Hl.
Qed.

Lemma Inv_step_StealFrom (s : System) (i : nat) (task victim : Task) :
  Inv s -> pcs s !! i = Some (SP_StealFrom task victim) ->
  Inv (mkSystem (wpool s) (ref_count_ s) (<[i := SP_Unref task victim]> (pcs s)) (callers s) (wait_finalized s)
         (trace s ++ [EvStealFrom task victim])).
Proof.
  intros Hinv Hl. inv_frame Hinv Hl.
  exact (proj1 (Forall_lookup _ _) (inv_wf s Hinv) i _ Hl).
Qed.

Lemma Inv_step_Register (s : System) (i : nat) (task : Task) :
  Inv s -> pcs s !! i = Some (SP_Register task) ->
  Inv (mkSystem (set_pool (set_task_ i (Some task) (pool (wpool s))) (wpool s))
         (set_ref_count task (size_wrap (ref_count_ s task + 1)) (ref_count_ s))
         (<[i := SP_Run task]> (pcs s)) (callers s) (wait_finalized s)
         (trace s ++ [EvLock work_steal_lock_;
                      EvRefInc task (size_wrap (ref_count_ s task + 1));
                      EvUnlock work_steal_lock_])).
Proof.
  intros Hinv Hl. inv_frame Hinv Hl.
  apply (threads_step_set _ _ _ _ (SP_Run task) (inv_threads s Hinv) Hl).
Qed.

Lemma Inv_step_Unref (s : System) (i : nat) (task victim : Task) :
  Inv s -> pcs s !! i = Some (SP_Unref task victim) ->
  let v := size_wrap (ref_count_ s victim - 1) in
  Inv (mkSystem (wpool s) (set_ref_count victim v (ref_count_ s))
         (<[i := if v =? 0 then SP_FinalizeVictim task victim
                 else SP_StealLoop task]> (pcs s)) (callers s) (wait_finalized s)
         (trace s ++ [EvLock work_steal_lock_; EvRefDec victim v;
                      EvUnlock work_steal_lock_])).
Proof.
  intros Hinv Hl v. subst v.
  pose proof (proj1 (Forall_lookup _ _) (inv_wf s Hinv) i _ Hl) as Hwf.
  simpl in Hwf.
  destruct (Z.eqb_spec (size_wrap (ref_count_ s victim - 1)) 0) as [Hz|Hnz];
    [rewrite Hz|]; inv_frame Hinv Hl.
  exact Hwf.
Qed.

Lemma pending_was_zeroed (s : System) (i : nat) (pc : StealPc) (x : Task) :
  Inv s -> pcs s !! i = Some pc -> 0 < occ x (pc_pending pc) ->
  EvRefDec x 0 ∈ trace s \/ x ∈ wait_finalized s.
Proof.
  intros Hinv Hl Hp. task_facts Hinv Hl x.
  destruct (decide (0 < occ (EvRefDec x 0) (trace s))) as [Hdec|Hno].
  - left. apply occ_pos_elem_of. exact Hdec.
  - right. apply occ_pos_elem_of. lia.
Qed.

Lemma Inv_step_FinalizeVictim (s : System) (i : nat) (task victim : Task) :
  Inv s -> pcs s !! i = Some (SP_FinalizeVictim task victim) ->
  Inv (mkSystem (wpool s) (ref_count_ s) (<[i := SP_StealLoop task]> (pcs s)) (callers s) (wait_finalized s)
         (trace s ++ [EvFinalize victim])).
Proof.
  intros Hinv Hl. inv_frame Hinv Hl.
  apply discipline_app_finalize;
    [apply (inv_discipline s Hinv) | | apply (inv_lock_free s Hinv)].
  apply (pending_was_zeroed s i _ victim Hinv Hl). simpl.
  rewrite decide_True by reflexivity. lia.
Qed.

Lemma Inv_step_Release (s : System) (i : nat) (task : Task) :
  Inv s -> pcs s !! i = Some (SP_Release task) ->
  let v := size_wrap (ref_count_ s task - 1) in
  Inv (mkSystem (wpool s) (set_ref_count task v (ref_count_ s))
         (<[i := if v =? 0 then SP_FinalizeOwn task else SP_GetTask]> (pcs s)) (callers s) (wait_finalized s)
         (trace s ++ [EvLock work_steal_lock_; EvRefDec task v;
                      EvUnlock work_steal_lock_])).
Proof.
  intros Hinv Hl v. subst v.
  destruct (Z.eqb_spec (size_wrap (ref_count_ s task - 1)) 0) as [Hz|Hnz];
    [rewrite Hz|]; inv_frame Hinv Hl.
Qed.

Lemma Inv_step_FinalizeOwn (s : System) (i : nat) (task : Task) :
  Inv s -> pcs s !! i = Some (SP_FinalizeOwn task) ->
  Inv (mkSystem (wpool s) (ref_count_ s) (<[i := SP_GetTask]> (pcs s)) (callers s) (wait_finalized s)
         (trace s ++ [EvFinalize task])).
Proof.
  intros Hinv Hl. inv_frame Hinv Hl.
  apply discipline_app_finalize;
    [apply (inv_discipline s Hinv) | | apply (inv_lock_free s Hinv)].
  apply (pending_was_zeroed s i _ task Hinv Hl). simpl.
  rewrite decide_True by reflexivity. lia.
Qed.

Lemma Inv_step_stay (s : System) (i : nat) (pc : StealPc) :
  Inv s -> pcs s !! i = Some pc ->
  Inv (mkSystem (wpool s) (ref_count_ s) (<[i := pc]> (pcs s)) (callers s) (wait_finalized s) (trace s ++ [])).
Proof.
  intros Hinv Hl. rewrite (list_insert_id _ _ _ Hl), app_nil_r.
  destruct s. exact Hinv.
Qed.

Ltac queue_occ Hev :=
  rewrite ?(queue_events_occ (EvFinalize _) _ Hev) by (simpl; tauto);
  rewrite ?(queue_events_occ (EvRun _) _ Hev) by (simpl; tauto);
  rewrite ?(queue_events_occ (EvRefDec _ _) _ Hev) by (simpl; tauto).

Lemma queue_events_no_finalize (evs : list Event) :
  Forall is_pool_event evs -> forall x, EvFinalize x ∉ evs.
Proof.
  intros Hev x Hin. exact (proj1 (Forall_forall _ _) Hev _ Hin).
Qed.

Lemma Inv_step_GetTask (s : System) (i : nat) (pc : StealPc) (p1 : ThreadPool)
    (evs : list Event) (st : GetTaskStatus) :
  Inv s -> pcs s !! i = Some pc ->
  pc = SP_GetTask \/ (exists wait_start, pc = SP_InGetTask wait_start) ->
  threads_ p1 = threads_ (pool (wpool s)) ->
  Forall is_pool_event evs ->
  match st with
  | GT_Return (Some task) => tasks_ (pool (wpool s)) = task :: tasks_ p1
  | _ => tasks_ p1 = tasks_ (pool (wpool s))
  end ->
  Inv (mkSystem (set_pool p1 (wpool s)) (ref_count_ s)
         (<[i := GetTask_pc st]> (pcs s)) (callers s) (wait_finalized s) (trace s ++ evs)).
Proof.
  intros Hinv Hl Hpc Hth Hev Hq.
  assert (Hfield : pc_task_field (GetTask_pc st) = pc_task_field pc).
  { destruct Hpc as [->|[ws ->]]; destruct st as [[t|]|ws']; reflexivity. }
  constructor; cbn [wpool ref_count_ pcs callers wait_finalized trace pool set_pool steal_index_].
  - rewrite Hth. apply (threads_step _ _ _ _ _ (inv_threads s Hinv) Hl Hfield).
  - rewrite length_insert. apply (inv_count s Hinv).
  - rewrite length_insert. apply (inv_index s Hinv).
  - apply Forall_insert; [apply (inv_wf s Hinv)|].
    destruct st as [[t|]|ws']; exact I.
  - intros x. task_facts Hinv Hl x. task_goal Hl; queue_occ Hev;
      destruct Hpc as [->|[ws ->]]; destruct st as [[t|]|ws'];
      cbn [GetTask_pc]; rewrite ?Hq in *; count_cases.
  - rewrite steal_lock_held_app, (inv_lock_free s Hinv).
    apply queue_events_lock. assumption.
  - apply discipline_app; [apply (inv_discipline s Hinv)|].
    apply queue_events_no_finalize. assumption.
Qed.

Lemma Inv_step_pool (s : System) (p1 : ThreadPool) (evs : list Event) :
  Inv s ->
  threads_ p1 = threads_ (pool (wpool s)) ->
  tasks_ p1 = tasks_ (pool (wpool s)) ->
  Forall is_pool_event evs ->
  Inv (with_pool (p1, evs) s).
Proof.
  intros Hinv Hth Hq Hev. unfold with_pool. simpl fst. simpl snd.
  constructor; cbn [wpool ref_count_ pcs callers wait_finalized trace pool set_pool steal_index_].
  - rewrite Hth. apply (inv_threads s Hinv).
  - apply (inv_count s Hinv).
  - apply (inv_index s Hinv).
  - apply (inv_wf s Hinv).
  - intros x. destruct (inv_task s Hinv x) as [HA HB HC HG HH HW].
    constructor; cbn [wpool ref_count_ pcs callers wait_finalized trace pool set_pool];
      rewrite ?occ_app, ?Hq; queue_occ Hev; rewrite ?Z.add_0_r; assumption.
  - rewrite steal_lock_held_app, (inv_lock_free s Hinv).
    apply queue_events_lock. assumption.
  - apply discipline_app; [apply (inv_discipline s Hinv)|].
    apply queue_events_no_finalize. assumption.
Qed.

Lemma Inv_step_AddTask (s : System) (task : Task) :
  Inv s -> fresh_task task s = true ->
  Inv (with_pool (AddTask task (pool (wpool s))) s).
Proof.
  intros Hinv Hfresh. unfold fresh_task in Hfresh.
  apply andb_true_iff in Hfresh as [Hfresh Hfin].
  apply andb_true_iff in Hfresh as [Hfresh Hncl].
  apply andb_true_iff in Hfresh as [Hnq Hnpc].
  apply bool_decide_eq_true in Hnq, Hnpc, Hncl, Hfin.
  apply occ_zero_not_elem_of in Hnq, Hncl, Hfin.
  fold (occ_pcs wait_pc_tasks task (callers s)) in Hncl.
  destruct (occ_pcs_fresh task (pcs s) Hnpc) as (HU & HR & HV & HP).
  assert (Hev : Forall is_pool_event (snd (AddTask task (pool (wpool s))))).
  { unfold AddTask. simpl. destruct (negb _); repeat constructor. }
  unfold with_pool.
  constructor; cbn [wpool ref_count_ pcs callers wait_finalized trace pool set_pool steal_index_].
  - apply (inv_threads s Hinv).
  - apply (inv_count s Hinv).
  - apply (inv_index s Hinv).
  - apply (inv_wf s Hinv).
  - intros x. destruct (inv_task s Hinv x) as [HA HB HC HG HH HW].
    pose proof (occ_nonneg x (tasks_ (pool (wpool s)))).
    constructor; cbn [wpool ref_count_ pcs callers wait_finalized trace pool set_pool];
      rewrite ?occ_app; queue_occ Hev; simpl tasks_; rewrite ?occ_app;
      cbn [occ]; repeat case_decide; subst; lia.
  - rewrite steal_lock_held_app, (inv_lock_free s Hinv).
    apply queue_events_lock. assumption.
  - apply discipline_app; [apply (inv_discipline s Hinv)|].
    apply queue_events_no_finalize. assumption.
Qed.

Lemma candidate_task_worker (threads : list Worker) (c m : Z) (v : Task) :
  candidate_task threads c m = Some v ->
  exists j w, threads !! j = Some w /\ worker_task w = Some v.
Proof.
  unfold candidate_task. intros H.
  destruct (threads !! _) as [w|] eqn:Hw; [|discriminate]. eauto.
Qed.

(** A task found in the [task_] of a worker is the registered task of
    another thread than the one that looks for a victim. *)
Lemma victim_is_registered (s : System) (i : nat) (task v : Task) (j : nat)
    (w : Worker) :
  Inv s -> pcs s !! i = Some (SP_Find task) ->
  threads_ (pool (wpool s)) !! j = Some w -> worker_task w = Some v ->
  1 <= occ_pcs pc_registered v (delete i (pcs s)).
Proof.
  intros Hinv Hl Hw Hv.
  destruct (Forall2_lookup_l _ _ _ _ _ (inv_threads s Hinv) Hw) as (pcj & Hj & [n ->]).
  simpl in Hv.
  assert (Hne : i <> j).
  { intros ->. rewrite Hl in Hj. inversion Hj; subst. discriminate. }
  pose proof (occ_pcs_delete_ge_lookup pc_registered v (pcs s) i j pcj Hne Hj) as Hge.
  destruct pcj; simpl in Hv; try discriminate; inversion Hv; subst;
    simpl in Hge; rewrite decide_True in Hge by reflexivity; lia.
Qed.

Lemma Inv_step_Find (s : System) (i : nat) (task : Task) :
  Inv s -> pcs s !! i = Some (SP_Find task) ->
  forall t1 t2 wp1 rc1 pc1 evs,
    worker_step i t1 t2 (SP_Find task) (wpool s) (ref_count_ s)
    = (wp1, rc1, pc1, evs) ->
    Inv (mkSystem wp1 rc1 (<[i := pc1]> (pcs s)) (callers s) (wait_finalized s) (trace s ++ evs)).
Proof.
  intros Hinv Hl t1 t2 wp1 rc1 pc1 evs Hstep.
  pose proof (inv_threads s Hinv) as Hth.
  pose proof (Forall2_length _ _ _ Hth) as Hlen.
  pose proof (inv_count s Hinv) as Hcount.
  pose proof (inv_index s Hinv) as Hidx.
  pose proof (lookup_lt_Some _ _ _ Hl) as Hi.
  destruct (FindTaskToStealFrom_scan (wpool s)) as
    (m & wp' & r & Heq & Hpool & Hm & _ & Hsi & _ & Hcand & _).
  { apply (threads_all_stealing _ _ Hth). }
  { unfold GetThreadCount. rewrite Hlen. exact Hcount. }
  { unfold GetThreadCount. rewrite Hlen. lia. }
  unfold GetThreadCount in Hsi. rewrite Hlen in Hsi.
  cbn [worker_step] in Hstep. rewrite Heq in Hstep.
  destruct wp' as [p' si']. simpl in Hpool, Hsi. subst p'.
  destruct r as [v|].
  - destruct (candidate_task_worker _ _ _ _ Hcand) as (j & w & Hw & Hv).
    pose proof (victim_is_registered s i task v j w Hinv Hl Hw Hv) as Hreg.
    destruct (decide (task = v)) as [->|Hne].
    + exfalso. task_facts Hinv Hl v. count_cases.
    + inversion Hstep; subst; clear Hstep.
      inv_frame Hinv Hl; [rewrite length_insert; lia | exact Hne].
  - inversion Hstep; subst; clear Hstep.
    inv_frame Hinv Hl.
    rewrite length_insert. lia.
Qed.

(** *** The steps of a thread in [ThreadPoolWorker::Run] *)

Lemma Inv_step_GetTask_plain (s : System) (i : nat) (pc0 : WorkerPc)
    (p1 : ThreadPool) (evs : list Event) (st : GetTaskStatus) :
  Inv s -> pcs s !! i = Some (SP_Plain pc0) ->
  pc0 = WP_GetTask \/ (exists wait_start, pc0 = WP_InGetTask wait_start) ->
  threads_ p1 = threads_ (pool (wpool s)) ->
  Forall is_pool_event evs ->
  match st with
  | GT_Return (Some task) => tasks_ (pool (wpool s)) = task :: tasks_ p1
  | _ => tasks_ p1 = tasks_ (pool (wpool s))
  end ->
  Inv (mkSystem (set_pool p1 (wpool s)) (ref_count_ s)
         (<[i := SP_Plain (GetTask_wpc st)]> (pcs s)) (callers s)
         (wait_finalized s) (trace s ++ evs)).
Proof.
  intros Hinv Hl Hpc Hth Hev Hq.
  constructor; cbn [wpool ref_count_ pcs callers wait_finalized trace pool set_pool steal_index_].
  - rewrite Hth. apply (threads_step _ _ _ _ _ (inv_threads s Hinv) Hl). reflexivity.
  - rewrite length_insert. apply (inv_count s Hinv).
  - rewrite length_insert. apply (inv_index s Hinv).
  - apply Forall_insert; [apply (inv_wf s Hinv) | exact I].
  - intros x. task_facts Hinv Hl x. task_goal Hl; queue_occ Hev;
      destruct Hpc as [->|[ws ->]]; destruct st as [[t|]|ws'];
      cbn [GetTask_wpc]; rewrite ?Hq in *; count_cases.
  - rewrite steal_lock_held_app, (inv_lock_free s Hinv).
    apply queue_events_lock. assumption.
  - apply discipline_app; [apply (inv_discipline s Hinv)|].
    apply queue_events_no_finalize. assumption.
Qed.

Lemma Inv_step_Plain (s : System) (i : nat) (t1 t2 : Z) (pc0 : WorkerPc)
    (p1 : ThreadPool) (evs : list Event) (pc1 : WorkerPc) :
  Inv s -> pcs s !! i = Some (SP_Plain pc0) ->
  ThreadPoolWorker_Run_step t1 t2 pc0 (pool (wpool s)) = (p1, evs, pc1) ->
  Inv (mkSystem (set_pool p1 (wpool s)) (ref_count_ s)
         (<[i := SP_Plain pc1]> (pcs s)) (callers s)
         (plain_pc_runs (SP_Plain pc0) ++ wait_finalized s) (trace s ++ evs)).
Proof.
  intros Hinv Hl Hstep.
  destruct pc0; cbn [ThreadPoolWorker_Run_step] in Hstep; cbn [plain_pc_runs app].
  - pose proof (GetTask_enter_effect t1 (pool (wpool s))) as He.
    destruct (GetTask_enter t1 (pool (wpool s))) as [[p2 evs1] st].
    destruct He as (Hth & Hev & Hq). inversion Hstep; subst.
    apply (Inv_step_GetTask_plain s i WP_GetTask); auto.
  - pose proof (GetTask_resume_effect wait_start t1 t2 (pool (wpool s))) as He.
    destruct (GetTask_resume wait_start t1 t2 (pool (wpool s))) as [[p2 evs1] st].
    destruct He as (Hth & Hev & Hq). inversion Hstep; subst.
    apply (Inv_step_GetTask_plain s i (WP_InGetTask wait_start)); eauto.
  - inversion Hstep; subst; clear Hstep.
    destruct (wpool s) as [p0 si] eqn:Hwp.
    assert (Hp : pool (wpool s) = p0) by (rewrite Hwp; reflexivity).
    assert (Hsi : steal_index_ (wpool s) = si) by (rewrite Hwp; reflexivity).
    unfold set_pool. simpl pool. simpl steal_index_. rewrite <- Hwp.
    inv_frame Hinv Hl.
    apply (discipline_more _ _ [task]). apply discipline_app.
    + apply (inv_discipline s Hinv).
    + no_finalize.
  - inversion Hstep; subst; clear Hstep.
    destruct (wpool s) as [p0 si] eqn:Hwp.
    unfold set_pool. simpl pool. simpl steal_index_. rewrite <- Hwp.
    inv_frame Hinv Hl.
    apply discipline_app_finalize;
      [apply (inv_discipline s Hinv) | | apply (inv_lock_free s Hinv)].
    apply (pending_was_zeroed s i _ task Hinv Hl). simpl.
    rewrite decide_True by reflexivity. lia.
  - inversion Hstep; subst; clear Hstep.
    destruct (wpool s) as [p0 si] eqn:Hwp.
    unfold set_pool. simpl pool. simpl steal_index_. rewrite <- Hwp.
    rewrite (list_insert_id _ _ _ Hl), app_nil_r. destruct s. exact Hinv.
Qed.

Lemma Inv_worker_step (s : System) (i : nat) (t1 t2 : Z) (pc : StealPc)
    (wp1 : WorkStealingThreadPool) (rc1 : Task -> Z) (pc1 : StealPc)
    (evs : list Event) :
  Inv s -> pcs s !! i = Some pc ->
  worker_step i t1 t2 pc (wpool s) (ref_count_ s) = (wp1, rc1, pc1, evs) ->
  Inv (mkSystem wp1 rc1 (<[i := pc1]> (pcs s)) (callers s)
         (plain_pc_runs pc ++ wait_finalized s) (trace s ++ evs)).
Proof.
  intros Hinv Hl Hstep. destruct pc; cbn [worker_step] in Hstep;
    cbn [plain_pc_runs app].
  - pose proof (GetTask_enter_effect t1 (pool (wpool s))) as He.
    destruct (GetTask_enter t1 (pool (wpool s))) as [[p1 evs1] st].
    destruct He as (Hth & Hev & Hq). inversion Hstep; subst.
    apply (Inv_step_GetTask s i SP_GetTask); auto.
  - pose proof (GetTask_resume_effect wait_start t1 t2 (pool (wpool s))) as He.
    destruct (GetTask_resume wait_start t1 t2 (pool (wpool s))) as [[p1 evs1] st].
    destruct He as (Hth & Hev & Hq). inversion Hstep; subst.
    apply (Inv_step_GetTask s i (SP_InGetTask wait_start)); eauto.
  - destruct (Forall2_lookup_r _ _ _ _ _ (inv_threads s Hinv) Hl)
      as (w & Hw & [n ->]).
    rewrite Hw in Hstep. simpl in Hstep. inversion Hstep; subst.
    apply Inv_step_Register; assumption.
  - inversion Hstep; subst. apply Inv_step_Run; assumption.
  - inversion Hstep; subst. apply Inv_step_Clear; assumption.
  - unfold GetTaskCount in Hstep. inversion Hstep; subst.
    apply (Inv_step_StealLoop s i stealing_task); [assumption..|].
    destruct (_ =? 0); auto.
  - apply (Inv_step_Find s i stealing_task Hinv Hl t1 t2). exact Hstep.
  - inversion Hstep; subst. apply Inv_step_StealFrom; assumption.
  - inversion Hstep; subst.
    apply (Inv_step_Unref s i stealing_task steal_from_task); assumption.
  - inversion Hstep; subst.
    apply (Inv_step_FinalizeVictim s i stealing_task steal_from_task); assumption.
  - inversion Hstep; subst.
    apply (Inv_step_Release s i stealing_task); assumption.
  - inversion Hstep; subst. apply Inv_step_FinalizeOwn; assumption.
  - inversion Hstep; subst. apply Inv_step_stay; assumption.
  - inversion Hstep; subst. apply Inv_step_stay; assumption.
  - destruct (ThreadPoolWorker_Run_step t1 t2 pc (pool (wpool s)))
      as [[p1 evs1] pc2] eqn:Hw.
    inversion Hstep; subst.
    apply (Inv_step_Plain s i t1 t2 pc); assumption.
Qed.

(** *** The steps of the callers of [Wait] *)

Lemma Inv_caller_facts (s : System) (j : nat) (pc : WaitPc) (x : Task) :
  Inv s -> callers s !! j = Some pc ->
  TaskInv s x
  /\ occ_pcs wait_pc_tasks x (callers s)
     = occ x (wait_pc_tasks pc) + occ_pcs wait_pc_tasks x (delete j (callers s))
  /\ 0 <= occ_pcs wait_pc_tasks x (delete j (callers s))
  /\ (forall f : StealPc -> list Task, 0 <= occ_pcs f x (pcs s))
  /\ 0 <= occ x (tasks_ (pool (wpool s)))
  /\ (forall e, 0 <= occ e (trace s))
  /\ 0 <= occ x (wait_finalized s).
Proof.
  intros Hinv Hl. split; [apply (inv_task s Hinv)|].
  split; [apply occ_pcs_lookup; assumption|].
  split; [apply occ_pcs_nonneg|]. split; [intros f; apply occ_pcs_nonneg|].
  split; [apply occ_nonneg|]. split; [intros e; apply occ_nonneg|].
  apply occ_nonneg.
Qed.

Ltac caller_facts Hinv Hl x :=
  let HT := fresh "HT" in
  let Hsplit := fresh "Hsplit" in
  let Hcl := fresh "Hcl" in
  let Hnn := fresh "Hnn" in
  let Hq := fresh "Hq" in
  let Hev := fresh "Hev" in
  let Hwf := fresh "Hwf" in
  destruct (Inv_caller_facts _ _ _ x Hinv Hl)
    as (HT & Hsplit & Hcl & Hnn & Hq & Hev & Hwf);
  destruct HT as [HA HB HC HG HH HW];
  rewrite Hsplit in HA, HC, HG;
  pose proof (Hnn pc_unregistered); pose proof (Hnn pc_registered);
  pose proof (Hnn pc_victim); pose proof (Hnn pc_pending);
  pose proof (Hev (EvFinalize x)); pose proof (Hev (EvRun x));
  pose proof (Hev (EvRefDec x 0));
  clear Hsplit Hnn Hev.

Ltac caller_cases :=
  cbn [occ wait_pc_tasks wait_pc_finalizes app] in *;
  repeat case_decide; simplify_eq; try lia; try congruence.

Ltac caller_frame Hinv Hl :=
  constructor;
  cbn [wpool ref_count_ pcs callers wait_finalized trace pool set_pool threads_
       steal_index_ set_tasks];
  [ try apply (inv_threads _ Hinv)
  | apply (inv_count _ Hinv)
  | apply (inv_index _ Hinv)
  | apply (inv_wf _ Hinv)
  | let x := fresh "x" in
    intros x; caller_facts Hinv Hl x; task_goal Hl; caller_cases
  | rewrite steal_lock_held_app, (inv_lock_free _ Hinv); try reflexivity
  | try (apply discipline_app;
         [apply (inv_discipline _ Hinv) | solve [no_finalize]]) ].

Lemma Inv_step_call_Wait (s : System) (do_work : bool) :
  Inv s ->
  Inv (mkSystem (wpool s) (ref_count_ s) (pcs s)
         (callers s ++ [Wait_entry do_work]) (wait_finalized s) (trace s)).
Proof.
  intros Hinv.
  constructor; cbn [wpool ref_count_ pcs callers wait_finalized trace];
    try apply Hinv.
  intros x. destruct (inv_task s Hinv x) as [HA HB HC HG HH HW].
  constructor; cbn [wpool ref_count_ pcs callers wait_finalized trace];
    rewrite ?occ_pcs_snoc; cbn [Wait_entry wait_pc_tasks occ];
    rewrite ?Z.add_0_r; assumption.
Qed.

Lemma Inv_step_caller (s : System) (j : nat) (pc : WaitPc) (p1 : ThreadPool)
    (evs : list Event) (pc1 : WaitPc) :
  Inv s -> callers s !! j = Some pc ->
  Wait_step pc (pool (wpool s)) = (p1, evs, pc1) ->
  Inv (mkSystem (set_pool p1 (wpool s)) (ref_count_ s) (pcs s)
         (<[j := pc1]> (callers s)) (wait_pc_finalizes pc ++ wait_finalized s)
         (trace s ++ evs)).
Proof.
  intros Hinv Hl Hstep. destruct pc; cbn [Wait_step] in Hstep.
  - unfold TryGetTask in Hstep.
    destruct (TryGetTaskLocked_cases (pool (wpool s)))
      as [(task & rest & Hs & Hq & Heq)|[Hc Heq]];
      rewrite Heq in Hstep; inversion Hstep; subst; clear Hstep.
    + caller_frame Hinv Hl. all: rewrite ?Hq in *; simpl tasks_; caller_cases.
    + caller_frame Hinv Hl.
  - inversion Hstep; subst; clear Hstep. caller_frame Hinv Hl.
  - inversion Hstep; subst; clear Hstep. caller_frame Hinv Hl.
    apply discipline_app_finalize.
    + apply (discipline_more _ _ [task]). apply (inv_discipline s Hinv).
    + right. apply elem_of_cons. auto.
    + apply (inv_lock_free s Hinv).
  - unfold Wait_completion_loop in Hstep.
    destruct (_ && _); inversion Hstep; subst; clear Hstep; caller_frame Hinv Hl.
  - unfold Wait_completion_loop in Hstep.
    destruct (_ && _); inversion Hstep; subst; clear Hstep; caller_frame Hinv Hl.
  - inversion Hstep; subst; clear Hstep. caller_frame Hinv Hl.
Qed.

(** The step of a worker, when it is defined. *)
Lemma sys_step_worker (i : nat) (t1 t2 : Z) (s s' : System) :
  sys_step (ActWorker i t1 t2) s = Some s' ->
  exists pc wp1 rc1 pc1 evs,
    pcs s !! i = Some pc
    /\ work_steal_lock_destroyed s && takes_work_steal_lock pc = false
    /\ worker_step i t1 t2 pc (wpool s) (ref_count_ s) = (wp1, rc1, pc1, evs)
    /\ s' = mkSystem wp1 rc1 (<[i := pc1]> (pcs s)) (callers s)
              (plain_pc_runs pc ++ wait_finalized s) (trace s ++ evs).
Proof.
  cbn [sys_step]. intros Hstep.
  destruct (pcs s !! i) as [pc|] eqn:Hl; [|discriminate].
  destruct (work_steal_lock_destroyed s && takes_work_steal_lock pc) eqn:Hu;
    [discriminate|].
  destruct (worker_step i t1 t2 pc (wpool s) (ref_count_ s))
    as [[[wp1 rc1] pc1] evs] eqn:Hw.
  inversion Hstep; subst. exists pc, wp1, rc1, pc1, evs. auto.
Qed.

(** The steps of the thread that destroys the pool. *)
Lemma sys_step_shutdown (s s' : System) :
  sys_step ActShutdown s = Some s' ->
  exists p1 evs,
    s' = with_pool (p1, evs) s
    /\ threads_ p1 = threads_ (pool (wpool s))
    /\ tasks_ p1 = tasks_ (pool (wpool s))
    /\ waiting_count_ p1 = waiting_count_ (pool (wpool s))
    /\ Forall is_pool_event evs
    /\ ((work_steal_lock_destroyed s = false
         /\ p1 = pool (wpool s) /\ evs = [EvDestroy work_steal_lock_])
        \/ (work_steal_lock_destroyed s = true
            /\ shutting_down_ (pool (wpool s)) = false
            /\ (p1, evs) = ThreadPool_dtor_locked (pool (wpool s)))
        \/ (work_steal_lock_destroyed s = true
            /\ shutting_down_ (pool (wpool s)) = true
            /\ p1 = pool (wpool s) /\ evs = [EvJoin (joined_workers (trace s))]
            /\ exists pc, pcs s !! joined_workers (trace s) = Some pc
                          /\ pc_exited pc = true)).
Proof.
  cbn [sys_step]. intros Hstep.
  destruct (work_steal_lock_destroyed s) eqn:Hd.
  - destruct (shutting_down_ (pool (wpool s))) eqn:Hs.
    + unfold ThreadPool_dtor_delete in Hstep.
      destruct (pcs s !! joined_workers (trace s)) as [pc|] eqn:Hl; [|discriminate].
      destruct (pc_exited pc) eqn:He; [|discriminate].
      inversion Hstep; subst. eexists _, _. split; [reflexivity|].
      repeat split; try reflexivity; [repeat constructor|].
      right. right. repeat split; auto. exists pc. auto.
    + inversion Hstep; subst. eexists _, _. split; [reflexivity|].
      repeat split; try reflexivity; [repeat constructor | right; left; auto].
  - inversion Hstep; subst. eexists _, _. split; [reflexivity|].
    repeat split; try reflexivity; [repeat constructor | left; auto].
Qed.

Lemma Inv_sys_step (a : Action) (s s' : System) :
  Inv s -> sys_step a s = Some s' -> Inv s'.
Proof.
  intros Hinv Hstep.
  destruct a as [i t1 t2|task|now| | |do_work|j];
    [apply sys_step_worker in Hstep as (pc & wp1 & rc1 & pc1 & evs & Hl & _ & Hw & ->)
    | | | |apply sys_step_shutdown in Hstep
             as (p1 & evs & -> & Hth & Hq & _ & Hev & _)
    | |]; cbn [sys_step] in *.
  - apply (Inv_worker_step s i t1 t2 pc); assumption.
  - destruct (fresh_task task s) eqn:Hfresh; [|discriminate].
    inversion Hstep; subst. apply Inv_step_AddTask; assumption.
  - inversion Hstep; subst. unfold StartWorkers.
    apply Inv_step_pool; try assumption; try reflexivity. repeat constructor.
  - inversion Hstep; subst. unfold StopWorkers.
    apply Inv_step_pool; try assumption; try reflexivity. repeat constructor.
  - apply Inv_step_pool; assumption.
  - inversion Hstep; subst. apply Inv_step_call_Wait. assumption.
  - destruct (callers s !! j) as [pc|] eqn:Hl; [|discriminate].
    destruct (Wait_step pc (pool (wpool s))) as [[p1 evs] pc1] eqn:Hw.
    inversion Hstep; subst. apply (Inv_step_caller s j pc); assumption.
Qed.

Lemma Inv_sys_run (acts : list Action) (s s' : System) :
  Inv s -> sys_run acts s = Some s' -> Inv s'.
Proof.
  revert s. induction acts as [|a acts IH]; intros s Hinv Hrun; simpl in Hrun.
  - inversion Hrun; subst. assumption.
  - destruct (sys_step a s) as [s1|] eqn:Hstep; [|discriminate].
    apply (IH s1); [apply (Inv_sys_step a s)|]; assumption.
Qed.

(** *** The invariant holds after the construction *)

Lemma WorkStealing_add_workers_threads (fuel : nat) (num_threads : Z)
    (p : ThreadPool) (l1 l2 : list StealPc) :
  Forall2 worker_matches (threads_ p) l1 ->
  length l2 = fuel -> Forall (fun pc => pc_task_field pc = None) l2 ->
  num_threads = Z.of_nat (length l1 + fuel) ->
  let p' := WorkStealing_add_workers fuel num_threads p in
  Forall2 worker_matches (threads_ p') (l1 ++ l2)
  /\ tasks_ p' = tasks_ p.
Proof.
  revert p l1 l2. induction fuel as [|fuel IH]; intros p l1 l2 Hth Hlen Hf Hn;
    cbn zeta.
  - destruct l2; [|discriminate]. rewrite app_nil_r. simpl. auto.
  - destruct l2 as [|pc l2]; [discriminate|].
    apply Forall_cons in Hf as [Hpc Hf']. simpl in Hlen.
    cbn [WorkStealing_add_workers].
    pose proof (Forall2_length _ _ _ Hth) as Hl.
    assert (Hlt : (GetThreadCount p <? num_threads) = true).
    { apply Z.ltb_lt. unfold GetThreadCount. lia. }
    rewrite Hlt.
    match goal with
    | |- context [WorkStealing_add_workers _ _ ?q] =>
        destruct (IH q (l1 ++ [pc]) l2) as [H1 H2]
    end.
    + simpl threads_. apply Forall2_app; [assumption|]. constructor; [|constructor].
      eexists. rewrite Hpc. reflexivity.
    + lia.
    + exact Hf'.
    + rewrite length_app. simpl. lia.
    + rewrite <- app_assoc in H1. simpl in H1.
      split; [exact H1 | exact H2].
Qed.

(** The threads right after the construction: each is about to call
    [GetTask], in one of the two loops. *)
Lemma init_pcs_start (plain_run : nat -> bool) (k n : nat) :
  Forall (fun pc => pc = SP_GetTask \/ pc = SP_Plain WP_GetTask)
    (map (fun i => if plain_run i then SP_Plain WP_GetTask else SP_GetTask)
       (seq k n)).
Proof.
  revert k. induction n as [|n IH]; intros k; simpl; constructor.
  - destruct (plain_run k); auto.
  - apply IH.
Qed.

Lemma occ_pcs_start {St} (f : St -> list Task) (x : Task) (l : list St) :
  Forall (fun pc => f pc = []) l -> occ_pcs f x l = 0.
Proof.
  induction 1 as [|pc l Hpc _ IH]; [reflexivity|].
  rewrite occ_pcs_cons, Hpc, IH. reflexivity.
Qed.

Lemma occ_pcs_init (f : StealPc -> list Task) (x : Task)
    (plain_run : nat -> bool) (n : nat) :
  f SP_GetTask = [] -> f (SP_Plain WP_GetTask) = [] ->
  occ_pcs f x
    (map (fun i => if plain_run i then SP_Plain WP_GetTask else SP_GetTask)
       (seq 0 n)) = 0.
Proof.
  intros H1 H2. apply occ_pcs_start.
  eapply Forall_impl; [apply init_pcs_start|].
  intros pc [-> | ->]; assumption.
Qed.

Lemma Inv_init (old_start_time old_total_wait_time num_threads : Z)
    (plain_run : nat -> bool) :
  0 <= num_threads < 2 ^ 64 ->
  Inv (init_system old_start_time old_total_wait_time num_threads plain_run).
Proof.
  intros Hn. unfold init_system, WorkStealingThreadPool_ctor.
  destruct (WorkStealing_add_workers_threads (Z.to_nat num_threads) num_threads
              (ThreadPool_ctor old_start_time old_total_wait_time 0) []
              (map (fun i => if plain_run i then SP_Plain WP_GetTask else SP_GetTask)
                 (seq 0 (Z.to_nat num_threads))))
    as [Hth Hq].
  { constructor. }
  { rewrite length_map, length_seq. reflexivity. }
  { eapply Forall_impl; [apply init_pcs_start|].
    intros pc [-> | ->]; reflexivity. }
  { simpl. lia. }
  simpl in Hth.
  constructor; cbn [wpool ref_count_ pcs callers wait_finalized trace pool steal_index_].
  - exact Hth.
  - rewrite length_map, length_seq. lia.
  - rewrite length_map, length_seq. lia.
  - eapply Forall_impl; [apply init_pcs_start|].
    intros pc [-> | ->]; exact I.
  - intros x. constructor; cbn [wpool ref_count_ pcs callers wait_finalized trace pool];
      rewrite ?Hq, ?occ_pcs_init by reflexivity;
      unfold new_task_ref_count, occ_pcs; simpl; lia.
  - reflexivity.
  - intros pre x post Heq. destruct pre; discriminate.
Qed.

(** *** Finalization *)


(** What one step of [WorkStealingWorker::Run] does about finalization:
    it calls [Finalize] on [x] exactly when it had decided to, and it
    decides to exactly when it has just decremented the [ref_count_] of [x]
    to 0. *)
Ltac mem_solver :=
  rewrite ?elem_of_cons, ?elem_of_nil;
  repeat split; intros;
  repeat match goal with
         | H : _ \/ _ |- _ => destruct H
         | H : False |- _ => destruct H
         end;
  simplify_eq; try congruence; auto 10.


Lemma occ_pcs_idle {St} (idle : St -> bool) (f : St -> list Task) (x : Task)
    (l : list St) :
  (forall pc, idle pc = true -> f pc = []) ->
  forallb idle l = true -> occ_pcs f x l = 0.
Proof.
  intros Hf. induction l as [|pc l IH]; intros Hidle; [reflexivity|].
  simpl in Hidle. apply andb_true_iff in Hidle as [Hpc Hl].
  rewrite occ_pcs_cons, (Hf pc Hpc), (IH Hl). reflexivity.
Qed.




(** * Further properties of the code *)

(** ** The constructors *)

Lemma ThreadPool_add_workers_threads (fuel : nat) (p : ThreadPool) :
  threads_ (ThreadPool_add_workers fuel
              (Z.of_nat (length (threads_ p) + fuel)) p)
  = threads_ p
    ++ map (fun i => ThreadPoolWorker ("Thread pool worker " +:+ pretty (Z.of_nat i)))
         (seq (length (threads_ p)) fuel).
Proof.
  revert p. induction fuel as [|fuel IH]; intros p.
  - simpl. rewrite app_nil_r. reflexivity.
  - cbn [ThreadPool_add_workers].
    assert (Hlt : (GetThreadCount p <? Z.of_nat (length (threads_ p) + S fuel)) = true).
    { apply Z.ltb_lt. unfold GetThreadCount. lia. }
    rewrite Hlt.
    specialize (IH (set_threads
                      (threads_ p
                       ++ [ThreadPoolWorker
                             ("Thread pool worker " +:+ pretty (GetThreadCount p))]) p)).
    simpl threads_ in IH. rewrite length_app in IH. simpl length in IH.
    replace (length (threads_ p) + 1 + fuel)%nat
      with (length (threads_ p) + S fuel)%nat in IH by lia.
    rewrite IH. rewrite <- app_assoc. simpl.
    replace (length (threads_ p) + 1)%nat with (S (length (threads_ p))) by lia.
    reflexivity.
Qed.

(** X1: the constructor of a pool of [num_threads] workers creates exactly
    that many workers, the worker at position [i] being named
    ["Thread pool worker i"], and leaves the queue empty. *)
Theorem ThreadPool_ctor_workers (old_start_time old_total_wait_time num_threads : Z) :
  0 <= num_threads ->
  let p := ThreadPool_ctor old_start_time old_total_wait_time num_threads in
  GetThreadCount p = num_threads
  /\ threads_ p
     = map (fun i => ThreadPoolWorker ("Thread pool worker " +:+ pretty (Z.of_nat i)))
         (seq 0 (Z.to_nat num_threads))
  /\ tasks_ p = [].
Proof.
  intros Hn p. subst p. unfold ThreadPool_ctor.
  pose proof (ThreadPool_add_workers_threads (Z.to_nat num_threads)
                (mkThreadPool [] [] false false 0 old_start_time old_total_wait_time))
    as Hth.
  simpl in Hth. rewrite Z2Nat.id in Hth by lia.
  split; [|split].
  - unfold GetThreadCount. rewrite Hth, length_map, length_seq. lia.
  - exact Hth.
  - apply (ThreadPool_add_workers_fields (Z.to_nat num_threads) num_threads
             (mkThreadPool [] [] false false 0 old_start_time old_total_wait_time)).
Qed.

Lemma ThreadPool_ctor_workers_witness :
  threads_ (ThreadPool_ctor 0 0 2)
  = [ThreadPoolWorker "Thread pool worker 0"; ThreadPoolWorker "Thread pool worker 1"].
Proof.
  destruct (ThreadPool_ctor_workers 0 0 2) as (_ & Hth & _); [lia|].
  rewrite Hth. reflexivity.
Defined.





(** ** Order and dispatch *)

Lemma Wait_steps_add (n m : nat) (pc : WaitPc) (p : ThreadPool) :
  Wait_steps (n + m) pc p
  = let '(p1, evs1, pc1) := Wait_steps n pc p in
    let '(p2, evs2, pc2) := Wait_steps m pc1 p1 in
    (p2, evs1 ++ evs2, pc2).
Proof.
  revert pc p. induction n as [|n IH]; intros pc p; simpl.
  - destruct (Wait_steps m pc p) as [[p2 evs2] pc2]. reflexivity.
  - destruct (Wait_step pc p) as [[p1 evs1] pc1]. rewrite IH.
    destruct (Wait_steps n pc1 p1) as [[p2 evs2] pc2].
    destruct (Wait_steps m pc2 p2) as [[p3 evs3] pc3].
    rewrite app_assoc. reflexivity.
Qed.

Lemma Wait_drains_queue (q : list Task) (p : ThreadPool) :
  started_ p = true -> tasks_ p = q ->
  Wait_steps (3 * length q + 1) Wait_TryGetTask p
  = (set_tasks [] p,
     flat_map drain_events q ++ [EvLock task_queue_lock_; EvUnlock task_queue_lock_],
     Wait_Lock).
Proof.
  revert p. induction q as [|t q IH]; intros p Hs Hq.
  - simpl. unfold TryGetTask.
    rewrite (TryGetTaskLocked_none p) by auto. simpl.
    destruct p; simpl in *; subst; reflexivity.
  - replace (3 * length (t :: q) + 1)%nat with (3 + (3 * length q + 1))%nat
      by (simpl; lia).
    rewrite Wait_steps_add.
    assert (H3 : Wait_steps 3 Wait_TryGetTask p
                 = (set_tasks q p, drain_events t, Wait_TryGetTask)).
    { simpl. unfold TryGetTask.
      rewrite (TryGetTaskLocked_cons p t q Hs Hq). reflexivity. }
    rewrite H3. rewrite (IH (set_tasks q p)) by (simpl; auto).
    simpl. reflexivity.
Qed.

Lemma run_order_drain (q : list Task) (rest : list Event) :
  run_order (flat_map drain_events q ++ rest) = q ++ run_order rest
  /\ finalize_order (flat_map drain_events q ++ rest) = q ++ finalize_order rest.
Proof.
  induction q as [|t q [IH1 IH2]]; [split; reflexivity|].
  split; simpl; unfold run_order, finalize_order in *; simpl;
    [rewrite IH1 | rewrite IH2]; reflexivity.
Qed.

(** X3: a call of [Wait], with either value of [do_work], on a started pool
    on which no other thread acts, takes the queued tasks one after the
    other from the head, runs and finalizes each before it takes the next,
    so the tasks are run and finalized in the order of the queue, and
    reaches its second loop with the queue empty. *)
Theorem Wait_runs_queue_in_order (do_work : bool) (p : ThreadPool) :
  started_ p = true ->
  let r := Wait_steps (3 * length (tasks_ p) + 1) (Wait_entry do_work) p in
  fst (fst r) = set_tasks [] p
  /\ snd r = Wait_Lock
  /\ snd (fst r)
     = flat_map drain_events (tasks_ p)
       ++ [EvLock task_queue_lock_; EvUnlock task_queue_lock_]
  /\ run_order (snd (fst r)) = tasks_ p
  /\ finalize_order (snd (fst r)) = tasks_ p.
Proof.
  intros Hs r. subst r. unfold Wait_entry.
  rewrite (Wait_drains_queue (tasks_ p) p Hs eq_refl). simpl fst. simpl snd.
  destruct (run_order_drain (tasks_ p)
              [EvLock task_queue_lock_; EvUnlock task_queue_lock_]) as [H1 H2].
  rewrite H1, H2. simpl. rewrite !app_nil_r. auto.
Qed.

Lemma Wait_runs_queue_in_order_witness :
  let p := apply_ops [OpAddTask 4%nat; OpAddTask 9%nat; OpStartWorkers 0]
             (ThreadPool_ctor 0 0 0) in
  run_order (snd (fst (Wait_steps 7 (Wait_entry false) p))) = [4; 9]%nat
  /\ tasks_ (fst (fst (Wait_steps 7 (Wait_entry false) p))) = [].
Proof.
  cbv zeta.
  destruct (Wait_runs_queue_in_order false
              (apply_ops [OpAddTask 4%nat; OpAddTask 9%nat; OpStartWorkers 0]
                 (ThreadPool_ctor 0 0 0))) as (Hp & _ & _ & Hrun & _);
    [reflexivity|].
  split; [exact Hrun | exact (f_equal tasks_ Hp)].
Defined.

Lemma TryGetTaskLocked_flags (p : ThreadPool) :
  started_ (fst (TryGetTaskLocked p)) = started_ p
  /\ shutting_down_ (fst (TryGetTaskLocked p)) = shutting_down_ p
  /\ waiting_count_ (fst (TryGetTaskLocked p)) = waiting_count_ p
  /\ threads_ (fst (TryGetTaskLocked p)) = threads_ p.
Proof.
  destruct (TryGetTaskLocked_cases p) as [(task & rest & _ & _ & ->)|[_ ->]];
    repeat split; reflexivity.
Qed.

Lemma GetTask_loop_flags (now : Z) (p : ThreadPool) :
  started_ (fst (fst (GetTask_loop now p))) = started_ p
  /\ shutting_down_ (fst (fst (GetTask_loop now p))) = shutting_down_ p
  /\ threads_ (fst (fst (GetTask_loop now p))) = threads_ p.
Proof.
  destruct (shutting_down_ p) eqn:Hd.
  - rewrite GetTask_loop_shutting_down by assumption. auto.
  - destruct (TryGetTaskLocked_cases p) as [(task & rest & Hs & Hq & _)|[Hc _]].
    + rewrite (GetTask_loop_pop now p task rest) by assumption. auto.
    + rewrite GetTask_loop_block by assumption. auto.
Qed.

Lemma Wait_step_pool (pc : WaitPc) (p : ThreadPool) :
  fst (fst (Wait_step pc p)) = p
  \/ (pc = Wait_TryGetTask /\ fst (fst (Wait_step pc p)) = fst (TryGetTaskLocked p)).
Proof.
  destruct pc; simpl; auto.
  - right. split; [reflexivity|]. unfold TryGetTask.
    destruct (TryGetTaskLocked p) as [p1 [t|]]; reflexivity.
  - left. destruct (Wait_completion_loop p). reflexivity.
  - left. destruct (Wait_completion_loop p). reflexivity.
Qed.

(** What each operation does to the flags. *)
Lemma apply_op_flags (op : PoolOp) (p : ThreadPool) :
  started_ (apply_op op p)
  = match op with
    | OpStartWorkers _ => true
    | OpStopWorkers => false
    | _ => started_ p
    end
  /\ shutting_down_ (apply_op op p)
     = match op with OpShutdown => true | _ => shutting_down_ p end
  /\ threads_ (apply_op op p) = threads_ p.
Proof.
  destruct op; simpl; auto.
  - unfold GetTask_enter. pose proof (GetTask_loop_flags now p) as H.
    destruct (GetTask_loop now p) as [[p1 evs] st]. exact H.
  - unfold GetTask_resume.
    apply (GetTask_loop_flags now (GetTask_wake wait_start wait_end0 p)).
  - unfold TryGetTask. pose proof (TryGetTaskLocked_flags p) as (H1 & H2 & _ & H4).
    destruct (TryGetTaskLocked p) as [p1 r]. auto.
  - destruct (Wait_step_pool pc p) as [->|[_ ->]]; [auto|].
    pose proof (TryGetTaskLocked_flags p) as (H1 & H2 & _ & H4). auto.
Qed.

(** What each operation does to the queue. *)
Lemma apply_op_tasks (op : PoolOp) (p : ThreadPool) :
  (match op with
   | OpAddTask t => tasks_ (apply_op op p) = tasks_ p ++ [t]
   | OpStartWorkers _ | OpStopWorkers | OpGetTaskCount | OpShutdown =>
       tasks_ (apply_op op p) = tasks_ p
   | OpGetTask _ | OpGetTaskWake _ _ _ =>
       tasks_ (apply_op op p) = tasks_ p
       \/ (started_ p = true /\ shutting_down_ p = false
           /\ exists t, tasks_ p = t :: tasks_ (apply_op op p))
   | OpTryGetTask | OpWait _ =>
       tasks_ (apply_op op p) = tasks_ p
       \/ (started_ p = true /\ exists t, tasks_ p = t :: tasks_ (apply_op op p))
   end).
Proof.
  assert (Hloop : forall now q,
            tasks_ (fst (fst (GetTask_loop now q))) = tasks_ q
            \/ (started_ q = true /\ shutting_down_ q = false
                /\ exists t, tasks_ q = t :: tasks_ (fst (fst (GetTask_loop now q))))).
  { intros now q. destruct (shutting_down_ q) eqn:Hd.
    - rewrite GetTask_loop_shutting_down by assumption. auto.
    - destruct (TryGetTaskLocked_cases q) as [(task & rest & Hs & Hq & _)|[Hc _]].
      + rewrite (GetTask_loop_pop now q task rest) by assumption.
        right. simpl. eauto.
      + rewrite GetTask_loop_block by assumption. auto. }
  assert (Htry : forall q,
            tasks_ (fst (TryGetTaskLocked q)) = tasks_ q
            \/ (started_ q = true
                /\ exists t, tasks_ q = t :: tasks_ (fst (TryGetTaskLocked q)))).
  { intros q.
    destruct (TryGetTaskLocked_cases q) as [(task & rest & Hs & Hq & ->)|[_ ->]];
      simpl; eauto. }
  destruct op; simpl; try reflexivity.
  - unfold GetTask_enter. specialize (Hloop now p).
    destruct (GetTask_loop now p) as [[p1 evs] st]. exact Hloop.
  - unfold GetTask_resume.
    apply (Hloop now (GetTask_wake wait_start wait_end0 p)).
  - unfold TryGetTask. specialize (Htry p).
    destruct (TryGetTaskLocked p) as [p1 r]. exact Htry.
  - destruct (Wait_step_pool pc p) as [->|[_ ->]]; [auto | apply Htry].
Qed.

(** X4: every operation on the pool leaves the queue as it is, appends the
    task of [AddTask] at its tail, or removes its head; the head is removed
    only on a started pool, and by [GetTask] only on a pool that is not
    shutting down.  So tasks leave the queue in the order they entered
    it. *)
Theorem queue_changes_at_its_ends (op : PoolOp) (p : ThreadPool) :
  tasks_ (apply_op op p) = tasks_ p
  \/ (exists t, op = OpAddTask t /\ tasks_ (apply_op op p) = tasks_ p ++ [t])
  \/ (exists t,
        tasks_ p = t :: tasks_ (apply_op op p)
        /\ started_ p = true
        /\ (is_GetTask_op op = true -> shutting_down_ p = false)
        /\ forall t', op <> OpAddTask t').
Proof.
  pose proof (apply_op_tasks op p) as H.
  destruct op; simpl in *; auto.
  - right. left. eauto.
  - destruct H as [H|(Hs & Hd & t & Ht)]; [auto|].
    right. right. exists t. repeat split; auto; discriminate.
  - destruct H as [H|(Hs & Hd & t & Ht)]; [auto|].
    right. right. exists t. repeat split; auto; discriminate.
  - destruct H as [H|(Hs & t & Ht)]; [auto|].
    right. right. exists t. repeat split; auto; discriminate.
  - destruct H as [H|(Hs & t & Ht)]; [auto|].
    right. right. exists t. repeat split; auto; discriminate.
Qed.

(** X5: as long as the pool is not started, no operation takes a task
    from the queue: after any sequence of operations without
    [StartWorkers] on a pool that is not started, the pool is still not
    started and the queue is the old queue followed by the tasks added, in
    the order of their [AddTask]. *)
Theorem no_dispatch_before_StartWorkers (ops : list PoolOp) (p : ThreadPool) :
  started_ p = false ->
  forallb (fun op => negb (is_StartWorkers op)) ops = true ->
  started_ (apply_ops ops p) = false
  /\ tasks_ (apply_ops ops p) = tasks_ p ++ added_tasks ops.
Proof.
  revert p. induction ops as [|op ops IH]; intros p Hs Hops.
  - simpl. rewrite app_nil_r. auto.
  - simpl in Hops. apply andb_true_iff in Hops as [Hop Hrest].
    apply negb_true_iff in Hop.
    assert (Hs' : started_ (apply_op op p) = false).
    { destruct (apply_op_flags op p) as [-> _].
      destruct op; try assumption; try reflexivity; discriminate. }
    assert (Hq' : tasks_ (apply_op op p)
                  = tasks_ p ++ added_tasks [op]).
    { pose proof (apply_op_tasks op p) as H. unfold added_tasks.
      destruct op; simpl in *; rewrite ?app_nil_r; try assumption;
        destruct H as [H|H]; try assumption;
        destruct H as [Hst _]; congruence. }
    destruct (IH (apply_op op p) Hs' Hrest) as [IH1 IH2].
    simpl. fold (apply_ops ops (apply_op op p)). split; [exact IH1|].
    rewrite IH2, Hq'. unfold added_tasks. simpl.
    rewrite app_nil_r, <- app_assoc. reflexivity.
Qed.

Lemma no_dispatch_before_StartWorkers_witness :
  let p := fst (StopWorkers (fst (StartWorkers 0 (ThreadPool_ctor 0 0 1)))) in
  tasks_ (apply_ops [OpAddTask 4%nat; OpGetTask 1; OpTryGetTask; OpAddTask 9%nat;
                     OpWait Wait_TryGetTask; OpGetTaskWake 1 2 2] p)
  = [4; 9]%nat.
Proof.
  cbv zeta.
  destruct (no_dispatch_before_StartWorkers
              [OpAddTask 4%nat; OpGetTask 1; OpTryGetTask; OpAddTask 9%nat;
               OpWait Wait_TryGetTask; OpGetTaskWake 1 2 2]
              (fst (StopWorkers (fst (StartWorkers 0 (ThreadPool_ctor 0 0 1))))))
    as [_ Hq]; [reflexivity | reflexivity |].
  rewrite Hq. reflexivity.
Defined.

Lemma queue_changes_at_its_ends_witness :
  let p := mkThreadPool [4; 9]%nat [] true false 0 0 0 in
  tasks_ p = 4%nat :: tasks_ (apply_op OpTryGetTask p).
Proof.
  cbv zeta.
  destruct (queue_changes_at_its_ends OpTryGetTask
              (mkThreadPool [4; 9]%nat [] true false 0 0 0))
    as [H|[(t & H & _)|(t & H & _)]].
  - discriminate H.
  - discriminate H.
  - reflexivity.
Defined.

(** ** Shutdown *)

Lemma apply_ops_shutting_down (ops : list PoolOp) (p : ThreadPool) :
  shutting_down_ p = true -> shutting_down_ (apply_ops ops p) = true.
Proof.
  revert p. induction ops as [|op ops IH]; intros p Hd; [exact Hd|].
  simpl. apply IH. destruct (apply_op_flags op p) as (_ & -> & _).
  destruct op; auto.
Qed.

(** X6: the destructor's shutdown is final.  No operation clears
    [shutting_down_]; from the locked region of the destructor on, every
    pass of the loop of [GetTask] returns none, whatever the other
    operations did in between, also on a started pool with tasks in its
    queue; and the calls and wake-ups of [GetTask] then leave the queue
    untouched, so the tasks still queued are never given to a worker. *)
Theorem shutdown_is_final (ops : list PoolOp) (p : ThreadPool) :
  let p' := apply_ops ops (apply_op OpShutdown p) in
  shutting_down_ p' = true
  /\ (forall now,
        GetTask_enter now p'
        = (p', [EvLock task_queue_lock_; EvUnlock task_queue_lock_],
           GT_Return None))
  /\ (forall wait_start wait_end now,
        snd (GetTask_resume wait_start wait_end now p') = GT_Return None)
  /\ (forall gets,
        forallb is_GetTask_op gets = true ->
        tasks_ (apply_ops gets p') = tasks_ p'
        /\ started_ (apply_ops gets p') = started_ p').
Proof.
  intros p'.
  assert (Hd : shutting_down_ p' = true).
  { subst p'. apply apply_ops_shutting_down. reflexivity. }
  split; [exact Hd|]. split; [|split].
  - intros now. unfold GetTask_enter.
    rewrite GetTask_loop_shutting_down by exact Hd. reflexivity.
  - intros ws we now. unfold GetTask_resume.
    rewrite GetTask_loop_shutting_down by exact Hd. reflexivity.
  - clearbody p'. clear p ops. intros gets. revert p' Hd.
    induction gets as [|op gets IH]; intros q Hd Hg; [auto|].
    simpl in Hg. apply andb_true_iff in Hg as [Hop Hrest].
    assert (Hq : tasks_ (apply_op op q) = tasks_ q /\ started_ (apply_op op q) = started_ q
                 /\ shutting_down_ (apply_op op q) = true).
    { destruct op; try discriminate; simpl.
      - unfold GetTask_enter. rewrite GetTask_loop_shutting_down by exact Hd. auto.
      - unfold GetTask_resume. rewrite GetTask_loop_shutting_down by exact Hd. auto. }
    destruct Hq as (Hq1 & Hq2 & Hq3).
    destruct (IH (apply_op op q) Hq3 Hrest) as [IH1 IH2].
    simpl. fold (apply_ops gets (apply_op op q)). split; congruence.
Qed.

Lemma shutdown_is_final_witness :
  let p := apply_ops [OpAddTask 4%nat; OpStartWorkers 0] (ThreadPool_ctor 0 0 1) in
  let p' := apply_ops [OpAddTask 9%nat] (apply_op OpShutdown p) in
  tasks_ (apply_ops [OpGetTask 1; OpGetTaskWake 1 2 2] p') = [4; 9]%nat.
Proof.
  cbv zeta.
  destruct (shutdown_is_final [OpAddTask 9%nat]
              (apply_ops [OpAddTask 4%nat; OpStartWorkers 0] (ThreadPool_ctor 0 0 1)))
    as (_ & _ & _ & Hq).
  destruct (Hq [OpGetTask 1; OpGetTaskWake 1 2 2] eq_refl) as [-> _].
  reflexivity.
Defined.

(** ** [GetTaskCount] *)

(** X7: for a queue of fewer than [2^64 - 1] tasks, [GetTaskCount] returns
    the length of the queue: 0 exactly on an empty queue, one
    more after [AddTask], and one less after a [TryGetTask] that returns a
    task; on a started pool [TryGetTask] returns a task exactly when the
    count is not 0. *)
Theorem GetTaskCount_counts (p : ThreadPool) :
  Z.of_nat (length (tasks_ p)) < 2 ^ 64 - 1 ->
  snd (GetTaskCount p) = Z.of_nat (length (tasks_ p))
  /\ (snd (GetTaskCount p) = 0 <-> tasks_ p = [])
  /\ (forall t, snd (GetTaskCount (fst (AddTask t p))) = snd (GetTaskCount p) + 1)
  /\ (forall t,
        snd (TryGetTask p) = Some t ->
        snd (GetTaskCount (fst (fst (TryGetTask p)))) = snd (GetTaskCount p) - 1)
  /\ (started_ p = true ->
      (snd (TryGetTask p) <> None <-> snd (GetTaskCount p) <> 0)).
Proof.
  intros Hlen. unfold GetTaskCount. simpl snd.
  rewrite size_wrap_small by lia.
  split; [reflexivity|]. split; [|split; [|split]].
  - destruct (tasks_ p); simpl; split; intros H; try reflexivity;
      try discriminate; lia.
  - intros t. simpl. rewrite length_app. simpl.
    rewrite size_wrap_small by lia. lia.
  - intros t. unfold TryGetTask.
    destruct (TryGetTaskLocked_cases p) as [(task & rest & Hs & Hq & ->)|[Hc ->]];
      simpl; [|discriminate].
    intros _. rewrite Hq in *. simpl in *. rewrite size_wrap_small by lia. lia.
  - intros Hs. unfold TryGetTask.
    destruct (TryGetTaskLocked_cases p) as [(task & rest & _ & Hq & ->)|[Hc ->]];
      simpl.
    + rewrite Hq. simpl. split; intros _; [lia | discriminate].
    + destruct Hc as [Hc|Hc]; [congruence|]. rewrite Hc. simpl.
      split; intros H; contradiction.
Qed.

Lemma GetTaskCount_counts_witness :
  let p := mkThreadPool [4; 9]%nat [] true false 0 0 0 in
  snd (GetTaskCount p) = 2 /\ snd (GetTaskCount (fst (fst (TryGetTask p)))) = 1.
Proof.
  cbv zeta.
  destruct (GetTaskCount_counts (mkThreadPool [4; 9]%nat [] true false 0 0 0))
    as (Hc & _ & _ & Hdec & _); [simpl; lia|].
  split; [exact Hc|]. rewrite (Hdec 4%nat eq_refl), Hc. reflexivity.
Defined.

(** ** More on [FindTaskToStealFrom] *)

Lemma other_worker_is_an_earlier_candidate (threads : list Worker) (c : Z)
    (i : nat) (w : Worker) :
  0 <= c < Z.of_nat (length threads) -> threads !! i = Some w -> Z.of_nat i <> c ->
  exists j, 1 <= j < Z.of_nat (length threads)
            /\ candidate_task threads c j = worker_task w.
Proof.
  intros Hc Hw Hne.
  assert (Hi : 0 <= Z.of_nat i < Z.of_nat (length threads)).
  { apply lookup_lt_Some in Hw. lia. }
  destruct (decide (c < Z.of_nat i)) as [Hlt|Hge].
  - exists (Z.of_nat i - c). split; [lia|].
    unfold candidate_task.
    replace (c + (Z.of_nat i - c)) with (Z.of_nat i) by lia.
    rewrite Z.mod_small, Nat2Z.id, Hw by lia. reflexivity.
  - exists (Z.of_nat i - c + Z.of_nat (length threads)). split; [lia|].
    unfold candidate_task.
    replace (c + (Z.of_nat i - c + Z.of_nat (length threads)))
      with (Z.of_nat i + 1 * Z.of_nat (length threads)) by lia.
    rewrite Z_mod_plus_full, Z.mod_small, Nat2Z.id, Hw by lia. reflexivity.
Qed.

(** X8: a search that finds nothing changes nothing: when no worker
    publishes a task, [FindTaskToStealFrom] returns none and, after a full
    round, leaves [steal_index_] where it was; and whenever it returns
    none, the pool object is as before the call. *)
Theorem FindTaskToStealFrom_none_keeps_cursor (wp : WorkStealingThreadPool) :
  Forall is_stealing_worker (threads_ (pool wp)) ->
  GetThreadCount (pool wp) < 2 ^ 64 ->
  0 <= steal_index_ wp < GetThreadCount (pool wp) ->
  (Forall (fun w => worker_task w = None) (threads_ (pool wp)) ->
   FindTaskToStealFrom wp = Defined_ (wp, None))
  /\ (forall wp', FindTaskToStealFrom wp = Defined_ (wp', None) -> wp' = wp).
Proof.
  intros Hst Hn Hc.
  destruct (FindTaskToStealFrom_scan wp Hst Hn Hc)
    as (m & wp' & r & Heq & Hpool & Hm & Hsi & _ & _ & Hcand & Hnone & Hany).
  assert (Hsame : r = None -> wp' = wp).
  { intros Hr. destruct (Hnone Hr) as [-> _].
    replace (steal_index_ wp + GetThreadCount (pool wp))
      with (steal_index_ wp + 1 * GetThreadCount (pool wp)) in Hsi by lia.
    rewrite Z_mod_plus_full, Z.mod_small in Hsi by lia.
    destruct wp' as [p' si'], wp as [p0 si]. simpl in *. congruence. }
  split.
  - intros Hall. rewrite Heq.
    destruct r as [t|]; [|rewrite (Hsame eq_refl); reflexivity].
    exfalso.
    destruct (candidate_task_worker _ _ _ _ Hcand) as (j & w & Hw & Ht).
    rewrite (Forall_lookup_1 _ _ _ _ Hall Hw) in Ht. discriminate.
  - intros wp0 Heq0. rewrite Heq in Heq0. injection Heq0 as Hwp Hr.
    rewrite <- Hwp. apply Hsame. exact Hr.
Qed.

Lemma FindTaskToStealFrom_none_keeps_cursor_witness :
  let wp :=
    mkWorkStealingThreadPool
      (mkThreadPool [] [WorkStealingWorker "a" None; WorkStealingWorker "b" None]
         true false 0 0 0) 1 in
  FindTaskToStealFrom wp = Defined_ (wp, None).
Proof.
  cbv zeta.
  destruct (FindTaskToStealFrom_none_keeps_cursor
    (mkWorkStealingThreadPool
      (mkThreadPool [] [WorkStealingWorker "a" None; WorkStealingWorker "b" None]
         true false 0 0 0) 1)) as [H _].
  - repeat constructor.
  - vm_compute. reflexivity.
  - vm_compute. split; [discriminate | reflexivity].
  - apply H. repeat constructor.
Defined.

(** X9: the victims rotate.  After a search that ended on some worker, the
    next search on unchanged workers starts behind that worker: when
    another worker publishes a task, the next search finds a task and ends
    on another worker than the search before. *)
Theorem FindTaskToStealFrom_rotates (wp wp1 wp2 : WorkStealingThreadPool)
    (r1 r2 : option Task) (i : nat) (w : Worker) :
  Forall is_stealing_worker (threads_ (pool wp)) ->
  GetThreadCount (pool wp) < 2 ^ 64 ->
  0 <= steal_index_ wp < GetThreadCount (pool wp) ->
  FindTaskToStealFrom wp = Defined_ (wp1, r1) ->
  FindTaskToStealFrom wp1 = Defined_ (wp2, r2) ->
  threads_ (pool wp) !! i = Some w -> worker_task w <> None ->
  Z.of_nat i <> steal_index_ wp1 ->
  r2 <> None /\ steal_index_ wp2 <> steal_index_ wp1
  /\ (exists w2, threads_ (pool wp) !! Z.to_nat (steal_index_ wp2) = Some w2
                 /\ worker_task w2 = r2).
Proof.
  intros Hst Hn Hc Heq1 Heq2 Hw Htask Hne.
  destruct (FindTaskToStealFrom_scan wp Hst Hn Hc)
    as (m1 & wp1' & r1' & Heq1' & Hpool1 & _ & _ & Hsi1 & _).
  rewrite Heq1 in Heq1'. injection Heq1' as Hwp1 Hrr1. subst wp1' r1'.
  assert (Hst1 : Forall is_stealing_worker (threads_ (pool wp1)))
    by (rewrite Hpool1; exact Hst).
  assert (Hn1 : GetThreadCount (pool wp1) < 2 ^ 64) by (rewrite Hpool1; exact Hn).
  assert (Hc1 : 0 <= steal_index_ wp1 < GetThreadCount (pool wp1))
    by (rewrite Hpool1; exact Hsi1).
  destruct (FindTaskToStealFrom_scan wp1 Hst1 Hn1 Hc1)
    as (m2 & wp2' & r2' & Heq2' & Hpool2 & Hm2 & Hsi2 & Hr2 & Hskip & Hcand & _ & Hany).
  rewrite Heq2 in Heq2'. injection Heq2' as Hwp2 Hrr2. subst wp2' r2'.
  rewrite Hpool1 in *.
  assert (Hr2ne : r2 <> None) by (apply (Hany i w Hw Htask)).
  split; [exact Hr2ne|].
  destruct (other_worker_is_an_earlier_candidate (threads_ (pool wp))
              (steal_index_ wp1) i w) as (j & Hj & Hcj); [exact Hsi1 | exact Hw | exact Hne |].
  fold (GetThreadCount (pool wp)) in Hj.
  split.
  - intros Hsame. rewrite Hsame in Hsi2.
    assert (Hmn : m2 = GetThreadCount (pool wp)).
    { destruct (decide (m2 = GetThreadCount (pool wp))) as [|Hlt]; [assumption|].
      exfalso.
      assert (Hmod : (steal_index_ wp1 + m2) mod GetThreadCount (pool wp)
                     = steal_index_ wp1) by congruence.
      destruct (decide (steal_index_ wp1 + m2 < GetThreadCount (pool wp))).
      - rewrite Z.mod_small in Hmod by lia. lia.
      - replace (steal_index_ wp1 + m2)
          with (steal_index_ wp1 + m2 - GetThreadCount (pool wp)
                + 1 * GetThreadCount (pool wp)) in Hmod by lia.
        rewrite Z_mod_plus_full, Z.mod_small in Hmod by lia. lia. }
    rewrite (Hskip j) in Hcj by lia. congruence.
  - unfold candidate_task in Hcand.
    fold (GetThreadCount (pool wp)) in Hcand. rewrite <- Hsi2 in Hcand.
    destruct (threads_ (pool wp) !! Z.to_nat (steal_index_ wp2)) as [w2|] eqn:Hw2.
    + exists w2. auto.
    + congruence.
Qed.

Lemma FindTaskToStealFrom_rotates_witness :
  let wp :=
    mkWorkStealingThreadPool
      (mkThreadPool []
         [WorkStealingWorker "a" (Some 5%nat); WorkStealingWorker "b" None;
          WorkStealingWorker "c" (Some 6%nat)]
         true false 0 0 0) 0 in
  let wp1 := mkWorkStealingThreadPool (pool wp) 2 in
  let wp2 := mkWorkStealingThreadPool (pool wp) 0 in
  FindTaskToStealFrom wp = Defined_ (wp1, Some 6%nat)
  /\ FindTaskToStealFrom wp1 = Defined_ (wp2, Some 5%nat)
  /\ steal_index_ wp2 <> steal_index_ wp1.
Proof.
  cbv zeta. split; [reflexivity|]. split; [reflexivity|].
  destruct (FindTaskToStealFrom_rotates
    (mkWorkStealingThreadPool
      (mkThreadPool []
         [WorkStealingWorker "a" (Some 5%nat); WorkStealingWorker "b" None;
          WorkStealingWorker "c" (Some 6%nat)]
         true false 0 0 0) 0)
    (mkWorkStealingThreadPool
      (mkThreadPool []
         [WorkStealingWorker "a" (Some 5%nat); WorkStealingWorker "b" None;
          WorkStealingWorker "c" (Some 6%nat)]
         true false 0 0 0) 2)
    (mkWorkStealingThreadPool
      (mkThreadPool []
         [WorkStealingWorker "a" (Some 5%nat); WorkStealingWorker "b" None;
          WorkStealingWorker "c" (Some 6%nat)]
         true false 0 0 0) 0)
    (Some 6%nat) (Some 5%nat) 0%nat (WorkStealingWorker "a" (Some 5%nat)))
    as (_ & H & _);
    [ repeat constructor
    | vm_compute; reflexivity
    | vm_compute; split; [discriminate | reflexivity]
    | reflexivity | reflexivity | reflexivity
    | discriminate
    | vm_compute; discriminate
    | exact H ].
Defined.

(** ** The work-stealing pool in every reachable state *)

Lemma reachable_Inv (old_start_time old_total_wait_time num_threads : Z)
    (plain_run : nat -> bool) (acts : list Action) (s : System) :
  0 <= num_threads < 2 ^ 64 ->
  sys_run acts (init_system old_start_time old_total_wait_time num_threads plain_run)
  = Some s ->
  Inv s.
Proof.
  intros Hn Hrun.
  exact (Inv_sys_run acts _ s
           (Inv_init old_start_time old_total_wait_time num_threads plain_run Hn) Hrun).
Qed.

Lemma sys_step_length (a : Action) (s s' : System) :
  sys_step a s = Some s' -> length (pcs s') = length (pcs s).
Proof.
  intros Hstep. destruct a;
    [apply sys_step_worker in Hstep as (pc & wp1 & rc1 & pc1 & evs & Hl & _ & Hw & ->)
    | | | |apply sys_step_shutdown in Hstep as (p1 & evs & -> & _)
    | |]; cbn [sys_step] in *.
  - simpl. apply length_insert.
  - destruct (fresh_task task s); inversion Hstep; reflexivity.
  - inversion Hstep; reflexivity.
  - inversion Hstep; reflexivity.
  - reflexivity.
  - inversion Hstep; reflexivity.
  - destruct (callers s !! j) as [pc|]; [|discriminate].
    destruct (Wait_step pc (pool (wpool s))) as [[p1 evs] pc1].
    inversion Hstep; reflexivity.
Qed.

Lemma sys_run_length (acts : list Action) (s s' : System) :
  sys_run acts s = Some s' -> length (pcs s') = length (pcs s).
Proof.
  revert s. induction acts as [|a acts IH]; intros s Hrun; simpl in Hrun.
  - inversion Hrun; reflexivity.
  - destruct (sys_step a s) as [s1|] eqn:Hstep; [|discriminate].
    rewrite (IH s1 Hrun). apply (sys_step_length a). exact Hstep.
Qed.

(** X10: in every state that a work-stealing pool reaches before its
    destruction begins (the members of the derived class are not yet
    destroyed), [threads_] still holds the [num_threads] stealing workers
    of the construction, [steal_index_] is a position of [threads_] (or 0
    when there is no worker), and [FindTaskToStealFrom] stays inside
    [threads_]: it does not read beyond its bounds and does not cast a
    worker of the wrong class. *)
Theorem steal_index_stays_in_bounds
    (old_start_time old_total_wait_time num_threads : Z)
    (plain_run : nat -> bool) (acts : list Action) (s : System) :
  0 <= num_threads < 2 ^ 64 ->
  sys_run acts (init_system old_start_time old_total_wait_time num_threads plain_run)
  = Some s ->
  work_steal_lock_destroyed s = false ->
  GetThreadCount (pool (wpool s)) = num_threads
  /\ Forall is_stealing_worker (threads_ (pool (wpool s)))
  /\ 0 <= steal_index_ (wpool s)
  /\ (0 < num_threads -> steal_index_ (wpool s) < num_threads)
  /\ (num_threads = 0 -> steal_index_ (wpool s) = 0)
  /\ FindTaskToStealFrom (wpool s) <> Undefined.
Proof.
  intros Hn Hrun _.
  pose proof (reachable_Inv _ _ _ _ _ _ Hn Hrun) as Hinv.
  pose proof (sys_run_length _ _ _ Hrun) as Hlen.
  simpl in Hlen. rewrite length_map, length_seq in Hlen.
  pose proof (Forall2_length _ _ _ (inv_threads s Hinv)) as Hth.
  pose proof (inv_index s Hinv) as [Hi0 Hi].
  assert (Hcount : GetThreadCount (pool (wpool s)) = num_threads).
  { unfold GetThreadCount. rewrite Hth, Hlen. lia. }
  pose proof (threads_all_stealing _ _ (inv_threads s Hinv)) as Hst.
  rewrite Hlen in Hi. rewrite Z2Nat.id in Hi by lia.
  split; [exact Hcount|]. split; [exact Hst|]. split; [exact Hi0|].
  split; [lia|]. split; [lia|].
  destruct (decide (num_threads = 0)) as [Hz|Hnz].
  - rewrite FindTaskToStealFrom_no_workers; [discriminate|].
    apply length_zero_iff_nil. unfold GetThreadCount in Hcount. lia.
  - destruct (FindTaskToStealFrom_scan (wpool s)) as (m & wp' & r & -> & _);
      [exact Hst | lia | lia | discriminate].
Qed.

Lemma steal_index_stays_in_bounds_witness :
  exists s,
    sys_run [ActAddTask 1%nat; ActStartWorkers 0; ActWorker 0 1 1; ActWorker 0 0 0;
             ActWorker 0 0 0; ActWorker 0 0 0; ActWorker 0 0 0; ActWorker 0 0 0]
      (init_system 0 0 2 (fun _ => false)) = Some s
    /\ steal_index_ (wpool s) = 0
    /\ FindTaskToStealFrom (wpool s) <> Undefined.
Proof.
  eexists. split; [vm_compute; reflexivity|]. split; [reflexivity|].
  match goal with
  | |- FindTaskToStealFrom (wpool ?s) <> _ =>
      apply (steal_index_stays_in_bounds 0 0 2 (fun _ => false)
               [ActAddTask 1%nat; ActStartWorkers 0; ActWorker 0 1 1; ActWorker 0 0 0;
                ActWorker 0 0 0; ActWorker 0 0 0; ActWorker 0 0 0; ActWorker 0 0 0] s)
  end.
  - lia.
  - vm_compute. reflexivity.
  - vm_compute. reflexivity.
Defined.

Lemma occ_pcs_two {St} (f : St -> list Task) (x : Task) (l : list St)
    (i j : nat) (a b : St) :
  i <> j -> l !! i = Some a -> l !! j = Some b ->
  occ x (f a) + occ x (f b) <= occ_pcs f x l.
Proof.
  intros Hne Ha Hb. rewrite (occ_pcs_lookup f x l i a Ha).
  pose proof (occ_pcs_delete_ge_lookup f x l i j b Hne Hb). lia.
Qed.

Lemma task_field_registered (pc : StealPc) (t : Task) :
  pc_task_field pc = Some t <-> pc = SP_Run t \/ pc = SP_Clear t.
Proof.
  destruct pc; simpl; split; intros H; try discriminate;
    try (destruct H as [H|H]; discriminate);
    try (inversion H; subst; auto);
    destruct H as [H|H]; inversion H; reflexivity.
Qed.

(** X11: in every reachable state the field [task_] of a worker is set
    exactly while its thread is between the registration of its task and
    the store [task_ = NULL] after [Run]; no two workers publish the same
    task; and a published task is neither in the queue, nor finalized, nor
    about to be. *)
Theorem task_published_only_while_running
    (old_start_time old_total_wait_time num_threads : Z)
    (plain_run : nat -> bool) (acts : list Action) (s : System) :
  0 <= num_threads < 2 ^ 64 ->
  sys_run acts (init_system old_start_time old_total_wait_time num_threads plain_run)
  = Some s ->
  (forall i w t,
     threads_ (pool (wpool s)) !! i = Some w ->
     (worker_task w = Some t
      <-> pcs s !! i = Some (SP_Run t) \/ pcs s !! i = Some (SP_Clear t)))
  /\ (forall i j wi wj t,
        threads_ (pool (wpool s)) !! i = Some wi ->
        threads_ (pool (wpool s)) !! j = Some wj ->
        worker_task wi = Some t -> worker_task wj = Some t -> i = j)
  /\ (forall i w t,
        threads_ (pool (wpool s)) !! i = Some w -> worker_task w = Some t ->
        (t ∉ tasks_ (pool (wpool s)))
        /\ (EvFinalize t ∉ trace s)
        /\ occ_pcs pc_pending t (pcs s) = 0
        /\ 1 <= ref_count_ s t).
Proof.
  intros Hn Hrun.
  pose proof (reachable_Inv _ _ _ _ _ _ Hn Hrun) as Hinv.
  assert (Hfield : forall i w t,
             threads_ (pool (wpool s)) !! i = Some w -> worker_task w = Some t ->
             exists pc, pcs s !! i = Some pc /\ (pc = SP_Run t \/ pc = SP_Clear t)).
  { intros i w t Hw Ht.
    destruct (Forall2_lookup_l _ _ _ _ _ (inv_threads s Hinv) Hw) as (pc & Hpc & [n ->]).
    simpl in Ht. exists pc. split; [exact Hpc|]. apply task_field_registered. exact Ht. }
  assert (Hreg : forall i w t,
             threads_ (pool (wpool s)) !! i = Some w -> worker_task w = Some t ->
             exists pc, pcs s !! i = Some pc /\ occ t (pc_registered pc) = 1).
  { intros i w t Hw Ht. destruct (Hfield i w t Hw Ht) as (pc & Hpc & [->| ->]);
      eexists; (split; [exact Hpc|]); simpl; rewrite decide_True by reflexivity; lia. }
  split; [|split].
  - intros i w t Hw. split.
    + intros Ht. destruct (Hfield i w t Hw Ht) as (pc & Hpc & [->| ->]); auto.
    + intros Hpc.
      destruct (Forall2_lookup_l _ _ _ _ _ (inv_threads s Hinv) Hw)
        as (pc & Hpc' & [n ->]).
      simpl. apply task_field_registered.
      destruct Hpc as [Hpc|Hpc]; rewrite Hpc in Hpc'; inversion Hpc'; auto.
  - intros i j wi wj t Hwi Hwj Hti Htj.
    destruct (decide (i = j)) as [|Hne]; [assumption|exfalso].
    destruct (Hreg i wi t Hwi Hti) as (a & Ha & Hoa).
    destruct (Hreg j wj t Hwj Htj) as (b & Hb & Hob).
    pose proof (occ_pcs_two pc_registered t (pcs s) i j a b Hne Ha Hb).
    destruct (inv_task s Hinv t) as [HA _ _ _ _ _].
    pose proof (occ_nonneg t (tasks_ (pool (wpool s)))).
    pose proof (occ_pcs_nonneg pc_unregistered t (pcs s)).
    pose proof (occ_pcs_nonneg pc_pending t (pcs s)).
    pose proof (occ_pcs_nonneg wait_pc_tasks t (callers s)).
    pose proof (occ_nonneg (EvFinalize t) (trace s)). lia.
  - intros i w t Hw Ht.
    destruct (Hreg i w t Hw Ht) as (a & Ha & Hoa).
    pose proof (occ_pcs_ge_lookup pc_registered t (pcs s) i a Ha).
    destruct (inv_task s Hinv t) as [HA HB HC _ _ _].
    pose proof (occ_nonneg t (tasks_ (pool (wpool s)))).
    pose proof (occ_pcs_nonneg pc_unregistered t (pcs s)).
    pose proof (occ_pcs_nonneg pc_victim t (pcs s)).
    pose proof (occ_pcs_nonneg pc_pending t (pcs s)).
    pose proof (occ_pcs_nonneg wait_pc_tasks t (callers s)).
    pose proof (occ_nonneg (EvFinalize t) (trace s)).
    split; [apply occ_zero_not_elem_of; lia|].
    split; [apply occ_zero_not_elem_of; lia|]. lia.
Qed.

Lemma task_published_only_while_running_witness :
  exists s,
    sys_run [ActAddTask 1%nat; ActStartWorkers 0; ActWorker 0 1 1; ActWorker 0 0 0]
      (init_system 0 0 2 (fun _ => false)) = Some s
    /\ pcs s !! 0%nat = Some (SP_Run 1%nat)
    /\ 1 <= ref_count_ s 1%nat.
Proof.
  eexists. split; [vm_compute; reflexivity|]. split; [reflexivity|].
  match goal with
  | |- 1 <= ref_count_ ?s _ =>
      destruct (task_published_only_while_running 0 0 2 (fun _ => false)
        [ActAddTask 1%nat; ActStartWorkers 0; ActWorker 0 1 1; ActWorker 0 0 0] s)
        as (_ & _ & Hpub)
  end.
  - lia.
  - vm_compute. reflexivity.
  - destruct (Hpub 0%nat (WorkStealingWorker "Work stealing worker 0" (Some 1%nat)) 1%nat)
      as (_ & _ & _ & Href); [reflexivity | reflexivity | exact Href].
Defined.

(** X12: in every reachable state the [ref_count_] of a task is the number
    of threads that hold it: the workers that registered it as their own
    task and have not released it, plus the workers that steal from it.
    The count never wraps, it is at most the number of workers, and it is 0
    for a task that is in the queue and for a task that was finalized: no
    thread holds a reference to a finalized task. *)
Theorem ref_count_counts_holders
    (old_start_time old_total_wait_time num_threads : Z)
    (plain_run : nat -> bool) (acts : list Action) (s : System) (x : Task) :
  0 <= num_threads < 2 ^ 64 ->
  sys_run acts (init_system old_start_time old_total_wait_time num_threads plain_run)
  = Some s ->
  ref_count_ s x = occ_pcs pc_registered x (pcs s) + occ_pcs pc_victim x (pcs s)
  /\ 0 <= ref_count_ s x <= num_threads
  /\ (x ∈ tasks_ (pool (wpool s)) -> ref_count_ s x = 0)
  /\ (EvFinalize x ∈ trace s -> ref_count_ s x = 0)
  /\ (forall i pc, pcs s !! i = Some pc -> x ∈ pc_victim pc ->
      (EvFinalize x ∉ trace s) /\ 1 <= ref_count_ s x).
Proof.
  intros Hn Hrun.
  pose proof (reachable_Inv _ _ _ _ _ _ Hn Hrun) as Hinv.
  pose proof (sys_run_length _ _ _ Hrun) as Hlen.
  simpl in Hlen. rewrite length_map, length_seq in Hlen.
  destruct (inv_task s Hinv x) as [HA HB HC _ _ _].
  pose proof (occ_pcs_held_le_length x (pcs s) (inv_wf s Hinv)) as Hb.
  pose proof (occ_nonneg x (tasks_ (pool (wpool s)))).
  pose proof (occ_pcs_nonneg pc_unregistered x (pcs s)).
  pose proof (occ_pcs_nonneg pc_registered x (pcs s)).
  pose proof (occ_pcs_nonneg pc_victim x (pcs s)).
  pose proof (occ_pcs_nonneg pc_pending x (pcs s)).
  pose proof (occ_pcs_nonneg wait_pc_tasks x (callers s)).
  pose proof (occ_nonneg (EvFinalize x) (trace s)).
  split; [exact HB|]. split; [lia|]. split; [|split].
  - intros Hin. apply occ_pos_elem_of in Hin. lia.
  - intros Hin. apply occ_pos_elem_of in Hin. lia.
  - intros i pc Hl Hin. apply occ_pos_elem_of in Hin.
    pose proof (occ_pcs_ge_lookup pc_victim x (pcs s) i pc Hl).
    split; [apply occ_zero_not_elem_of|]; lia.
Qed.

Lemma ref_count_counts_holders_witness :
  exists s,
    sys_run [ActAddTask 1%nat; ActAddTask 2%nat; ActStartWorkers 0;
             ActWorker 0 1 1; ActWorker 1 1 1; ActWorker 0 0 0; ActWorker 1 0 0;
             ActWorker 0 0 0; ActWorker 0 0 0; ActWorker 0 0 0; ActWorker 0 0 0]
      (init_system 0 0 2 (fun _ => false)) = Some s
    /\ pcs s = [SP_StealFrom 1%nat 2%nat; SP_Run 2%nat]
    /\ ref_count_ s 2%nat = 2.
Proof.
  eexists. split; [vm_compute; reflexivity|]. split; [reflexivity|].
  match goal with
  | |- ref_count_ ?s _ = _ =>
      destruct (ref_count_counts_holders 0 0 2 (fun _ => false)
        [ActAddTask 1%nat; ActAddTask 2%nat; ActStartWorkers 0;
         ActWorker 0 1 1; ActWorker 1 1 1; ActWorker 0 0 0; ActWorker 1 0 0;
         ActWorker 0 0 0; ActWorker 0 0 0; ActWorker 0 0 0; ActWorker 0 0 0] s 2%nat)
        as (Href & _)
  end.
  - lia.
  - vm_compute. reflexivity.
  - rewrite Href. reflexivity.
Defined.

(** ** The waiting count *)

Lemma waiting_workers_insert (l : list StealPc) (i : nat) (pc pc1 : StealPc) :
  l !! i = Some pc ->
  waiting_workers (<[i := pc1]> l)
  = waiting_workers l - (if pc_waiting pc then 1 else 0)
    + (if pc_waiting pc1 then 1 else 0).
Proof.
  revert i. induction l as [|a l IH]; intros i Hl; [discriminate|].
  destruct i as [|i]; simpl in *.
  - inversion Hl; subst. lia.
  - rewrite (IH i Hl). lia.
Qed.

Lemma waiting_workers_lookup (l : list StealPc) (i : nat) (pc : StealPc) :
  l !! i = Some pc ->
  (if pc_waiting pc then 1 else 0) <= waiting_workers l
  /\ waiting_workers l
     <= Z.of_nat (length l) - 1 + (if pc_waiting pc then 1 else 0).
Proof.
  revert i. induction l as [|a l IH]; intros i Hl; [discriminate|].
  destruct i as [|i]; simpl in Hl.
  - inversion Hl; subst. clear IH Hl. cbn [waiting_workers length].
    assert (0 <= waiting_workers l <= Z.of_nat (length l)) as Hb.
    { clear. induction l as [|a l IH]; simpl; [lia|].
      destruct (pc_waiting a); lia. }
    lia.
  - destruct (IH i Hl) as [H1 H2]. cbn [waiting_workers length].
    destruct (pc_waiting a); lia.
Qed.

Lemma waiting_workers_bounds (l : list StealPc) :
  0 <= waiting_workers l <= Z.of_nat (length l).
Proof.
  induction l as [|a l IH]; simpl; [lia|]. destruct (pc_waiting a); lia.
Qed.

Lemma waiting_workers_all (l : list StealPc) :
  waiting_workers l = Z.of_nat (length l) ->
  Forall (fun pc => pc_waiting pc = true) l.
Proof.
  induction l as [|a l IH]; intros H; constructor.
  - pose proof (waiting_workers_bounds l). cbn [waiting_workers length] in H.
    destruct (pc_waiting a); [reflexivity | lia].
  - apply IH. pose proof (waiting_workers_bounds l).
    cbn [waiting_workers length] in H. destruct (pc_waiting a); lia.
Qed.

Lemma waiting_workers_pos (l : list StealPc) :
  0 < waiting_workers l
  <-> exists i pc, l !! i = Some pc /\ pc_waiting pc = true.
Proof.
  induction l as [|a l IH]; simpl.
  - split; [lia|]. intros (i & pc & H & _). discriminate.
  - pose proof (waiting_workers_bounds l). split.
    + intros Hp. destruct (pc_waiting a) eqn:Ha.
      * exists 0%nat, a. auto.
      * assert (Hl : 0 < waiting_workers l) by lia.
        apply IH in Hl as (i & pc & Hl & Hpc). exists (S i), pc. auto.
    + intros (i & pc & Hl & Hpc). destruct i as [|i]; simpl in Hl.
      * inversion Hl; subst. rewrite Hpc. lia.
      * assert (0 < waiting_workers l) by (apply IH; eauto).
        destruct (pc_waiting a); lia.
Qed.

(** The blocked threads are those in the wait of [GetTask], in either
    loop. *)
Lemma pc_waiting_states (pc : StealPc) :
  pc_waiting pc = true
  <-> exists wait_start,
        pc = SP_InGetTask wait_start \/ pc = SP_Plain (WP_InGetTask wait_start).
Proof.
  split.
  - destruct pc as [| | | | | | | | | | | | | |[]]; simpl; try discriminate;
      intros _; eexists; eauto.
  - intros (ws & [-> | ->]); reflexivity.
Qed.

(** What one pass of the loop of [GetTask] does to the waiting count. *)
Lemma GetTask_loop_waiting (now : Z) (p : ThreadPool) :
  let '(p1, evs, st) := GetTask_loop now p in
  shutting_down_ p1 = shutting_down_ p
  /\ waiting_count_ p1
     = (if pc_waiting (GetTask_pc st) then size_wrap (waiting_count_ p + 1)
        else waiting_count_ p)
  /\ (GetTask_pc st = SP_Exit -> shutting_down_ p = true).
Proof.
  destruct (shutting_down_ p) eqn:Hd.
  - rewrite GetTask_loop_shutting_down by assumption. simpl. auto.
  - destruct (TryGetTaskLocked_cases p) as [(task & rest & Hs & Hq & _)|[Hc _]].
    + rewrite (GetTask_loop_pop now p task rest) by assumption. simpl.
      repeat split; auto; discriminate.
    + rewrite GetTask_loop_block by assumption. simpl.
      repeat split; auto; discriminate.
Qed.

Lemma FindTaskToStealFrom_pool (wp wp1 : WorkStealingThreadPool) (r : option Task) :
  FindTaskToStealFrom wp = Defined_ (wp1, r) -> pool wp1 = pool wp.
Proof.
  unfold FindTaskToStealFrom.
  destruct (FindTaskToStealFrom_loop _ _ _ _) as [[si r']|]; [|discriminate].
  intros H. inversion H; subst. reflexivity.
Qed.

Lemma GetTask_loop_pool_waiting (now : Z) (p : ThreadPool) :
  let '(p1, evs, st) := GetTask_loop now p in
  shutting_down_ p1 = shutting_down_ p
  /\ threads_ p1 = threads_ p
  /\ waiting_count_ p1
     = (if wpc_waiting (GetTask_wpc st) then size_wrap (waiting_count_ p + 1)
        else waiting_count_ p)
  /\ (GetTask_wpc st = WP_Exit -> shutting_down_ p = true).
Proof.
  pose proof (GetTask_loop_waiting now p) as H.
  pose proof (GetTask_loop_flags now p) as (_ & _ & Hth).
  destruct (GetTask_loop now p) as [[p1 evs] st]. simpl in Hth.
  destruct H as (H1 & H2 & H3).
  destruct st as [[t|]|ws]; simpl in *; repeat split; auto; discriminate.
Qed.

Lemma ThreadPoolWorker_Run_step_flags (t1 t2 : Z) (pc : WorkerPc) (p : ThreadPool) :
  let '(p1, _, pc1) := ThreadPoolWorker_Run_step t1 t2 pc p in
  shutting_down_ p1 = shutting_down_ p
  /\ threads_ p1 = threads_ p
  /\ waiting_count_ p1
     = (let c := if wpc_waiting pc then size_wrap (waiting_count_ p - 1)
                 else waiting_count_ p in
        if wpc_waiting pc1 then size_wrap (c + 1) else c)
  /\ (pc1 = WP_Exit -> pc = WP_Exit \/ shutting_down_ p = true).
Proof.
  destruct pc; cbn [ThreadPoolWorker_Run_step wpc_waiting].
  - unfold GetTask_enter. pose proof (GetTask_loop_pool_waiting t1 p) as H.
    destruct (GetTask_loop t1 p) as [[p1 evs] st]. simpl.
    destruct H as (H1 & H2 & H3 & H4). repeat split; auto.
  - unfold GetTask_resume.
    pose proof (GetTask_loop_pool_waiting t2 (GetTask_wake wait_start t1 p)) as H.
    destruct (GetTask_loop t2 _) as [[p1 evs] st]. simpl.
    destruct H as (H1 & H2 & H3 & H4). repeat split; auto.
  - simpl. repeat split; auto; discriminate.
  - simpl. repeat split; auto; discriminate.
  - simpl. auto.
Qed.

(** What a step of a worker does to the flags of the queue. *)
Lemma worker_step_waiting (i : nat) (t1 t2 : Z) (pc : StealPc)
    (wp : WorkStealingThreadPool) (rc : Task -> Z) :
  let '(wp1, _, pc1, _) := worker_step i t1 t2 pc wp rc in
  shutting_down_ (pool wp1) = shutting_down_ (pool wp)
  /\ waiting_count_ (pool wp1)
     = (let c := if pc_waiting pc then size_wrap (waiting_count_ (pool wp) - 1)
                 else waiting_count_ (pool wp) in
        if pc_waiting pc1 then size_wrap (c + 1) else c)
  /\ (pc1 = SP_Exit \/ pc1 = SP_Plain WP_Exit ->
      (pc = SP_Exit \/ pc = SP_Plain WP_Exit) \/ shutting_down_ (pool wp) = true).
Proof.
  assert (forall st, GetTask_pc st <> SP_Plain WP_Exit) as Hne
    by (intros [[t|]|ws]; discriminate).
  destruct pc as [| | | | | | | | | | | | | |pc0]; cbn [worker_step pc_waiting].
  - unfold GetTask_enter. pose proof (GetTask_loop_waiting t1 (pool wp)) as H.
    destruct (GetTask_loop t1 (pool wp)) as [[p1 evs] st]. simpl.
    destruct H as (H1 & H2 & H3). repeat split; auto.
    intros [H|H]; [auto | destruct (Hne _ H)].
  - unfold GetTask_resume.
    pose proof (GetTask_loop_waiting t2 (GetTask_wake wait_start t1 (pool wp))) as H.
    destruct (GetTask_loop t2 _) as [[p1 evs] st]. simpl.
    destruct H as (H1 & H2 & H3). repeat split; auto.
    intros [H|H]; [auto | destruct (Hne _ H)].
  - destruct (worker_task <$> threads_ (pool wp) !! i) as [[t|]|]; simpl;
      repeat split; auto; intros [?|?]; discriminate.
  - simpl. repeat split; auto; intros [?|?]; discriminate.
  - simpl. repeat split; auto; intros [?|?]; discriminate.
  - unfold GetTaskCount. destruct (_ =? 0); simpl; repeat split; auto;
      intros [?|?]; discriminate.
  - destruct (FindTaskToStealFrom wp) as [[wp1 [v|]]|] eqn:Hf;
      [destruct (decide _)| |];
      rewrite ?(FindTaskToStealFrom_pool _ _ _ Hf);
      simpl; repeat split; auto; intros [?|?]; discriminate.
  - simpl. repeat split; auto; intros [?|?]; discriminate.
  - destruct (_ =? 0); simpl; repeat split; auto; intros [?|?]; discriminate.
  - simpl. repeat split; auto; intros [?|?]; discriminate.
  - destruct (_ =? 0); simpl; repeat split; auto; intros [?|?]; discriminate.
  - simpl. repeat split; auto; intros [?|?]; discriminate.
  - simpl. auto.
  - simpl. repeat split; auto; intros [?|?]; discriminate.
  - pose proof (ThreadPoolWorker_Run_step_flags t1 t2 pc0 (pool wp)) as H.
    destruct (ThreadPoolWorker_Run_step t1 t2 pc0 (pool wp)) as [[p1 evs] pc1].
    destruct H as (H1 & _ & H3 & H4). cbn [set_pool pool pc_waiting].
    split; [exact H1|]. split; [exact H3|].
    intros [H|H]; [discriminate|]. inversion H as [Hpc1].
    destruct (H4 Hpc1) as [->|Hs]; auto.
Qed.

Lemma Wait_step_flags (pc : WaitPc) (p : ThreadPool) :
  shutting_down_ (fst (fst (Wait_step pc p))) = shutting_down_ p
  /\ waiting_count_ (fst (fst (Wait_step pc p))) = waiting_count_ p.
Proof.
  destruct (Wait_step_pool pc p) as [->|[_ ->]]; [auto|].
  destruct (TryGetTaskLocked_flags p) as (_ & H1 & H2 & _). auto.
Qed.

Lemma QueueInv_sys_step (a : Action) (s s' : System) :
  Inv s -> QueueInv s -> sys_step a s = Some s' -> QueueInv s'.
Proof.
  intros Hinv [Hw Hx] Hstep.
  destruct a as [i t1 t2|task|now| | |do_work|j].
  - apply sys_step_worker in Hstep
      as (pc & wp1 & rc1 & pc1 & evs & Hl & _ & Hws & ->).
    pose proof (worker_step_waiting i t1 t2 pc (wpool s) (ref_count_ s)) as He.
    rewrite Hws in He. destruct He as (Hd & Hc & He).
    pose proof (waiting_workers_lookup _ _ _ Hl) as [Hlo Hhi].
    pose proof (inv_count s Hinv) as Hcount.
    split; cbn [wpool pcs pool].
    + rewrite Hc, (waiting_workers_insert _ _ _ pc1 Hl), Hw. cbv zeta.
      destruct (pc_waiting pc), (pc_waiting pc1);
        rewrite ?size_wrap_small by lia;
        rewrite ?size_wrap_small by (rewrite ?size_wrap_small by lia; lia); lia.
    + intros k Hk. rewrite Hd.
      destruct (decide (k = i)) as [->|Hne].
      * rewrite list_lookup_insert_eq in Hk by (eapply lookup_lt_Some; eauto).
        assert (pc1 = SP_Exit \/ pc1 = SP_Plain WP_Exit) as Hpc1
          by (destruct Hk as [Hk|Hk]; inversion Hk; auto).
        destruct (He Hpc1) as [[->| ->]|Hs]; [| |exact Hs]; apply (Hx i); auto.
      * rewrite list_lookup_insert_ne in Hk by auto. apply (Hx k Hk).
  - cbn [sys_step] in Hstep.
    destruct (fresh_task task s); inversion Hstep; subst. split; simpl; assumption.
  - cbn [sys_step] in Hstep. inversion Hstep; subst. split; simpl; assumption.
  - cbn [sys_step] in Hstep. inversion Hstep; subst. split; simpl; assumption.
  - apply sys_step_shutdown in Hstep
      as (p1 & evs & -> & _ & _ & Hc & _
          & [[_ [-> _]]|[[_ [_ Hp]]|[_ [_ [-> _]]]]]).
    + split; cbn [with_pool wpool pcs pool set_pool fst]; assumption.
    + split; cbn [with_pool wpool pcs pool set_pool fst]; [rewrite Hc; exact Hw|].
      intros _ _. unfold ThreadPool_dtor_locked in Hp. inversion Hp. reflexivity.
    + split; cbn [with_pool wpool pcs pool set_pool fst]; assumption.
  - cbn [sys_step] in Hstep. inversion Hstep; subst. split; simpl; assumption.
  - cbn [sys_step] in Hstep.
    destruct (callers s !! j) as [pc|] eqn:Hl; [|discriminate].
    pose proof (Wait_step_flags pc (pool (wpool s))) as [Hd Hc].
    destruct (Wait_step pc (pool (wpool s))) as [[p1 evs] pc1].
    inversion Hstep; subst; clear Hstep. simpl in Hd, Hc.
    split; cbn [wpool pcs pool set_pool]; [rewrite Hc; exact Hw|].
    intros k Hk. rewrite Hd. apply (Hx k Hk).
Qed.

Lemma QueueInv_sys_run (acts : list Action) (s s' : System) :
  Inv s -> QueueInv s -> sys_run acts s = Some s' -> QueueInv s'.
Proof.
  revert s. induction acts as [|a acts IH]; intros s Hinv Hq Hrun; simpl in Hrun.
  - inversion Hrun; subst. assumption.
  - destruct (sys_step a s) as [s1|] eqn:Hstep; [|discriminate].
    apply (IH s1); [apply (Inv_sys_step a s) | apply (QueueInv_sys_step a s) |];
      assumption.
Qed.

Lemma WorkStealing_add_workers_waiting (fuel : nat) (num_threads : Z)
    (p : ThreadPool) :
  waiting_count_ (WorkStealing_add_workers fuel num_threads p) = waiting_count_ p.
Proof.
  revert p. induction fuel as [|fuel IH]; intros p; [reflexivity|].
  cbn [WorkStealing_add_workers]. destruct (_ <? _); [|reflexivity].
  cbv zeta. rewrite IH. reflexivity.
Qed.

Lemma QueueInv_init (old_start_time old_total_wait_time num_threads : Z)
    (plain_run : nat -> bool) :
  QueueInv (init_system old_start_time old_total_wait_time num_threads plain_run).
Proof.
  split; cbn [init_system wpool pcs pool WorkStealingThreadPool_ctor].
  - rewrite WorkStealing_add_workers_waiting. simpl.
    generalize 0%nat. induction (Z.to_nat num_threads) as [|n IH]; intros k; simpl;
      [reflexivity|].
    rewrite <- IH. destruct (plain_run k); reflexivity.
  - intros i Hi. exfalso.
    assert (Forall (fun pc => pc = SP_GetTask \/ pc = SP_Plain WP_GetTask)
              (map (fun i => if plain_run i then SP_Plain WP_GetTask else SP_GetTask)
                 (seq 0 (Z.to_nat num_threads)))) as Hf
      by apply init_pcs_start.
    rewrite Forall_lookup in Hf.
    destruct Hi as [Hi|Hi]; destruct (Hf _ _ Hi) as [?|?]; discriminate.
Qed.

Lemma reachable_QueueInv (old_start_time old_total_wait_time num_threads : Z)
    (plain_run : nat -> bool) (acts : list Action) (s : System) :
  0 <= num_threads < 2 ^ 64 ->
  sys_run acts (init_system old_start_time old_total_wait_time num_threads plain_run)
  = Some s ->
  QueueInv s.
Proof.
  intros Hn Hrun.
  exact (QueueInv_sys_run acts _ s
           (Inv_init old_start_time old_total_wait_time num_threads plain_run Hn)
           (QueueInv_init old_start_time old_total_wait_time num_threads plain_run) Hrun).
Qed.

(** X13: in every reachable state [waiting_count_] is the number of workers
    that are blocked in the wait of [GetTask], whichever of the two loops
    their thread executes; the count never wraps and is at most the number
    of workers.  So [AddTask] signals [task_queue_condition_] exactly when
    some worker is blocked there, and when the count equals the number of
    workers every worker is blocked.  A worker leaves the loop of its [Run]
    only when [shutting_down_] is set. *)
Theorem waiting_count_counts_blocked_workers
    (old_start_time old_total_wait_time num_threads : Z)
    (plain_run : nat -> bool) (acts : list Action) (s : System) :
  0 <= num_threads < 2 ^ 64 ->
  sys_run acts (init_system old_start_time old_total_wait_time num_threads plain_run)
  = Some s ->
  waiting_count_ (pool (wpool s)) = waiting_workers (pcs s)
  /\ 0 <= waiting_count_ (pool (wpool s)) <= num_threads
  /\ (forall task,
        EvSignal task_queue_condition_ ∈ snd (AddTask task (pool (wpool s)))
        <-> exists i wait_start,
              pcs s !! i = Some (SP_InGetTask wait_start)
              \/ pcs s !! i = Some (SP_Plain (WP_InGetTask wait_start)))
  /\ (waiting_count_ (pool (wpool s)) = GetThreadCount (pool (wpool s)) ->
      Forall (fun pc => exists wait_start,
                pc = SP_InGetTask wait_start
                \/ pc = SP_Plain (WP_InGetTask wait_start)) (pcs s))
  /\ (forall i,
        pcs s !! i = Some SP_Exit \/ pcs s !! i = Some (SP_Plain WP_Exit) ->
        shutting_down_ (pool (wpool s)) = true).
Proof.
  intros Hn Hrun.
  pose proof (reachable_Inv _ _ _ _ _ _ Hn Hrun) as Hinv.
  destruct (reachable_QueueInv _ _ _ _ _ _ Hn Hrun) as [Hw Hx].
  pose proof (sys_run_length _ _ _ Hrun) as Hlen.
  simpl in Hlen. rewrite length_map, length_seq in Hlen.
  pose proof (waiting_workers_bounds (pcs s)) as Hb.
  pose proof (Forall2_length _ _ _ (inv_threads s Hinv)) as Hth.
  split; [exact Hw|]. split; [lia|]. split; [|split; [|exact Hx]].
  - intros task.
    assert ((exists i wait_start,
               pcs s !! i = Some (SP_InGetTask wait_start)
               \/ pcs s !! i = Some (SP_Plain (WP_InGetTask wait_start)))
            <-> 0 < waiting_count_ (pool (wpool s))) as ->.
    { rewrite Hw, waiting_workers_pos. split.
      - intros (i & ws & [Hl|Hl]); eexists i, _; (split; [exact Hl|reflexivity]).
      - intros (i & pc & Hl & Hpc). apply pc_waiting_states in Hpc as (ws & [-> | ->]);
          exists i, ws; auto. }
    unfold AddTask. simpl.
    destruct (Z.eqb_spec (waiting_count_ (pool (wpool s))) 0) as [Hz|Hnz]; simpl.
    + split; [|lia]. intros Hin. exfalso. revert Hin. mem_solver.
    + split; [lia|]. intros _. mem_solver.
  - intros Heq.
    assert (Forall (fun pc => pc_waiting pc = true) (pcs s)) as Hall.
    { apply waiting_workers_all. rewrite <- Hw, Heq.
      unfold GetThreadCount. rewrite Hth. reflexivity. }
    eapply Forall_impl; [exact Hall|]. intros pc Hpc.
    apply pc_waiting_states in Hpc. exact Hpc.
Qed.

Lemma waiting_count_counts_blocked_workers_witness :
  exists s,
    sys_run [ActWorker 0 5 0] (init_system 0 0 2 (fun _ => false)) = Some s
    /\ pcs s = [SP_InGetTask 5; SP_GetTask]
    /\ waiting_count_ (pool (wpool s)) = waiting_workers (pcs s).
Proof.
  eexists. split; [vm_compute; reflexivity|]. split; [reflexivity|].
  match goal with
  | |- waiting_count_ (pool (wpool ?s)) = _ =>
      destruct (waiting_count_counts_blocked_workers 0 0 2 (fun _ => false) [ActWorker 0 5 0] s)
        as (Hw & _)
  end.
  - lia.
  - vm_compute. reflexivity.
  - exact Hw.
Defined.

(** ** The history of a task *)

Lemma before_run_le (x : Task) (l : list StealPc) :
  occ_pcs pc_before_run x l
  <= occ_pcs pc_unregistered x l + occ_pcs pc_registered x l.
Proof.
  induction l as [|pc l IH]; [unfold occ_pcs; simpl; lia|].
  rewrite !occ_pcs_cons. destruct pc; simpl; repeat case_decide; lia.
Qed.

Lemma wait_tasks_split (x : Task) (l : list WaitPc) :
  occ_pcs wait_pc_tasks x l
  = occ_pcs wait_before_run x l + occ_pcs wait_after_run x l.
Proof.
  induction l as [|pc l IH]; [reflexivity|].
  rewrite !occ_pcs_cons, IH. destruct pc; simpl; repeat case_decide; lia.
Qed.

Ltac hist_facts Hinv Hh Hl x :=
  let Hsplit := fresh "Hsplit" in
  task_facts Hinv Hl x;
  destruct Hh as [HOnce HDone HHeld];
  pose proof (occ_pcs_lookup pc_before_run x _ _ _ Hl) as Hsplit;
  try rewrite Hsplit in HOnce; try rewrite Hsplit in HHeld; clear Hsplit;
  pose proof (occ_pcs_lookup pc_pending x _ _ _ Hl) as Hsplit;
  try rewrite Hsplit in HDone; clear Hsplit;
  match type of Hl with
  | pcs ?s !! ?i = _ =>
      pose proof (occ_pcs_nonneg pc_before_run x (delete i (pcs s)));
      pose proof (before_run_le x (delete i (pcs s)));
      pose proof (occ_pcs_nonneg wait_before_run x (callers s));
      pose proof (occ_pcs_nonneg wait_after_run x (callers s));
      pose proof (wait_tasks_split x (callers s))
  end.

Ltac hist_cases :=
  cbn [occ pc_unregistered pc_registered pc_victim pc_pending pc_before_run
       GetTask_pc GetTask_wpc] in *;
  unfold set_ref_count in *;
  repeat case_decide; simplify_eq;
  rewrite ?size_wrap_small in * by lia; try lia; try congruence.

Ltac hist_goal Hl x :=
  split;
  [ constructor
  | let Hacc := fresh "Hacc" in
    unfold accounted; intros Hacc;
    try rewrite (occ_pcs_lookup pc_unregistered x _ _ _ Hl) in Hacc;
    try rewrite (occ_pcs_lookup pc_pending x _ _ _ Hl) in Hacc ];
  cbn [wpool ref_count_ pcs callers wait_finalized trace pool set_pool tasks_
       set_task_ set_threads];
  rewrite ?(occ_pcs_insert _ _ _ _ _ _ Hl), ?occ_app.

Lemma Hist_worker_step (s : System) (i : nat) (t1 t2 : Z) (pc : StealPc)
    (wp1 : WorkStealingThreadPool) (rc1 : Task -> Z) (pc1 : StealPc)
    (evs : list Event) (x : Task) :
  Inv s -> HistInv s x -> pcs s !! i = Some pc ->
  worker_step i t1 t2 pc (wpool s) (ref_count_ s) = (wp1, rc1, pc1, evs) ->
  let s' := mkSystem wp1 rc1 (<[i := pc1]> (pcs s)) (callers s)
              (plain_pc_runs pc ++ wait_finalized s) (trace s ++ evs) in
  HistInv s' x /\ (accounted s x -> accounted s' x).
Proof.
  intros Hinv Hh Hl Hstep. cbv zeta.
  destruct pc as [| | | | | | | | | | | | | |pc0]; cbn [worker_step] in Hstep;
    cbn [plain_pc_runs app].
  - pose proof (GetTask_enter_effect t1 (pool (wpool s))) as He.
    destruct (GetTask_enter t1 (pool (wpool s))) as [[p1 evs1] st].
    destruct He as (Hth & Hev & Hq). inversion Hstep; subst; clear Hstep.
    hist_facts Hinv Hh Hl x. hist_goal Hl x; queue_occ Hev;
      destruct st as [[t|]|ws']; rewrite ?Hq in *; hist_cases.
  - pose proof (GetTask_resume_effect wait_start t1 t2 (pool (wpool s))) as He.
    destruct (GetTask_resume wait_start t1 t2 (pool (wpool s))) as [[p1 evs1] st].
    destruct He as (Hth & Hev & Hq). inversion Hstep; subst; clear Hstep.
    hist_facts Hinv Hh Hl x. hist_goal Hl x; queue_occ Hev;
      destruct st as [[t|]|ws']; rewrite ?Hq in *; hist_cases.
  - destruct (Forall2_lookup_r _ _ _ _ _ (inv_threads s Hinv) Hl)
      as (w & Hw & [n ->]).
    rewrite Hw in Hstep. simpl in Hstep. inversion Hstep; subst; clear Hstep.
    hist_facts Hinv Hh Hl x. hist_goal Hl x; hist_cases.
  - inversion Hstep; subst; clear Hstep.
    hist_facts Hinv Hh Hl x. hist_goal Hl x; hist_cases.
  - inversion Hstep; subst; clear Hstep.
    hist_facts Hinv Hh Hl x. hist_goal Hl x; hist_cases.
  - unfold GetTaskCount in Hstep. inversion Hstep; subst; clear Hstep.
    hist_facts Hinv Hh Hl x. destruct (_ =? 0); hist_goal Hl x; hist_cases.
  - pose proof (inv_threads s Hinv) as Hth.
    pose proof (Forall2_length _ _ _ Hth) as Hlen.
    pose proof (inv_count s Hinv) as Hcount.
    pose proof (inv_index s Hinv) as Hidx.
    pose proof (lookup_lt_Some _ _ _ Hl) as Hi.
    destruct (FindTaskToStealFrom_scan (wpool s)) as
      (m & wp' & r & Heq & Hpool & Hm & _ & Hsi & _ & Hcand & _).
    { apply (threads_all_stealing _ _ Hth). }
    { unfold GetThreadCount. rewrite Hlen. exact Hcount. }
    { unfold GetThreadCount. rewrite Hlen. lia. }
    rewrite Heq in Hstep.
    destruct wp' as [p' si']. simpl in Hpool. subst p'.
    destruct r as [v|].
    + destruct (candidate_task_worker _ _ _ _ Hcand) as (j & w & Hw & Hv).
      pose proof (victim_is_registered s i stealing_task v j w Hinv Hl Hw Hv) as Hreg.
      destruct (decide (stealing_task = v)) as [->|Hne].
      * exfalso. task_facts Hinv Hl v. count_cases.
      * inversion Hstep; subst; clear Hstep.
        hist_facts Hinv Hh Hl x. hist_goal Hl x; hist_cases.
    + inversion Hstep; subst; clear Hstep.
      hist_facts Hinv Hh Hl x. hist_goal Hl x; hist_cases.
  - inversion Hstep; subst; clear Hstep.
    hist_facts Hinv Hh Hl x. hist_goal Hl x; hist_cases.
  - inversion Hstep; subst; clear Hstep.
    pose proof (proj1 (Forall_lookup _ _) (inv_wf s Hinv) i _ Hl) as Hwf.
    simpl in Hwf.
    destruct (Z.eqb_spec (size_wrap (ref_count_ s steal_from_task - 1)) 0) as [Hz|Hnz];
      hist_facts Hinv Hh Hl x; hist_goal Hl x; hist_cases.
  - inversion Hstep; subst; clear Hstep.
    hist_facts Hinv Hh Hl x. hist_goal Hl x; hist_cases.
  - inversion Hstep; subst; clear Hstep.
    destruct (Z.eqb_spec (size_wrap (ref_count_ s stealing_task - 1)) 0) as [Hz|Hnz];
      hist_facts Hinv Hh Hl x; hist_goal Hl x; hist_cases.
  - inversion Hstep; subst; clear Hstep.
    hist_facts Hinv Hh Hl x. hist_goal Hl x; hist_cases.
  - inversion Hstep; subst; clear Hstep.
    hist_facts Hinv Hh Hl x. hist_goal Hl x; hist_cases.
  - inversion Hstep; subst; clear Hstep.
    hist_facts Hinv Hh Hl x. hist_goal Hl x; hist_cases.
  - destruct pc0; cbn [ThreadPoolWorker_Run_step] in Hstep.
    + pose proof (GetTask_enter_effect t1 (pool (wpool s))) as He.
      destruct (GetTask_enter t1 (pool (wpool s))) as [[p1 evs1] st].
      destruct He as (Hth & Hev & Hq). inversion Hstep; subst; clear Hstep.
      hist_facts Hinv Hh Hl x. hist_goal Hl x; queue_occ Hev;
        destruct st as [[t|]|ws']; rewrite ?Hq in *; hist_cases.
    + pose proof (GetTask_resume_effect wait_start t1 t2 (pool (wpool s))) as He.
      destruct (GetTask_resume wait_start t1 t2 (pool (wpool s))) as [[p1 evs1] st].
      destruct He as (Hth & Hev & Hq). inversion Hstep; subst; clear Hstep.
      hist_facts Hinv Hh Hl x. hist_goal Hl x; queue_occ Hev;
        destruct st as [[t|]|ws']; rewrite ?Hq in *; hist_cases.
    + inversion Hstep; subst; clear Hstep.
      hist_facts Hinv Hh Hl x. hist_goal Hl x; hist_cases.
    + inversion Hstep; subst; clear Hstep.
      hist_facts Hinv Hh Hl x. hist_goal Hl x; hist_cases.
    + inversion Hstep; subst; clear Hstep.
      hist_facts Hinv Hh Hl x. hist_goal Hl x; hist_cases.
Qed.

Lemma Hist_step_pool (s : System) (p1 : ThreadPool) (evs : list Event) (x : Task) :
  HistInv s x ->
  tasks_ p1 = tasks_ (pool (wpool s)) ->
  Forall is_pool_event evs ->
  HistInv (with_pool (p1, evs) s) x
  /\ (accounted s x -> accounted (with_pool (p1, evs) s) x).
Proof.
  intros [HOnce HDone HHeld] Hq Hev. unfold with_pool, accounted. simpl fst. simpl snd.
  split; [constructor|];
    cbn [wpool ref_count_ pcs callers wait_finalized trace pool set_pool];
    rewrite ?occ_app, ?Hq; queue_occ Hev; intros; lia.
Qed.

Lemma Hist_step_AddTask (s : System) (task x : Task) :
  Inv s -> HistInv s x -> fresh_task task s = true ->
  let s' := with_pool (AddTask task (pool (wpool s))) s in
  HistInv s' x /\ (accounted s x -> accounted s' x) /\ accounted s' task.
Proof.
  intros Hinv [HOnce HDone HHeld] Hfresh. cbv zeta. unfold fresh_task in Hfresh.
  apply andb_true_iff in Hfresh as [Hfresh Hfin].
  apply andb_true_iff in Hfresh as [Hfresh Hncl].
  apply andb_true_iff in Hfresh as [Hnq Hnpc].
  apply bool_decide_eq_true in Hnq, Hnpc, Hncl, Hfin.
  apply occ_zero_not_elem_of in Hnq, Hncl, Hfin.
  fold (occ_pcs wait_pc_tasks task (callers s)) in Hncl.
  destruct (occ_pcs_fresh task (pcs s) Hnpc) as (HU & HR & HV & HP).
  assert (Hev : Forall is_pool_event (snd (AddTask task (pool (wpool s))))).
  { unfold AddTask. simpl. destruct (negb _); repeat constructor. }
  destruct (inv_task s Hinv task) as [HA HB HC HG HH HW].
  pose proof (before_run_le task (pcs s)).
  pose proof (occ_pcs_nonneg pc_before_run task (pcs s)).
  pose proof (occ_pcs_nonneg wait_before_run task (callers s)).
  pose proof (occ_pcs_nonneg wait_after_run task (callers s)).
  pose proof (wait_tasks_split task (callers s)).
  pose proof (occ_nonneg (EvRun task) (trace s)).
  pose proof (occ_nonneg x (tasks_ (pool (wpool s)))).
  pose proof (occ_pcs_nonneg pc_unregistered task (pcs s)).
  pose proof (occ_pcs_nonneg pc_pending task (pcs s)).
  pose proof (occ_nonneg task (tasks_ (pool (wpool s)))).
  pose proof (occ_nonneg (EvFinalize task) (trace s)).
  unfold with_pool, accounted.
  split; [constructor|split; [intros Hacc|]];
    cbn [wpool ref_count_ pcs callers wait_finalized trace pool set_pool];
    rewrite ?occ_app; queue_occ Hev; simpl tasks_; rewrite ?occ_app;
    cbn [occ]; repeat case_decide; subst; try lia; try congruence.
Qed.

Lemma Hist_step_call_Wait (s : System) (do_work : bool) (x : Task) :
  HistInv s x ->
  let s' := mkSystem (wpool s) (ref_count_ s) (pcs s)
              (callers s ++ [Wait_entry do_work]) (wait_finalized s) (trace s) in
  HistInv s' x /\ (accounted s x -> accounted s' x).
Proof.
  intros [HOnce HDone HHeld]. cbv zeta. unfold accounted.
  split; [constructor|];
    cbn [wpool ref_count_ pcs callers wait_finalized trace];
    rewrite ?occ_pcs_snoc;
    cbn [Wait_entry wait_pc_tasks wait_before_run wait_after_run occ];
    intros; lia.
Qed.

Ltac hist_caller_facts Hinv Hh Hl x :=
  let Hsplit := fresh "Hsplit" in
  caller_facts Hinv Hl x;
  destruct Hh as [HOnce HDone HHeld];
  pose proof (occ_pcs_lookup wait_before_run x _ _ _ Hl) as Hsplit;
  try rewrite Hsplit in HOnce; clear Hsplit;
  pose proof (occ_pcs_lookup wait_after_run x _ _ _ Hl) as Hsplit;
  try rewrite Hsplit in HDone; clear Hsplit;
  match type of Hl with
  | callers ?s !! ?j = _ =>
      pose proof (occ_pcs_nonneg pc_before_run x (pcs s));
      pose proof (before_run_le x (pcs s));
      pose proof (occ_pcs_nonneg wait_before_run x (delete j (callers s)));
      pose proof (occ_pcs_nonneg wait_after_run x (delete j (callers s)));
      pose proof (wait_tasks_split x (delete j (callers s)))
  end.

Ltac hist_caller_goal Hl x :=
  split;
  [ constructor
  | let Hacc := fresh "Hacc" in
    unfold accounted; intros Hacc;
    try rewrite (occ_pcs_lookup wait_pc_tasks x _ _ _ Hl) in Hacc ];
  cbn [wpool ref_count_ pcs callers wait_finalized trace pool set_pool tasks_
       set_tasks];
  rewrite ?(occ_pcs_insert _ _ _ _ _ _ Hl), ?occ_app.

Ltac hist_caller_cases :=
  cbn [occ wait_pc_tasks wait_before_run wait_after_run] in *;
  repeat case_decide; simplify_eq; try lia; try congruence.

Lemma Hist_step_caller (s : System) (j : nat) (pc : WaitPc) (p1 : ThreadPool)
    (evs : list Event) (pc1 : WaitPc) (x : Task) :
  Inv s -> HistInv s x -> callers s !! j = Some pc ->
  Wait_step pc (pool (wpool s)) = (p1, evs, pc1) ->
  let s' := mkSystem (set_pool p1 (wpool s)) (ref_count_ s) (pcs s)
              (<[j := pc1]> (callers s)) (wait_pc_finalizes pc ++ wait_finalized s)
              (trace s ++ evs) in
  HistInv s' x /\ (accounted s x -> accounted s' x).
Proof.
  intros Hinv Hh Hl Hstep. cbv zeta. destruct pc; cbn [Wait_step] in Hstep.
  - unfold TryGetTask in Hstep.
    destruct (TryGetTaskLocked_cases (pool (wpool s)))
      as [(task & rest & Hs & Hq & Heq)|[Hc Heq]];
      rewrite Heq in Hstep; inversion Hstep; subst; clear Hstep;
      hist_caller_facts Hinv Hh Hl x; hist_caller_goal Hl x;
      rewrite ?Hq in *; simpl tasks_; hist_caller_cases.
  - inversion Hstep; subst; clear Hstep.
    hist_caller_facts Hinv Hh Hl x; hist_caller_goal Hl x; hist_caller_cases.
  - inversion Hstep; subst; clear Hstep.
    hist_caller_facts Hinv Hh Hl x; hist_caller_goal Hl x; hist_caller_cases.
  - unfold Wait_completion_loop in Hstep.
    destruct (_ && _); inversion Hstep; subst; clear Hstep;
      hist_caller_facts Hinv Hh Hl x; hist_caller_goal Hl x; hist_caller_cases.
  - unfold Wait_completion_loop in Hstep.
    destruct (_ && _); inversion Hstep; subst; clear Hstep;
      hist_caller_facts Hinv Hh Hl x; hist_caller_goal Hl x; hist_caller_cases.
  - inversion Hstep; subst; clear Hstep.
    hist_caller_facts Hinv Hh Hl x; hist_caller_goal Hl x; hist_caller_cases.
Qed.

Lemma Hist_sys_step (a : Action) (s s' : System) (x : Task) :
  Inv s -> HistInv s x -> sys_step a s = Some s' ->
  HistInv s' x /\ (accounted s x -> accounted s' x)
  /\ (a = ActAddTask x -> accounted s' x).
Proof.
  intros Hinv Hh Hstep.
  destruct a as [i t1 t2|task|now| | |do_work|j];
    [apply sys_step_worker in Hstep as (pc & wp1 & rc1 & pc1 & evs & Hl & _ & Hw & ->)
    | | | |apply sys_step_shutdown in Hstep
             as (p1 & evs & -> & _ & Hq & _ & Hev & _)
    | |]; cbn [sys_step] in *.
  - destruct (Hist_worker_step s i t1 t2 pc _ _ _ _ x Hinv Hh Hl Hw) as [H1 H2].
    split; [exact H1 | split; [exact H2 | discriminate]].
  - destruct (fresh_task task s) eqn:Hfresh; [|discriminate].
    inversion Hstep; subst.
    destruct (Hist_step_AddTask s task x Hinv Hh Hfresh) as (H1 & H2 & H3).
    split; [exact H1 | split; [exact H2 |]]. intros Heq. inversion Heq; subst. exact H3.
  - inversion Hstep; subst. unfold StartWorkers.
    destruct (Hist_step_pool s
                (set_total_wait_time 0 (set_start_time now (set_started true (pool (wpool s)))))
                [EvLock task_queue_lock_; EvBroadcast task_queue_condition_;
                 EvUnlock task_queue_lock_] x Hh) as [H1 H2];
      [reflexivity | repeat constructor |].
    split; [exact H1 | split; [exact H2 | discriminate]].
  - inversion Hstep; subst. unfold StopWorkers.
    destruct (Hist_step_pool s (set_started false (pool (wpool s)))
                [EvLock task_queue_lock_; EvUnlock task_queue_lock_] x Hh) as [H1 H2];
      [reflexivity | repeat constructor |].
    split; [exact H1 | split; [exact H2 | discriminate]].
  - destruct (Hist_step_pool s p1 evs x Hh Hq Hev) as [H1 H2].
    split; [exact H1 | split; [exact H2 | discriminate]].
  - inversion Hstep; subst.
    destruct (Hist_step_call_Wait s do_work x Hh) as [H1 H2].
    split; [exact H1 | split; [exact H2 | discriminate]].
  - destruct (callers s !! j) as [pc|] eqn:Hl; [|discriminate].
    destruct (Wait_step pc (pool (wpool s))) as [[p1 evs] pc1] eqn:Hw.
    inversion Hstep; subst.
    destruct (Hist_step_caller s j pc _ _ _ x Hinv Hh Hl Hw) as [H1 H2].
    split; [exact H1 | split; [exact H2 | discriminate]].
Qed.

Lemma Hist_sys_run (acts : list Action) (s s' : System) (x : Task) :
  Inv s -> HistInv s x -> sys_run acts s = Some s' ->
  HistInv s' x
  /\ (accounted s x \/ x ∈ submitted acts -> accounted s' x).
Proof.
  revert s. induction acts as [|a acts IH]; intros s Hinv Hh Hrun; simpl in Hrun.
  - inversion Hrun; subst. split; [assumption|].
    intros [Hacc|Hin]; [assumption|]. inversion Hin.
  - destruct (sys_step a s) as [s1|] eqn:Hstep; [|discriminate].
    destruct (Hist_sys_step a s s1 x Hinv Hh Hstep) as (Hh1 & Hacc1 & Hadd).
    destruct (IH s1 (Inv_sys_step a s s1 Hinv Hstep) Hh1 Hrun) as [Hh' Hacc'].
    split; [exact Hh'|]. intros [Hacc|Hin].
    + apply Hacc'. left. apply Hacc1. exact Hacc.
    + apply Hacc'. unfold submitted in Hin. simpl in Hin.
      apply elem_of_app in Hin as [Hin|Hin]; [|right; exact Hin].
      left. apply Hadd. destruct a; try (inversion Hin; fail).
      apply elem_of_cons in Hin as [->|Hin]; [reflexivity | inversion Hin].
Qed.

Lemma Hist_init (old_start_time old_total_wait_time num_threads : Z)
    (plain_run : nat -> bool) (x : Task) :
  0 <= num_threads < 2 ^ 64 ->
  HistInv (init_system old_start_time old_total_wait_time num_threads plain_run) x.
Proof.
  intros Hn. unfold init_system, WorkStealingThreadPool_ctor.
  destruct (WorkStealing_add_workers_threads (Z.to_nat num_threads) num_threads
              (ThreadPool_ctor old_start_time old_total_wait_time 0) []
              (map (fun i => if plain_run i then SP_Plain WP_GetTask else SP_GetTask)
                 (seq 0 (Z.to_nat num_threads))))
    as [Hth Hq].
  { constructor. }
  { rewrite length_map, length_seq. reflexivity. }
  { eapply Forall_impl; [apply init_pcs_start|].
    intros pc [-> | ->]; reflexivity. }
  { simpl. lia. }
  constructor; cbn [wpool ref_count_ pcs callers wait_finalized trace pool];
    rewrite ?Hq, ?occ_pcs_init by reflexivity;
    unfold new_task_ref_count, occ_pcs; simpl; lia.
Qed.

(** *** The order of the events of a task *)

Lemma queue_events_tasks (evs : list Event) :
  Forall is_pool_event evs -> flat_map event_tasks evs = [].
Proof.
  induction 1 as [|e evs He _ IH]; [reflexivity|].
  simpl. rewrite IH. destruct e as [[]|[]| | | | | | | | |[]|]; simpl in *;
    try contradiction; reflexivity.
Qed.

Lemma events_in_order_queue (s : System) (evs : list Event) (x : Task) :
  Forall is_pool_event evs -> events_in_order s evs x.
Proof.
  intros Hev. unfold events_in_order. rewrite (queue_events_tasks evs Hev).
  rewrite (queue_events_occ (EvFinalize x) evs Hev) by (simpl; tauto).
  split; [simpl; lia|]. split; [lia|].
  intros pre post Heq. exfalso.
  apply (queue_events_no_finalize evs Hev x). rewrite Heq.
  apply elem_of_app. right. apply elem_of_cons. auto.
Qed.

Ltac last_event :=
  let pre := fresh "pre" in
  let post := fresh "post" in
  let Heq := fresh "Heq" in
  intros pre post Heq;
  repeat (destruct pre as [|? pre]; simpl in Heq; [try discriminate|
          injection Heq as ? Heq]);
  try (destruct pre; discriminate);
  try (injection Heq as ? Heq; subst; reflexivity).

Ltac order_goal :=
  unfold events_in_order; cbn [flat_map event_tasks app];
  split; [|split]; [hist_cases | hist_cases | last_event].

Lemma Order_worker_step (s : System) (i : nat) (t1 t2 : Z) (pc : StealPc)
    (wp1 : WorkStealingThreadPool) (rc1 : Task -> Z) (pc1 : StealPc)
    (evs : list Event) (x : Task) :
  Inv s -> HistInv s x -> pcs s !! i = Some pc ->
  worker_step i t1 t2 pc (wpool s) (ref_count_ s) = (wp1, rc1, pc1, evs) ->
  events_in_order s evs x.
Proof.
  intros Hinv Hh Hl Hstep.
  destruct pc as [| | | | | | | | | | | | | |pc0]; cbn [worker_step] in Hstep.
  - pose proof (GetTask_enter_effect t1 (pool (wpool s))) as He.
    destruct (GetTask_enter t1 (pool (wpool s))) as [[p1 evs1] st].
    destruct He as (Hth & Hev & Hq). inversion Hstep; subst; clear Hstep.
    apply events_in_order_queue. exact Hev.
  - pose proof (GetTask_resume_effect wait_start t1 t2 (pool (wpool s))) as He.
    destruct (GetTask_resume wait_start t1 t2 (pool (wpool s))) as [[p1 evs1] st].
    destruct He as (Hth & Hev & Hq). inversion Hstep; subst; clear Hstep.
    apply events_in_order_queue. exact Hev.
  - destruct (Forall2_lookup_r _ _ _ _ _ (inv_threads s Hinv) Hl)
      as (w & Hw & [n ->]).
    rewrite Hw in Hstep. simpl in Hstep. inversion Hstep; subst; clear Hstep.
    hist_facts Hinv Hh Hl x. order_goal.
  - inversion Hstep; subst; clear Hstep.
    hist_facts Hinv Hh Hl x. order_goal.
  - inversion Hstep; subst; clear Hstep.
    hist_facts Hinv Hh Hl x. order_goal.
  - unfold GetTaskCount in Hstep. inversion Hstep; subst; clear Hstep.
    apply events_in_order_queue. repeat constructor.
  - pose proof (inv_threads s Hinv) as Hth.
    pose proof (Forall2_length _ _ _ Hth) as Hlen.
    pose proof (inv_count s Hinv) as Hcount.
    pose proof (inv_index s Hinv) as Hidx.
    pose proof (lookup_lt_Some _ _ _ Hl) as Hi.
    destruct (FindTaskToStealFrom_scan (wpool s)) as
      (m & wp' & r & Heq & Hpool & Hm & _ & Hsi & _ & Hcand & _).
    { apply (threads_all_stealing _ _ Hth). }
    { unfold GetThreadCount. rewrite Hlen. exact Hcount. }
    { unfold GetThreadCount. rewrite Hlen. lia. }
    rewrite Heq in Hstep.
    destruct wp' as [p' si']. simpl in Hpool. subst p'.
    destruct r as [v|].
    + destruct (candidate_task_worker _ _ _ _ Hcand) as (j & w & Hw & Hv).
      pose proof (victim_is_registered s i stealing_task v j w Hinv Hl Hw Hv) as Hreg.
      destruct (decide (stealing_task = v)) as [->|Hne].
      * exfalso. task_facts Hinv Hl v. count_cases.
      * inversion Hstep; subst; clear Hstep.
        hist_facts Hinv Hh Hl x. order_goal.
    + inversion Hstep; subst; clear Hstep.
      hist_facts Hinv Hh Hl x. order_goal.
  - inversion Hstep; subst; clear Hstep.
    hist_facts Hinv Hh Hl x. order_goal.
  - inversion Hstep; subst; clear Hstep.
    hist_facts Hinv Hh Hl x. order_goal.
  - inversion Hstep; subst; clear Hstep.
    hist_facts Hinv Hh Hl x. order_goal.
  - inversion Hstep; subst; clear Hstep.
    hist_facts Hinv Hh Hl x. order_goal.
  - inversion Hstep; subst; clear Hstep.
    hist_facts Hinv Hh Hl x. order_goal.
  - inversion Hstep; subst; clear Hstep.
    hist_facts Hinv Hh Hl x. order_goal.
  - inversion Hstep; subst; clear Hstep.
    hist_facts Hinv Hh Hl x. order_goal.
  - destruct pc0; cbn [ThreadPoolWorker_Run_step] in Hstep.
    + pose proof (GetTask_enter_effect t1 (pool (wpool s))) as He.
      destruct (GetTask_enter t1 (pool (wpool s))) as [[p1 evs1] st].
      destruct He as (Hth & Hev & Hq). inversion Hstep; subst; clear Hstep.
      apply events_in_order_queue. exact Hev.
    + pose proof (GetTask_resume_effect wait_start t1 t2 (pool (wpool s))) as He.
      destruct (GetTask_resume wait_start t1 t2 (pool (wpool s))) as [[p1 evs1] st].
      destruct He as (Hth & Hev & Hq). inversion Hstep; subst; clear Hstep.
      apply events_in_order_queue. exact Hev.
    + inversion Hstep; subst; clear Hstep.
      hist_facts Hinv Hh Hl x. order_goal.
    + inversion Hstep; subst; clear Hstep.
      hist_facts Hinv Hh Hl x. order_goal.
    + inversion Hstep; subst; clear Hstep.
      hist_facts Hinv Hh Hl x. order_goal.
Qed.

Ltac order_caller_goal :=
  unfold events_in_order; cbn [flat_map event_tasks app];
  split; [|split]; [hist_caller_cases | hist_caller_cases | last_event].

Lemma Order_step_caller (s : System) (j : nat) (pc : WaitPc) (p1 : ThreadPool)
    (evs : list Event) (pc1 : WaitPc) (x : Task) :
  Inv s -> HistInv s x -> callers s !! j = Some pc ->
  Wait_step pc (pool (wpool s)) = (p1, evs, pc1) ->
  events_in_order s evs x.
Proof.
  intros Hinv Hh Hl Hstep. destruct pc; cbn [Wait_step] in Hstep.
  - unfold TryGetTask in Hstep.
    destruct (TryGetTaskLocked (pool (wpool s))) as [p2 [t|]];
      inversion Hstep; subst; clear Hstep;
      apply events_in_order_queue; repeat constructor.
  - inversion Hstep; subst; clear Hstep.
    hist_caller_facts Hinv Hh Hl x. order_caller_goal.
  - inversion Hstep; subst; clear Hstep.
    hist_caller_facts Hinv Hh Hl x. order_caller_goal.
  - unfold Wait_completion_loop in Hstep.
    destruct (_ && _); inversion Hstep; subst; clear Hstep;
      apply events_in_order_queue; repeat constructor.
  - unfold Wait_completion_loop in Hstep.
    destruct (_ && _); inversion Hstep; subst; clear Hstep;
      apply events_in_order_queue; repeat constructor.
  - inversion Hstep; subst; clear Hstep.
    apply events_in_order_queue. constructor.
Qed.

(** Every step appends its events to the trace, and they are in order. *)
Lemma Order_sys_step (a : Action) (s s' : System) :
  Inv s -> (forall x, HistInv s x) -> sys_step a s = Some s' ->
  exists evs, trace s' = trace s ++ evs /\ forall x, events_in_order s evs x.
Proof.
  intros Hinv Hh Hstep.
  destruct a as [i t1 t2|task|now| | |do_work|j];
    [apply sys_step_worker in Hstep as (pc & wp1 & rc1 & pc1 & evs & Hl & _ & Hw & ->)
    | | | |apply sys_step_shutdown in Hstep
             as (p1 & evs & -> & _ & _ & _ & Hev & _)
    | |]; cbn [sys_step] in *.
  - exists evs. split; [reflexivity|].
    intros x. apply (Order_worker_step s i t1 t2 pc _ _ _ _ x Hinv (Hh x) Hl Hw).
  - destruct (fresh_task task s) eqn:Hfresh; [|discriminate].
    inversion Hstep; subst. eexists. split; [reflexivity|].
    intros x. apply events_in_order_queue.
    unfold AddTask. simpl. destruct (negb _); repeat constructor.
  - inversion Hstep; subst. eexists. split; [reflexivity|].
    intros x. apply events_in_order_queue. repeat constructor.
  - inversion Hstep; subst. eexists. split; [reflexivity|].
    intros x. apply events_in_order_queue. repeat constructor.
  - exists evs. split; [reflexivity|].
    intros x. apply events_in_order_queue. exact Hev.
  - inversion Hstep; subst. exists []. split; [simpl; rewrite app_nil_r; reflexivity|].
    intros x. apply events_in_order_queue. constructor.
  - destruct (callers s !! j) as [pc|] eqn:Hl; [|discriminate].
    destruct (Wait_step pc (pool (wpool s))) as [[p1 evs] pc1] eqn:Hw.
    inversion Hstep; subst. exists evs. split; [reflexivity|].
    intros x. apply (Order_step_caller s j pc _ _ _ x Hinv (Hh x) Hl Hw).
Qed.

Lemma run_before_finalize_step (tr evs : list Event) :
  run_before_finalize tr -> (forall x, step_events_in_order tr evs x) ->
  run_before_finalize (tr ++ evs).
Proof.
  intros Hr Hev pre x post Heq.
  apply app_eq_inv in Heq as [(k & Htr & Hevs)|(k & Hpre & Hevs)].
  - destruct k as [|e k].
    + destruct (Hev x) as (_ & Hrun & _). rewrite app_nil_r in Htr. subst pre.
      apply occ_pos_elem_of. apply Hrun. apply occ_pos_elem_of.
      simpl in Hevs. rewrite <- Hevs. apply elem_of_cons. auto.
    + simpl in Hevs. inversion Hevs; subst. apply (Hr pre x k). reflexivity.
  - destruct (Hev x) as (_ & Hrun & _). subst pre.
    apply elem_of_app. left. apply occ_pos_elem_of. apply Hrun.
    apply occ_pos_elem_of. rewrite Hevs. apply elem_of_app. right.
    apply elem_of_cons. auto.
Qed.

Lemma run_before_finalize_app (s : System) (evs : list Event) :
  run_before_finalize (trace s) -> (forall x, events_in_order s evs x) ->
  run_before_finalize (trace s ++ evs).
Proof. apply run_before_finalize_step. Qed.

Lemma occ_flat_map_pos (x : Task) (e : Event) (evs : list Event) :
  e ∈ evs -> x ∈ event_tasks e -> 0 < occ x (flat_map event_tasks evs).
Proof.
  intros He Hx. apply occ_pos_elem_of in Hx.
  induction evs as [|a evs IH]; [inversion He|].
  simpl. rewrite occ_app.
  pose proof (occ_nonneg x (event_tasks a)).
  pose proof (occ_nonneg x (flat_map event_tasks evs)).
  apply elem_of_cons in He as [<-|He]; [lia|]. specialize (IH He). lia.
Qed.

Lemma no_use_after_finalize_step (tr evs : list Event) :
  no_use_after_finalize tr -> (forall x, step_events_in_order tr evs x) ->
  no_use_after_finalize (tr ++ evs).
Proof.
  intros Hn Hev pre x post e Heq He Hx.
  destruct (Hev x) as (Hlive & _ & Hlast).
  apply app_eq_inv in Heq as [(k & Htr & Hevs)|(k & Hpre & Hevs)].
  - destruct k as [|e' k].
    + simpl in Hevs. rewrite (Hlast [] post (eq_sym Hevs)) in He. inversion He.
    + simpl in Hevs. inversion Hevs; subst. clear Hevs.
      apply elem_of_app in He as [He|He].
      * apply (Hn pre x k e eq_refl He Hx).
      * pose proof (Hlive (occ_flat_map_pos x e evs He Hx)) as Hz.
        apply occ_zero_not_elem_of in Hz. apply Hz.
        apply elem_of_app. right. apply elem_of_cons. auto.
  - rewrite (Hlast k post Hevs) in He. inversion He.
Qed.

Lemma no_use_after_finalize_app (s : System) (evs : list Event) :
  no_use_after_finalize (trace s) -> (forall x, events_in_order s evs x) ->
  no_use_after_finalize (trace s ++ evs).
Proof. apply no_use_after_finalize_step. Qed.

Lemma Order_sys_run (acts : list Action) (s s' : System) :
  Inv s -> (forall x, HistInv s x) ->
  run_before_finalize (trace s) -> no_use_after_finalize (trace s) ->
  sys_run acts s = Some s' ->
  run_before_finalize (trace s') /\ no_use_after_finalize (trace s').
Proof.
  revert s. induction acts as [|a acts IH]; intros s Hinv Hh Hr Hn Hrun;
    simpl in Hrun.
  - inversion Hrun; subst. auto.
  - destruct (sys_step a s) as [s1|] eqn:Hstep; [|discriminate].
    destruct (Order_sys_step a s s1 Hinv Hh Hstep) as (evs & Htr & Hev).
    apply (IH s1); try assumption.
    + apply (Inv_sys_step a s); assumption.
    + intros x. apply (Hist_sys_step a s s1 x Hinv (Hh x) Hstep).
    + rewrite Htr. apply run_before_finalize_app; assumption.
    + rewrite Htr. apply no_use_after_finalize_app; assumption.
Qed.

Lemma reachable_Hist (old_start_time old_total_wait_time num_threads : Z)
    (plain_run : nat -> bool) (acts : list Action) (s : System) (x : Task) :
  0 <= num_threads < 2 ^ 64 ->
  sys_run acts (init_system old_start_time old_total_wait_time num_threads plain_run)
  = Some s ->
  HistInv s x /\ (x ∈ submitted acts -> accounted s x).
Proof.
  intros Hn Hrun.
  destruct (Hist_sys_run acts _ s x
              (Inv_init old_start_time old_total_wait_time num_threads plain_run Hn)
              (Hist_init old_start_time old_total_wait_time num_threads plain_run x Hn) Hrun)
    as [Hh Hacc].
  split; [exact Hh|]. intros Hin. apply Hacc. right. exact Hin.
Qed.

Lemma reachable_Order (old_start_time old_total_wait_time num_threads : Z)
    (plain_run : nat -> bool) (acts : list Action) (s : System) :
  0 <= num_threads < 2 ^ 64 ->
  sys_run acts (init_system old_start_time old_total_wait_time num_threads plain_run)
  = Some s ->
  run_before_finalize (trace s) /\ no_use_after_finalize (trace s).
Proof.
  intros Hn Hrun.
  apply (Order_sys_run acts
           (init_system old_start_time old_total_wait_time num_threads plain_run) s).
  - apply Inv_init. exact Hn.
  - intros x. apply Hist_init. exact Hn.
  - intros pre x post Heq. destruct pre; discriminate.
  - intros pre x post e Heq. destruct pre; discriminate.
  - exact Hrun.
Qed.

Lemma sys_run_app (acts1 acts2 : list Action) (s : System) :
  sys_run (acts1 ++ acts2) s
  = match sys_run acts1 s with
    | Some s1 => sys_run acts2 s1
    | None => None
    end.
Proof.
  revert s. induction acts1 as [|a acts1 IH]; intros s; simpl; [reflexivity|].
  destruct (sys_step a s) as [s1|]; [apply IH | reflexivity].
Qed.

Lemma submitted_app (acts1 acts2 : list Action) :
  submitted (acts1 ++ acts2) = submitted acts1 ++ submitted acts2.
Proof. unfold submitted. apply flat_map_app. Qed.

Lemma occ_pcs_waiting (f : StealPc -> list Task) (x : Task) (l : list StealPc) :
  (forall pc, pc_waiting pc = true -> f pc = []) ->
  Forall (fun pc => pc_waiting pc = true) l -> occ_pcs f x l = 0.
Proof.
  intros Hf. induction 1 as [|pc l Hpc _ IH]; [reflexivity|].
  rewrite occ_pcs_cons, (Hf pc Hpc), IH. reflexivity.
Qed.

Lemma waiting_workers_Forall (l : list StealPc) :
  Forall (fun pc => pc_waiting pc = true) l ->
  waiting_workers l = Z.of_nat (length l).
Proof.
  induction 1 as [|pc l Hpc _ IH]; [reflexivity|].
  cbn [waiting_workers length]. rewrite Hpc, IH. lia.
Qed.

(** X14: in every reachable state a task has been run at most once, it
    has been finalized only if it has been run, every [Finalize] in the
    events comes after the [Run] of its task, and a task that is still in
    the queue has not been run. *)
Theorem task_runs_once_before_Finalize
    (old_start_time old_total_wait_time num_threads : Z)
    (plain_run : nat -> bool) (acts : list Action) (s : System) (x : Task) :
  0 <= num_threads < 2 ^ 64 ->
  sys_run acts (init_system old_start_time old_total_wait_time num_threads plain_run)
  = Some s ->
  occ (EvRun x) (trace s) <= 1
  /\ occ (EvFinalize x) (trace s) <= occ (EvRun x) (trace s)
  /\ (x ∈ tasks_ (pool (wpool s)) -> EvRun x ∉ trace s)
  /\ (forall pre post, trace s = pre ++ EvFinalize x :: post -> EvRun x ∈ pre).
Proof.
  intros Hn Hrun.
  destruct (reachable_Hist _ _ _ _ _ _ x Hn Hrun) as [[HOnce HDone _] _].
  destruct (reachable_Order _ _ _ _ _ _ Hn Hrun) as [Hr _].
  pose proof (occ_nonneg x (tasks_ (pool (wpool s)))).
  pose proof (occ_nonneg (EvRun x) (trace s)).
  pose proof (occ_pcs_nonneg pc_before_run x (pcs s)).
  pose proof (occ_pcs_nonneg pc_pending x (pcs s)).
  pose proof (occ_pcs_nonneg wait_before_run x (callers s)).
  pose proof (occ_pcs_nonneg wait_after_run x (callers s)).
  split; [lia|]. split; [lia|]. split.
  - intros Hin. apply occ_pos_elem_of in Hin. apply occ_zero_not_elem_of. lia.
  - intros pre post Heq. apply (Hr pre x post Heq).
Qed.

Lemma task_runs_once_before_Finalize_witness :
  exists s,
    sys_run [ActAddTask 1%nat; ActStartWorkers 0; ActWorker 0 1 1; ActWorker 0 0 0;
             ActWorker 0 0 0; ActWorker 0 0 0; ActWorker 0 0 0; ActWorker 0 0 0;
             ActWorker 0 0 0; ActWorker 0 0 0]
      (init_system 0 0 1 (fun _ => false)) = Some s
    /\ pcs s = [SP_GetTask]
    /\ occ (EvFinalize 1%nat) (trace s) = 1
    /\ occ (EvFinalize 1%nat) (trace s) <= occ (EvRun 1%nat) (trace s) <= 1.
Proof.
  eexists. split; [vm_compute; reflexivity|]. split; [reflexivity|].
  split; [reflexivity|].
  match goal with
  | |- occ _ (trace ?s) <= _ <= _ =>
      destruct (task_runs_once_before_Finalize 0 0 1 (fun _ => false)
        [ActAddTask 1%nat; ActStartWorkers 0; ActWorker 0 1 1; ActWorker 0 0 0;
         ActWorker 0 0 0; ActWorker 0 0 0; ActWorker 0 0 0; ActWorker 0 0 0;
         ActWorker 0 0 0; ActWorker 0 0 0] s 1%nat) as (H1 & H2 & _)
  end.
  - lia.
  - vm_compute. reflexivity.
  - split; [exact H2 | exact H1].
Defined.

(** X15: no use after [Finalize].  In the events of every run, no event
    after the [Finalize] of a task names that task: it is not run, not
    stolen from, not stolen for, its [ref_count_] is not changed and it is
    not finalized again. *)
Theorem no_event_after_Finalize
    (old_start_time old_total_wait_time num_threads : Z)
    (plain_run : nat -> bool) (acts : list Action) (s : System) :
  0 <= num_threads < 2 ^ 64 ->
  sys_run acts (init_system old_start_time old_total_wait_time num_threads plain_run)
  = Some s ->
  forall pre x post e,
    trace s = pre ++ EvFinalize x :: post -> e ∈ post -> x ∉ event_tasks e.
Proof.
  intros Hn Hrun.
  destruct (reachable_Order _ _ _ _ _ _ Hn Hrun) as [_ Hno]. exact Hno.
Qed.

Lemma no_event_after_Finalize_witness :
  exists s,
    sys_run [ActAddTask 1%nat; ActAddTask 2%nat; ActStartWorkers 0;
             ActWorker 0 1 1; ActWorker 0 0 0; ActWorker 0 0 0; ActWorker 0 0 0;
             ActWorker 0 0 0; ActWorker 0 0 0; ActWorker 0 0 0; ActWorker 0 0 0;
             ActWorker 0 0 0; ActWorker 0 0 0]
      (init_system 0 0 1 (fun _ => false)) = Some s
    /\ exists pre,
         trace s
         = pre ++ EvFinalize 1%nat
                  :: [EvLock task_queue_lock_; EvUnlock task_queue_lock_;
                      EvLock work_steal_lock_; EvRefInc 2%nat 1;
                      EvUnlock work_steal_lock_; EvRun 2%nat]
         /\ Forall (fun e => 1%nat ∉ event_tasks e)
              [EvLock task_queue_lock_; EvUnlock task_queue_lock_;
               EvLock work_steal_lock_; EvRefInc 2%nat 1;
               EvUnlock work_steal_lock_; EvRun 2%nat].
Proof.
  eexists. split; [vm_compute; reflexivity|].
  match goal with
  | |- exists pre, trace ?s = _ /\ _ =>
      pose proof (no_event_after_Finalize 0 0 1 (fun _ => false)
        [ActAddTask 1%nat; ActAddTask 2%nat; ActStartWorkers 0;
         ActWorker 0 1 1; ActWorker 0 0 0; ActWorker 0 0 0; ActWorker 0 0 0;
         ActWorker 0 0 0; ActWorker 0 0 0; ActWorker 0 0 0; ActWorker 0 0 0;
         ActWorker 0 0 0; ActWorker 0 0 0] s
        ltac:(lia) ltac:(vm_compute; reflexivity)) as Hno
  end.
  set (pre := [EvLock task_queue_lock_; EvUnlock task_queue_lock_;
               EvLock task_queue_lock_; EvUnlock task_queue_lock_;
               EvLock task_queue_lock_; EvBroadcast task_queue_condition_;
               EvUnlock task_queue_lock_; EvLock task_queue_lock_;
               EvUnlock task_queue_lock_; EvLock work_steal_lock_;
               EvRefInc 1%nat 1; EvUnlock work_steal_lock_;
               EvRun 1%nat; EvLock task_queue_lock_; EvUnlock task_queue_lock_;
               EvLock work_steal_lock_; EvRefDec 1%nat 0;
               EvUnlock work_steal_lock_]).
  exists pre. split; [reflexivity|]. apply Forall_forall. intros e He.
  match type of He with
  | e ∈ ?post => apply (Hno pre 1%nat post e); [reflexivity | exact He]
  end.
Defined.

(** X16: no task is lost.  In every reachable state a task that was handed
    to [AddTask] is in exactly one place: once in the queue, in the hands
    of one thread that took it from the queue, referenced by the workers
    that run it or steal from it, about to be finalized by one worker, or
    finalized once.  When every worker and every caller of [Wait] is
    between two tasks, the task is still in the queue and has not been
    run, or it has been run once and finalized once. *)
Theorem submitted_task_is_never_lost
    (old_start_time old_total_wait_time num_threads : Z)
    (plain_run : nat -> bool) (acts : list Action) (s : System) (x : Task) :
  0 <= num_threads < 2 ^ 64 ->
  sys_run acts (init_system old_start_time old_total_wait_time num_threads plain_run)
  = Some s ->
  x ∈ submitted acts ->
  occ x (tasks_ (pool (wpool s))) + occ_pcs pc_unregistered x (pcs s)
  + occ_pcs wait_pc_tasks x (callers s)
  + (if 0 <? ref_count_ s x then 1 else 0)
  + occ_pcs pc_pending x (pcs s) + occ (EvFinalize x) (trace s) = 1
  /\ (forallb pc_idle (pcs s) = true ->
      forallb wait_pc_idle (callers s) = true ->
      (occ x (tasks_ (pool (wpool s))) = 1
       /\ occ (EvRun x) (trace s) = 0 /\ occ (EvFinalize x) (trace s) = 0)
      \/ (occ x (tasks_ (pool (wpool s))) = 0
          /\ occ (EvRun x) (trace s) = 1 /\ occ (EvFinalize x) (trace s) = 1)).
Proof.
  intros Hn Hrun Hin.
  pose proof (reachable_Inv _ _ _ _ _ _ Hn Hrun) as Hinv.
  destruct (reachable_Hist _ _ _ _ _ _ x Hn Hrun) as [[HOnce HDone HHeld] Hacc].
  specialize (Hacc Hin). unfold accounted in Hacc.
  destruct (inv_task s Hinv x) as [HA HB HC _ _ _].
  pose proof (occ_nonneg x (tasks_ (pool (wpool s)))).
  pose proof (occ_nonneg (EvRun x) (trace s)).
  pose proof (occ_nonneg (EvFinalize x) (trace s)).
  pose proof (occ_pcs_nonneg pc_unregistered x (pcs s)).
  pose proof (occ_pcs_nonneg pc_registered x (pcs s)).
  pose proof (occ_pcs_nonneg pc_victim x (pcs s)).
  pose proof (occ_pcs_nonneg pc_pending x (pcs s)).
  pose proof (occ_pcs_nonneg pc_before_run x (pcs s)).
  pose proof (occ_pcs_nonneg wait_pc_tasks x (callers s)).
  pose proof (occ_pcs_nonneg wait_before_run x (callers s)).
  pose proof (occ_pcs_nonneg wait_after_run x (callers s)).
  split.
  - destruct (Z.ltb_spec 0 (ref_count_ s x)); lia.
  - intros Hidle Hcidle.
    rewrite (occ_pcs_idle pc_idle pc_unregistered x (pcs s)) in *
      by (try assumption; intros pc; destruct pc as [| | | | | | | | | | | | | |[]];
          simpl; congruence).
    rewrite (occ_pcs_idle pc_idle pc_registered x (pcs s)) in *
      by (try assumption; intros pc; destruct pc as [| | | | | | | | | | | | | |[]];
          simpl; congruence).
    rewrite (occ_pcs_idle pc_idle pc_victim x (pcs s)) in *
      by (try assumption; intros pc; destruct pc as [| | | | | | | | | | | | | |[]];
          simpl; congruence).
    rewrite (occ_pcs_idle pc_idle pc_pending x (pcs s)) in *
      by (try assumption; intros pc; destruct pc as [| | | | | | | | | | | | | |[]];
          simpl; congruence).
    rewrite (occ_pcs_idle wait_pc_idle wait_pc_tasks x (callers s)) in *
      by (try assumption; intros pc; destruct pc; simpl; congruence).
    lia.
Qed.

Lemma submitted_task_is_never_lost_witness :
  exists s,
    sys_run [ActAddTask 1%nat; ActAddTask 2%nat; ActStartWorkers 0;
             ActWorker 0 1 1; ActWorker 0 0 0; ActWorker 0 0 0; ActWorker 0 0 0;
             ActWorker 0 0 0; ActWorker 0 0 0; ActWorker 0 0 0]
      (init_system 0 0 1 (fun _ => false)) = Some s
    /\ pcs s = [SP_GetTask]
    /\ tasks_ (pool (wpool s)) = [2%nat]
    /\ occ (EvRun 1%nat) (trace s) = 1 /\ occ (EvFinalize 1%nat) (trace s) = 1.
Proof.
  eexists. split; [vm_compute; reflexivity|]. split; [reflexivity|].
  split; [reflexivity|].
  match goal with
  | |- occ _ (trace ?s) = 1 /\ _ =>
      destruct (submitted_task_is_never_lost 0 0 1 (fun _ => false)
        [ActAddTask 1%nat; ActAddTask 2%nat; ActStartWorkers 0;
         ActWorker 0 1 1; ActWorker 0 0 0; ActWorker 0 0 0; ActWorker 0 0 0;
         ActWorker 0 0 0; ActWorker 0 0 0; ActWorker 0 0 0] s 1%nat)
        as (_ & Hidle)
  end.
  - lia.
  - vm_compute. reflexivity.
  - vm_compute. apply elem_of_cons. auto.
  - destruct Hidle as [(Hq & _)|(_ & Hr & Hf)];
      [reflexivity | reflexivity | vm_compute in Hq; discriminate | auto].
Defined.

(** X17: the second loop of [Wait].  A caller of [Wait] that tests the
    completion condition returns exactly when the pool is shutting down, or
    the queue is empty and every worker is blocked in the wait of
    [GetTask]; otherwise it blocks on [completion_condition_].  When it
    returns from a pool that is not shutting down, every task that was
    handed to [AddTask] has been run once and finalized once, except the
    tasks that another caller of [Wait] holds. *)
Theorem Wait_returns_when_work_is_done
    (old_start_time old_total_wait_time num_threads : Z)
    (plain_run : nat -> bool) (acts : list Action) (s s' : System) (j : nat)
    (pc : WaitPc) :
  0 <= num_threads < 2 ^ 64 ->
  sys_run acts (init_system old_start_time old_total_wait_time num_threads plain_run)
  = Some s ->
  callers s !! j = Some pc -> pc = Wait_Lock \/ pc = Wait_Blocked ->
  sys_step (ActCaller j) s = Some s' ->
  (callers s' !! j = Some Wait_Return
   <-> shutting_down_ (pool (wpool s)) = true
       \/ (tasks_ (pool (wpool s)) = []
           /\ Forall (fun pc => pc_waiting pc = true) (pcs s)))
  /\ (callers s' !! j = Some Wait_Return \/ callers s' !! j = Some Wait_Blocked)
  /\ (callers s' !! j = Some Wait_Return ->
      shutting_down_ (pool (wpool s)) = false ->
      forall x, x ∈ submitted acts ->
        (occ (EvRun x) (trace s') = 1 /\ occ (EvFinalize x) (trace s') = 1)
        \/ x ∈ flat_map wait_pc_tasks (callers s')).
Proof.
  intros Hn Hrun Hl Hpc Hstep.
  pose proof (reachable_Inv _ _ _ _ _ _ Hn Hrun) as Hinv.
  destruct (reachable_QueueInv _ _ _ _ _ _ Hn Hrun) as [Hw _].
  pose proof (Forall2_length _ _ _ (inv_threads s Hinv)) as Hth.
  pose proof (lookup_lt_Some _ _ _ Hl) as Hj.
  assert (Hrun' : sys_run (acts ++ [ActCaller j])
                    (init_system old_start_time old_total_wait_time num_threads plain_run)
                  = Some s').
  { rewrite sys_run_app, Hrun. cbn [sys_run]. rewrite Hstep. reflexivity. }
  assert (Hall : waiting_count_ (pool (wpool s)) = GetThreadCount (pool (wpool s))
                 <-> Forall (fun pc => pc_waiting pc = true) (pcs s)).
  { unfold GetThreadCount. rewrite Hw, Hth. split.
    - apply waiting_workers_all.
    - apply waiting_workers_Forall. }
  assert (Hs' : exists evs pc1,
             s' = mkSystem (set_pool (pool (wpool s)) (wpool s)) (ref_count_ s)
                    (pcs s) (<[j := pc1]> (callers s)) (wait_finalized s)
                    (trace s ++ evs)
             /\ Wait_completion_loop (pool (wpool s))
                = (match pc1 with
                   | Wait_Return => [EvUnlock task_queue_lock_]
                   | _ => [EvWait completion_condition_]
                   end, pc1)
             /\ (pc1 = Wait_Return \/ pc1 = Wait_Blocked)).
  { cbn [sys_step] in Hstep. rewrite Hl in Hstep.
    destruct Hpc as [-> | ->]; cbn [Wait_step] in Hstep;
      unfold Wait_completion_loop in *;
      destruct (_ && _); inversion Hstep; subst; clear Hstep;
      eexists _, _; (split; [reflexivity|]); auto. }
  destruct Hs' as (evs & pc1 & -> & Hloop & Hpc1).
  cbn [callers trace pcs wpool pool set_pool] in *.
  rewrite list_lookup_insert_eq by exact Hj.
  unfold Wait_completion_loop in Hloop.
  split; [|split].
  - destruct (shutting_down_ (pool (wpool s))) eqn:Hd; simpl in Hloop.
    + inversion Hloop; subst. split; auto.
    + destruct (Z.eqb_spec (waiting_count_ (pool (wpool s)))
                  (GetThreadCount (pool (wpool s)))) as [Hc|Hc];
        simpl in Hloop.
      * destruct (tasks_ (pool (wpool s))) as [|t q] eqn:Hq; simpl in Hloop;
          inversion Hloop; subst.
        -- split; [intros _; right; split; [reflexivity | apply Hall; exact Hc] | auto].
        -- split; [discriminate|]. intros [Hf|[Hf _]]; discriminate.
      * inversion Hloop; subst. split; [discriminate|].
        intros [Hf|[_ Hf]]; [discriminate|]. apply Hall in Hf. contradiction.
  - destruct Hpc1 as [-> | ->]; auto.
  - intros Hret Hd x Hin. inversion Hret; subst pc1. clear Hret.
    rewrite Hd in Hloop. simpl in Hloop.
    destruct (Z.eqb_spec (waiting_count_ (pool (wpool s)))
                (GetThreadCount (pool (wpool s)))) as [Hc|Hc];
      simpl in Hloop; [|discriminate].
    destruct (tasks_ (pool (wpool s))) as [|t q] eqn:Hq; simpl in Hloop;
      [|discriminate].
    apply Hall in Hc.
    pose proof (reachable_Inv _ _ _ _ _ _ Hn Hrun') as Hinv'.
    destruct (reachable_Hist _ _ _ _ _ _ x Hn Hrun') as [[HOnce HDone HHeld] Hacc].
    rewrite submitted_app in Hacc. simpl in Hacc. rewrite app_nil_r in Hacc.
    specialize (Hacc Hin). unfold accounted in Hacc.
    destruct (inv_task _ Hinv' x) as [HA HB HC _ _ _].
    cbn [callers trace pcs wpool pool set_pool ref_count_] in *.
    rewrite Hq in *.
    rewrite (occ_pcs_waiting pc_unregistered x (pcs s)) in *
      by (try assumption; intros pc0; destruct pc0 as [| | | | | | | | | | | | | |[]];
          simpl; congruence).
    rewrite (occ_pcs_waiting pc_registered x (pcs s)) in *
      by (try assumption; intros pc0; destruct pc0 as [| | | | | | | | | | | | | |[]];
          simpl; congruence).
    rewrite (occ_pcs_waiting pc_victim x (pcs s)) in *
      by (try assumption; intros pc0; destruct pc0 as [| | | | | | | | | | | | | |[]];
          simpl; congruence).
    rewrite (occ_pcs_waiting pc_pending x (pcs s)) in *
      by (try assumption; intros pc0; destruct pc0 as [| | | | | | | | | | | | | |[]];
          simpl; congruence).
    rewrite (occ_pcs_waiting pc_before_run x (pcs s)) in *
      by (try assumption; intros pc0; destruct pc0 as [| | | | | | | | | | | | | |[]];
          simpl; congruence).
    pose proof (occ_nonneg (EvRun x) (trace s ++ evs)).
    pose proof (occ_nonneg (EvFinalize x) (trace s ++ evs)).
    pose proof (occ_pcs_nonneg wait_pc_tasks x (<[j := Wait_Return]> (callers s))).
    pose proof (occ_pcs_nonneg wait_before_run x (<[j := Wait_Return]> (callers s))).
    pose proof (occ_pcs_nonneg wait_after_run x (<[j := Wait_Return]> (callers s))).
    simpl occ in *.
    destruct (decide (0 < occ_pcs wait_pc_tasks x (<[j := Wait_Return]> (callers s))))
      as [Hheld|Hnot].
    + right. apply occ_pos_elem_of. exact Hheld.
    + left. lia.
Qed.

Lemma Wait_returns_when_work_is_done_witness :
  exists s s',
    sys_run [ActAddTask 1%nat; ActStartWorkers 0; ActWorker 0 1 1; ActWorker 0 0 0;
             ActWorker 0 0 0; ActWorker 0 0 0; ActWorker 0 0 0; ActWorker 0 0 0;
             ActWorker 0 0 0; ActWorker 0 0 0; ActWorker 0 7 7;
             ActWait true; ActCaller 0]
      (init_system 0 0 1 (fun _ => false)) = Some s
    /\ sys_step (ActCaller 0) s = Some s'
    /\ pcs s = [SP_InGetTask 7] /\ callers s = [Wait_Lock]
    /\ callers s' = [Wait_Return]
    /\ occ (EvRun 1%nat) (trace s') = 1 /\ occ (EvFinalize 1%nat) (trace s') = 1.
Proof.
  eexists. eexists. split; [vm_compute; reflexivity|].
  match goal with |- sys_step _ ?s = _ /\ _ => set (st := s) end.
  split; [vm_compute; reflexivity|].
  split; [reflexivity|]. split; [reflexivity|]. split; [reflexivity|].
  match goal with
  | |- occ _ (trace ?s') = 1 /\ _ =>
      destruct (Wait_returns_when_work_is_done 0 0 1 (fun _ => false)
        [ActAddTask 1%nat; ActStartWorkers 0; ActWorker 0 1 1; ActWorker 0 0 0;
         ActWorker 0 0 0; ActWorker 0 0 0; ActWorker 0 0 0; ActWorker 0 0 0;
         ActWorker 0 0 0; ActWorker 0 0 0; ActWorker 0 7 7;
         ActWait true; ActCaller 0] st s' 0%nat Wait_Lock)
        as (_ & _ & Hdone)
  end.
  - lia.
  - vm_compute. reflexivity.
  - reflexivity.
  - left. reflexivity.
  - vm_compute. reflexivity.
  - destruct (Hdone eq_refl eq_refl 1%nat) as [Hd|Hd].
    + vm_compute. apply elem_of_cons. auto.
    + exact Hd.
    + vm_compute in Hd. inversion Hd.
Defined.

(** ** The destruction of the work-stealing pool *)



Lemma no_dtor_events_destroy (evs : list Event) (m : Mutex) :
  forallb (fun e => negb (is_dtor_event e)) evs = true -> EvDestroy m ∉ evs.
Proof.
  induction evs as [|e evs IH]; intros H Hin; [inversion Hin|].
  simpl in H. apply andb_true_iff in H as [He H].
  apply elem_of_cons in Hin as [Heq|Hin];
    [subst e; simpl in He; discriminate | exact (IH H Hin)].
Qed.

















(** ** The plain pool and the threads of its workers *)

Lemma wpc_tasks_split (x : Task) (l : list WorkerPc) :
  occ_pcs wpc_tasks x l = occ_pcs wpc_before_run x l + occ_pcs wpc_after_run x l.
Proof.
  induction l as [|pc l IH]; [reflexivity|].
  rewrite !occ_pcs_cons, IH. destruct pc; simpl; repeat case_decide; lia.
Qed.

Lemma step_events_in_order_queue (tr evs : list Event) (x : Task) :
  Forall is_pool_event evs -> step_events_in_order tr evs x.
Proof.
  intros Hev. unfold step_events_in_order. rewrite (queue_events_tasks evs Hev).
  rewrite (queue_events_occ (EvFinalize x) evs Hev) by (simpl; tauto).
  split; [simpl; lia|]. split; [lia|].
  intros pre post Heq. exfalso.
  apply (queue_events_no_finalize evs Hev x). rewrite Heq.
  apply elem_of_app. right. apply elem_of_cons. auto.
Qed.

Ltac pool_nonneg s x :=
  pose proof (occ_pcs_nonneg wait_pc_tasks x (pcallers s));
  pose proof (occ_pcs_nonneg wait_before_run x (pcallers s));
  pose proof (occ_pcs_nonneg wait_after_run x (pcallers s));
  pose proof (wait_tasks_split x (pcallers s));
  pose proof (occ_pcs_nonneg wpc_tasks x (ppcs s));
  pose proof (occ_pcs_nonneg wpc_before_run x (ppcs s));
  pose proof (occ_pcs_nonneg wpc_after_run x (ppcs s));
  pose proof (wpc_tasks_split x (ppcs s));
  pose proof (occ_nonneg x (tasks_ (ppool s)));
  pose proof (occ_nonneg (EvRun x) (ptrace s));
  pose proof (occ_nonneg (EvFinalize x) (ptrace s)).

Ltac pool_facts Hinv Hl x :=
  let HS := fresh "HS" in
  let HO := fresh "HO" in
  let HD := fresh "HD" in
  destruct Hinv as [HS HO HD];
  match type of Hl with
  | ppcs ?s !! ?i = _ =>
      pool_nonneg s x;
      pose proof (occ_pcs_nonneg wpc_tasks x (delete i (ppcs s)));
      pose proof (occ_pcs_nonneg wpc_before_run x (delete i (ppcs s)));
      pose proof (occ_pcs_nonneg wpc_after_run x (delete i (ppcs s)));
      pose proof (wpc_tasks_split x (delete i (ppcs s)));
      pose proof (occ_pcs_lookup wpc_tasks x _ _ _ Hl);
      pose proof (occ_pcs_lookup wpc_before_run x _ _ _ Hl);
      pose proof (occ_pcs_lookup wpc_after_run x _ _ _ Hl)
  | pcallers ?s !! ?j = _ =>
      pool_nonneg s x;
      pose proof (occ_pcs_nonneg wait_pc_tasks x (delete j (pcallers s)));
      pose proof (occ_pcs_nonneg wait_before_run x (delete j (pcallers s)));
      pose proof (occ_pcs_nonneg wait_after_run x (delete j (pcallers s)));
      pose proof (wait_tasks_split x (delete j (pcallers s)));
      pose proof (occ_pcs_lookup wait_pc_tasks x _ _ _ Hl);
      pose proof (occ_pcs_lookup wait_before_run x _ _ _ Hl);
      pose proof (occ_pcs_lookup wait_after_run x _ _ _ Hl)
  end.

Ltac pool_cases :=
  cbn [occ wpc_tasks wpc_before_run wpc_after_run GetTask_wpc
       wait_pc_tasks wait_before_run wait_after_run] in *;
  repeat case_decide; simplify_eq; try lia; try congruence.

Ltac pool_goal Hl :=
  split;
  [ constructor
  | split;
    [ unfold pool_accounted; intros ?
    | unfold step_events_in_order; cbn [flat_map event_tasks app];
      split; [|split; [|last_event]] ] ];
  cbn [ppool ppcs pcallers ptrace tasks_ set_tasks];
  rewrite ?(occ_pcs_insert _ _ _ _ _ _ Hl), ?occ_app.

Lemma Pool_worker_step (s : PoolSystem) (i : nat) (t1 t2 : Z) (pc : WorkerPc)
    (p1 : ThreadPool) (evs : list Event) (pc1 : WorkerPc) (x : Task) :
  PoolInv s x -> ppcs s !! i = Some pc ->
  ThreadPoolWorker_Run_step t1 t2 pc (ppool s) = (p1, evs, pc1) ->
  let s' := mkPoolSystem p1 (<[i := pc1]> (ppcs s)) (pcallers s) (ptrace s ++ evs) in
  PoolInv s' x /\ (pool_accounted s x -> pool_accounted s' x)
  /\ step_events_in_order (ptrace s) evs x.
Proof.
  intros Hinv Hl Hstep. cbv zeta.
  destruct pc; cbn [ThreadPoolWorker_Run_step] in Hstep.
  - pose proof (GetTask_enter_effect t1 (ppool s)) as He.
    destruct (GetTask_enter t1 (ppool s)) as [[p2 evs1] st].
    destruct He as (Hth & Hev & Hq). inversion Hstep; subst; clear Hstep.
    pool_facts Hinv Hl x.
    split; [|split; [|apply step_events_in_order_queue; exact Hev]];
      [constructor | unfold pool_accounted; intros ?];
      cbn [ppool ppcs pcallers ptrace];
      rewrite ?(occ_pcs_insert _ _ _ _ _ _ Hl), ?occ_app; queue_occ Hev;
      destruct st as [[t|]|ws']; rewrite ?Hq in *; pool_cases.
  - pose proof (GetTask_resume_effect wait_start t1 t2 (ppool s)) as He.
    destruct (GetTask_resume wait_start t1 t2 (ppool s)) as [[p2 evs1] st].
    destruct He as (Hth & Hev & Hq). inversion Hstep; subst; clear Hstep.
    pool_facts Hinv Hl x.
    split; [|split; [|apply step_events_in_order_queue; exact Hev]];
      [constructor | unfold pool_accounted; intros ?];
      cbn [ppool ppcs pcallers ptrace];
      rewrite ?(occ_pcs_insert _ _ _ _ _ _ Hl), ?occ_app; queue_occ Hev;
      destruct st as [[t|]|ws']; rewrite ?Hq in *; pool_cases.
  - inversion Hstep; subst; clear Hstep.
    pool_facts Hinv Hl x. pool_goal Hl; pool_cases.
  - inversion Hstep; subst; clear Hstep.
    pool_facts Hinv Hl x. pool_goal Hl; pool_cases.
  - inversion Hstep; subst; clear Hstep.
    pool_facts Hinv Hl x. pool_goal Hl; pool_cases.
Qed.

Lemma Pool_step_caller (s : PoolSystem) (j : nat) (pc : WaitPc) (p1 : ThreadPool)
    (evs : list Event) (pc1 : WaitPc) (x : Task) :
  PoolInv s x -> pcallers s !! j = Some pc ->
  Wait_step pc (ppool s) = (p1, evs, pc1) ->
  let s' := mkPoolSystem p1 (ppcs s) (<[j := pc1]> (pcallers s)) (ptrace s ++ evs) in
  PoolInv s' x /\ (pool_accounted s x -> pool_accounted s' x)
  /\ step_events_in_order (ptrace s) evs x.
Proof.
  intros Hinv Hl Hstep. cbv zeta. destruct pc; cbn [Wait_step] in Hstep.
  - unfold TryGetTask in Hstep.
    destruct (TryGetTaskLocked_cases (ppool s))
      as [(task & rest & Hs & Hq & Heq)|[Hc Heq]];
      rewrite Heq in Hstep; inversion Hstep; subst; clear Hstep;
      pool_facts Hinv Hl x; pool_goal Hl; rewrite ?Hq in *; pool_cases.
  - inversion Hstep; subst; clear Hstep.
    pool_facts Hinv Hl x. pool_goal Hl; pool_cases.
  - inversion Hstep; subst; clear Hstep.
    pool_facts Hinv Hl x. pool_goal Hl; pool_cases.
  - unfold Wait_completion_loop in Hstep.
    destruct (_ && _); inversion Hstep; subst; clear Hstep;
      pool_facts Hinv Hl x; pool_goal Hl; pool_cases.
  - unfold Wait_completion_loop in Hstep.
    destruct (_ && _); inversion Hstep; subst; clear Hstep;
      pool_facts Hinv Hl x; pool_goal Hl; pool_cases.
  - inversion Hstep; subst; clear Hstep.
    pool_facts Hinv Hl x. pool_goal Hl; pool_cases.
Qed.

Lemma Pool_step_pool (s : PoolSystem) (p1 : ThreadPool) (evs : list Event) (x : Task) :
  PoolInv s x ->
  tasks_ p1 = tasks_ (ppool s) ->
  Forall is_pool_event evs ->
  let s' := pool_with (p1, evs) s in
  PoolInv s' x /\ (pool_accounted s x -> pool_accounted s' x)
  /\ step_events_in_order (ptrace s) evs x.
Proof.
  intros [HS HO HD] Hq Hev. cbv zeta. unfold pool_with, pool_accounted.
  simpl fst. simpl snd.
  split; [|split; [|apply step_events_in_order_queue; exact Hev]];
    [constructor|]; cbn [ppool ppcs pcallers ptrace];
    rewrite ?occ_app, ?Hq; queue_occ Hev; intros; lia.
Qed.

Lemma occ_pcs_le {St} (f g : St -> list Task) (x : Task) (l : list St) :
  (forall pc, occ x (f pc) <= occ x (g pc)) -> occ_pcs f x l <= occ_pcs g x l.
Proof.
  intros Hf. induction l as [|pc l IH]; [unfold occ_pcs; simpl; lia|].
  rewrite !occ_pcs_cons. specialize (Hf pc). lia.
Qed.

Lemma Pool_step_AddTask (s : PoolSystem) (task x : Task) :
  PoolInv s x -> PoolInv s task -> pool_fresh_task task s = true ->
  let s' := pool_with (AddTask task (ppool s)) s in
  PoolInv s' x /\ (pool_accounted s x -> pool_accounted s' x)
  /\ pool_accounted s' task
  /\ step_events_in_order (ptrace s) (snd (AddTask task (ppool s))) x.
Proof.
  intros [HS HO HD] [HS' HO' HD'] Hfresh. cbv zeta. unfold pool_fresh_task in Hfresh.
  apply andb_true_iff in Hfresh as [Hfresh Hfin].
  apply andb_true_iff in Hfresh as [Hfresh Hncl].
  apply andb_true_iff in Hfresh as [Hnq Hnpc].
  apply bool_decide_eq_true in Hnq, Hnpc, Hncl, Hfin.
  apply occ_zero_not_elem_of in Hnq, Hncl, Hfin, Hnpc.
  fold (occ_pcs wait_pc_tasks task (pcallers s)) in Hncl.
  fold (occ_pcs wpc_tasks task (ppcs s)) in Hnpc.
  assert (Hev : Forall is_pool_event (snd (AddTask task (ppool s)))).
  { unfold AddTask. simpl. destruct (negb _); repeat constructor. }
  pool_nonneg s x. pool_nonneg s task.
  unfold pool_with, pool_accounted.
  split; [|split; [|split; [|apply step_events_in_order_queue; exact Hev]]];
    [constructor| intros ? |];
    cbn [ppool ppcs pcallers ptrace];
    rewrite ?occ_app; queue_occ Hev; simpl tasks_; rewrite ?occ_app;
    cbn [occ]; repeat case_decide; subst; try lia; try congruence.
Qed.

Lemma Pool_step_call_Wait (s : PoolSystem) (do_work : bool) (x : Task) :
  PoolInv s x ->
  let s' := mkPoolSystem (ppool s) (ppcs s) (pcallers s ++ [Wait_entry do_work])
              (ptrace s) in
  PoolInv s' x /\ (pool_accounted s x -> pool_accounted s' x).
Proof.
  intros [HS HO HD]. cbv zeta. unfold pool_accounted.
  split; [constructor|];
    cbn [ppool ppcs pcallers ptrace];
    rewrite ?occ_pcs_snoc;
    cbn [Wait_entry wait_pc_tasks wait_before_run wait_after_run occ];
    intros; lia.
Qed.

Lemma Pool_sys_step (a : Action) (s s' : PoolSystem) :
  (forall x, PoolInv s x) -> pool_step a s = Some s' ->
  exists evs,
    ptrace s' = ptrace s ++ evs
    /\ forall x,
         PoolInv s' x /\ (pool_accounted s x -> pool_accounted s' x)
         /\ (a = ActAddTask x -> pool_accounted s' x)
         /\ step_events_in_order (ptrace s) evs x.
Proof.
  intros Hinv Hstep.
  destruct a as [i t1 t2|task|now| | |do_work|j]; cbn [pool_step] in Hstep.
  - destruct (ppcs s !! i) as [pc|] eqn:Hl; [|discriminate].
    destruct (ThreadPoolWorker_Run_step t1 t2 pc (ppool s)) as [[p1 evs] pc1] eqn:Hw.
    inversion Hstep; subst. exists evs. split; [reflexivity|]. intros x.
    destruct (Pool_worker_step s i t1 t2 pc _ _ _ x (Hinv x) Hl Hw) as (H1 & H2 & H3).
    split; [exact H1 | split; [exact H2 | split; [discriminate | exact H3]]].
  - destruct (pool_fresh_task task s) eqn:Hfresh; [|discriminate].
    inversion Hstep; subst. eexists. split; [reflexivity|]. intros x.
    destruct (Pool_step_AddTask s task x (Hinv x) (Hinv task) Hfresh)
      as (H1 & H2 & H3 & H4).
    split; [exact H1 | split; [exact H2 | split; [|exact H4]]].
    intros Heq. inversion Heq; subst. exact H3.
  - inversion Hstep; subst. eexists. split; [reflexivity|]. intros x.
    unfold StartWorkers.
    destruct (Pool_step_pool s
                (set_total_wait_time 0 (set_start_time now (set_started true (ppool s))))
                [EvLock task_queue_lock_; EvBroadcast task_queue_condition_;
                 EvUnlock task_queue_lock_] x (Hinv x)) as (H1 & H2 & H3);
      [reflexivity | repeat constructor |].
    split; [exact H1 | split; [exact H2 | split; [discriminate | exact H3]]].
  - inversion Hstep; subst. eexists. split; [reflexivity|]. intros x.
    unfold StopWorkers.
    destruct (Pool_step_pool s (set_started false (ppool s))
                [EvLock task_queue_lock_; EvUnlock task_queue_lock_] x (Hinv x))
      as (H1 & H2 & H3); [reflexivity | repeat constructor |].
    split; [exact H1 | split; [exact H2 | split; [discriminate | exact H3]]].
  - inversion Hstep; subst. eexists. split; [reflexivity|]. intros x.
    unfold ThreadPool_dtor_locked.
    destruct (Pool_step_pool s (set_shutting_down true (ppool s))
                [EvLock task_queue_lock_; EvBroadcast task_queue_condition_;
                 EvBroadcast completion_condition_; EvUnlock task_queue_lock_] x (Hinv x))
      as (H1 & H2 & H3); [reflexivity | repeat constructor |].
    split; [exact H1 | split; [exact H2 | split; [discriminate | exact H3]]].
  - inversion Hstep; subst. exists []. split; [simpl; rewrite app_nil_r; reflexivity|].
    intros x. destruct (Pool_step_call_Wait s do_work x (Hinv x)) as [H1 H2].
    split; [exact H1 | split; [exact H2 | split; [discriminate|]]].
    apply step_events_in_order_queue. constructor.
  - destruct (pcallers s !! j) as [pc|] eqn:Hl; [|discriminate].
    destruct (Wait_step pc (ppool s)) as [[p1 evs] pc1] eqn:Hw.
    inversion Hstep; subst. exists evs. split; [reflexivity|]. intros x.
    destruct (Pool_step_caller s j pc _ _ _ x (Hinv x) Hl Hw) as (H1 & H2 & H3).
    split; [exact H1 | split; [exact H2 | split; [discriminate | exact H3]]].
Qed.

Lemma Pool_sys_run (acts : list Action) (s s' : PoolSystem) :
  (forall x, PoolInv s x) ->
  run_before_finalize (ptrace s) -> no_use_after_finalize (ptrace s) ->
  pool_run acts s = Some s' ->
  (forall x, PoolInv s' x)
  /\ (forall x, pool_accounted s x \/ x ∈ submitted acts -> pool_accounted s' x)
  /\ run_before_finalize (ptrace s') /\ no_use_after_finalize (ptrace s').
Proof.
  revert s. induction acts as [|a acts IH]; intros s Hinv Hr Hn Hrun; simpl in Hrun.
  - inversion Hrun; subst. split; [assumption|]. split; [|auto].
    intros x [Hacc|Hin]; [assumption | inversion Hin].
  - destruct (pool_step a s) as [s1|] eqn:Hstep; [|discriminate].
    destruct (Pool_sys_step a s s1 Hinv Hstep) as (evs & Htr & Hx).
    destruct (IH s1) as (Hinv' & Hacc' & Hr' & Hn'); try assumption.
    + intros x. apply Hx.
    + rewrite Htr. apply run_before_finalize_step; [assumption|].
      intros x. apply Hx.
    + rewrite Htr. apply no_use_after_finalize_step; [assumption|].
      intros x. apply Hx.
    + split; [exact Hinv'|]. split; [|auto].
      intros x [Hacc|Hin]; apply Hacc'; destruct (Hx x) as (_ & Hkeep & Hadd & _).
      * left. apply Hkeep. exact Hacc.
      * unfold submitted in Hin. simpl in Hin.
        apply elem_of_app in Hin as [Hin|Hin]; [|right; exact Hin].
        left. apply Hadd. destruct a; try (inversion Hin; fail).
        apply elem_of_cons in Hin as [->|Hin]; [reflexivity | inversion Hin].
Qed.

Lemma occ_pcs_replicate {St} (f : St -> list Task) (x : Task) (k : nat) (pc : St) :
  f pc = [] -> occ_pcs f x (replicate k pc) = 0.
Proof.
  intros Hf. induction k as [|k IH]; [reflexivity|].
  simpl replicate. rewrite occ_pcs_cons, Hf, IH. reflexivity.
Qed.

Lemma Pool_init (old_start_time old_total_wait_time num_threads : Z) (x : Task) :
  PoolInv (pool_init old_start_time old_total_wait_time num_threads) x.
Proof.
  unfold pool_init, ThreadPool_ctor.
  pose proof (ThreadPool_add_workers_fields (Z.to_nat num_threads) num_threads
                (mkThreadPool [] [] false false 0 old_start_time old_total_wait_time))
    as Hq.
  destruct Hq as (Hq & _).
  constructor; cbn [ppool ppcs pcallers ptrace];
    rewrite ?occ_pcs_replicate by reflexivity;
    rewrite ?Hq; unfold occ_pcs; simpl; lia.
Qed.

Lemma waiting_pool_workers_insert (l : list WorkerPc) (i : nat) (pc pc1 : WorkerPc) :
  l !! i = Some pc ->
  waiting_pool_workers (<[i := pc1]> l)
  = waiting_pool_workers l - (if wpc_waiting pc then 1 else 0)
    + (if wpc_waiting pc1 then 1 else 0).
Proof.
  revert i. induction l as [|a l IH]; intros i Hl; [discriminate|].
  destruct i as [|i]; simpl in *.
  - inversion Hl; subst. lia.
  - rewrite (IH i Hl). lia.
Qed.

Lemma waiting_pool_workers_bounds (l : list WorkerPc) :
  0 <= waiting_pool_workers l <= Z.of_nat (length l).
Proof.
  induction l as [|a l IH]; simpl; [lia|]. destruct (wpc_waiting a); lia.
Qed.

Lemma waiting_pool_workers_lookup (l : list WorkerPc) (i : nat) (pc : WorkerPc) :
  l !! i = Some pc ->
  (if wpc_waiting pc then 1 else 0) <= waiting_pool_workers l
  /\ waiting_pool_workers l
     <= Z.of_nat (length l) - 1 + (if wpc_waiting pc then 1 else 0).
Proof.
  revert i. induction l as [|a l IH]; intros i Hl; [discriminate|].
  destruct i as [|i]; simpl in Hl.
  - inversion Hl; subst. clear IH Hl. cbn [waiting_pool_workers length].
    pose proof (waiting_pool_workers_bounds l). lia.
  - destruct (IH i Hl) as [H1 H2]. cbn [waiting_pool_workers length].
    destruct (wpc_waiting a); lia.
Qed.

Lemma waiting_pool_workers_all (l : list WorkerPc) :
  waiting_pool_workers l = Z.of_nat (length l)
  <-> Forall (fun pc => wpc_waiting pc = true) l.
Proof.
  induction l as [|a l IH].
  - split; [constructor | reflexivity].
  - pose proof (waiting_pool_workers_bounds l).
    cbn [waiting_pool_workers length]. split.
    + intros H0. constructor.
      * destruct (wpc_waiting a); [reflexivity | lia].
      * apply IH. destruct (wpc_waiting a); lia.
    + intros Hall. inversion Hall as [|? ? Ha Hl]; subst.
      rewrite Ha. apply IH in Hl. lia.
Qed.

Lemma waiting_pool_workers_pos (l : list WorkerPc) :
  0 < waiting_pool_workers l
  <-> exists i wait_start, l !! i = Some (WP_InGetTask wait_start).
Proof.
  induction l as [|a l IH]; simpl.
  - split; [lia|]. intros (i & ws & H). discriminate.
  - pose proof (waiting_pool_workers_bounds l). split.
    + intros Hp. destruct a; simpl in Hp;
        try (assert (Hl : 0 < waiting_pool_workers l) by lia;
             apply IH in Hl as (i & ws & Hl); exists (S i), ws; exact Hl).
      exists 0%nat, wait_start. reflexivity.
    + intros (i & ws & Hl). destruct i as [|i]; simpl in Hl.
      * inversion Hl; subst. simpl. lia.
      * assert (0 < waiting_pool_workers l) by (apply IH; eauto).
        destruct (wpc_waiting a); lia.
Qed.

Lemma Wait_step_threads (pc : WaitPc) (p : ThreadPool) :
  threads_ (fst (fst (Wait_step pc p))) = threads_ p.
Proof.
  destruct (Wait_step_pool pc p) as [->|[_ ->]]; [auto|].
  apply (TryGetTaskLocked_flags p).
Qed.

Lemma PoolQueueInv_step (a : Action) (s s' : PoolSystem) :
  PoolQueueInv s -> pool_step a s = Some s' -> PoolQueueInv s'.
Proof.
  intros [Hw Hth Hcount Hx] Hstep.
  destruct a as [i t1 t2|task|now| | |do_work|j]; cbn [pool_step] in Hstep.
  - destruct (ppcs s !! i) as [pc|] eqn:Hl; [|discriminate].
    pose proof (ThreadPoolWorker_Run_step_flags t1 t2 pc (ppool s)) as He.
    destruct (ThreadPoolWorker_Run_step t1 t2 pc (ppool s)) as [[p1 evs] pc1].
    destruct He as (Hd & Ht & Hc & He). inversion Hstep; subst; clear Hstep.
    pose proof (waiting_pool_workers_lookup _ _ _ Hl) as [Hlo Hhi].
    split; cbn [ppool ppcs].
    + rewrite Hc, (waiting_pool_workers_insert _ _ _ pc1 Hl), Hw. cbv zeta.
      destruct (wpc_waiting pc), (wpc_waiting pc1);
        rewrite ?size_wrap_small by lia;
        rewrite ?size_wrap_small by (rewrite ?size_wrap_small by lia; lia); lia.
    + rewrite Ht, length_insert. exact Hth.
    + rewrite length_insert. exact Hcount.
    + intros k Hk. rewrite Hd.
      destruct (decide (k = i)) as [->|Hne].
      * rewrite list_lookup_insert_eq in Hk by (eapply lookup_lt_Some; eauto).
        inversion Hk as [Hpc1]. destruct (He Hpc1) as [->|Hs]; [|exact Hs].
        apply (Hx i Hl).
      * rewrite list_lookup_insert_ne in Hk by auto. apply (Hx k Hk).
  - destruct (pool_fresh_task task s); inversion Hstep; subst.
    split; simpl; assumption.
  - inversion Hstep; subst. split; simpl; assumption.
  - inversion Hstep; subst. split; simpl; assumption.
  - inversion Hstep; subst. split; simpl; try assumption. reflexivity.
  - inversion Hstep; subst. split; simpl; assumption.
  - destruct (pcallers s !! j) as [pc|] eqn:Hl; [|discriminate].
    pose proof (Wait_step_flags pc (ppool s)) as [Hd Hc].
    pose proof (Wait_step_threads pc (ppool s)) as Ht.
    destruct (Wait_step pc (ppool s)) as [[p1 evs] pc1].
    inversion Hstep; subst; clear Hstep. simpl in Hd, Hc, Ht.
    split; cbn [ppool ppcs]; [rewrite Hc; exact Hw | rewrite Ht; exact Hth
                             | exact Hcount |].
    intros k Hk. rewrite Hd. apply (Hx k Hk).
Qed.

Lemma PoolQueueInv_run (acts : list Action) (s s' : PoolSystem) :
  PoolQueueInv s -> pool_run acts s = Some s' -> PoolQueueInv s'.
Proof.
  revert s. induction acts as [|a acts IH]; intros s Hq Hrun; simpl in Hrun.
  - inversion Hrun; subst. assumption.
  - destruct (pool_step a s) as [s1|] eqn:Hstep; [|discriminate].
    apply (IH s1); [apply (PoolQueueInv_step a s)|]; assumption.
Qed.

Lemma PoolQueueInv_init (old_start_time old_total_wait_time num_threads : Z) :
  0 <= num_threads < 2 ^ 64 ->
  PoolQueueInv (pool_init old_start_time old_total_wait_time num_threads).
Proof.
  intros Hn. unfold pool_init.
  pose proof (ThreadPool_add_workers_fields (Z.to_nat num_threads) num_threads
                (mkThreadPool [] [] false false 0 old_start_time old_total_wait_time))
    as (_ & _ & _ & Hwc & _).
  pose proof (ThreadPool_add_workers_threads (Z.to_nat num_threads)
                (mkThreadPool [] [] false false 0 old_start_time old_total_wait_time))
    as Hth.
  simpl in Hth. rewrite Z2Nat.id in Hth by lia.
  split; cbn [ppool ppcs]; unfold ThreadPool_ctor.
  - rewrite Hwc. simpl. clear.
    induction (Z.to_nat num_threads) as [|n IH]; simpl; [reflexivity | lia].
  - rewrite Hth, length_map, length_seq, length_replicate. reflexivity.
  - rewrite length_replicate. lia.
  - intros i Hi. apply lookup_replicate in Hi as [Hi _]. discriminate.
Qed.

Lemma pool_run_app (acts1 acts2 : list Action) (s : PoolSystem) :
  pool_run (acts1 ++ acts2) s
  = match pool_run acts1 s with
    | Some s1 => pool_run acts2 s1
    | None => None
    end.
Proof.
  revert s. induction acts1 as [|a acts1 IH]; intros s; simpl; [reflexivity|].
  destruct (pool_step a s) as [s1|]; [apply IH | reflexivity].
Qed.

Lemma reachable_Pool (old_start_time old_total_wait_time num_threads : Z)
    (acts : list Action) (s : PoolSystem) :
  pool_run acts (pool_init old_start_time old_total_wait_time num_threads)
  = Some s ->
  (forall x, PoolInv s x)
  /\ (forall x, x ∈ submitted acts -> pool_accounted s x)
  /\ run_before_finalize (ptrace s) /\ no_use_after_finalize (ptrace s).
Proof.
  intros Hrun.
  destruct (Pool_sys_run acts _ s
              (Pool_init old_start_time old_total_wait_time num_threads))
    as (H1 & H2 & H3 & H4); try exact Hrun.
  - intros pre x post Heq. destruct pre; discriminate.
  - intros pre x post e Heq. destruct pre; discriminate.
  - split; [exact H1|]. split; [|auto]. intros x Hin. apply H2. auto.
Qed.

Lemma pool_run_length (acts : list Action) (s0 s : PoolSystem) :
  pool_run acts s0 = Some s -> length (ppcs s) = length (ppcs s0).
Proof.
  revert s0. induction acts as [|a acts IH]; intros s0 Hrun; simpl in Hrun.
  - inversion Hrun; reflexivity.
  - destruct (pool_step a s0) as [s1|] eqn:Hstep; [|discriminate].
    rewrite (IH s1 Hrun). clear -Hstep.
    destruct a; cbn [pool_step] in Hstep.
    + destruct (ppcs s0 !! i) as [pc|]; [|discriminate].
      destruct (ThreadPoolWorker_Run_step t1 t2 pc (ppool s0)) as [[p1 evs] pc1].
      inversion Hstep; subst. simpl. apply length_insert.
    + destruct (pool_fresh_task task s0); inversion Hstep; reflexivity.
    + inversion Hstep; reflexivity.
    + inversion Hstep; reflexivity.
    + inversion Hstep; reflexivity.
    + inversion Hstep; reflexivity.
    + destruct (pcallers s0 !! j) as [pc|]; [|discriminate].
      destruct (Wait_step pc (ppool s0)) as [[p1 evs] pc1].
      inversion Hstep; reflexivity.
Qed.

(** X18: the workers of a plain pool ([ThreadPoolWorker::Run]) together
    with the callers of [Wait] run every task at most once and finalize it
    only after its run, and no event after the [Finalize] of a task names
    that task.  A task that was handed to [AddTask] is in exactly one
    place: in the queue, in the hands of one thread, or finalized; when
    every thread is between two tasks it is still queued and has not run,
    or it has been run once and finalized once. *)
Theorem plain_pool_runs_each_task_once
    (old_start_time old_total_wait_time num_threads : Z)
    (acts : list Action) (s : PoolSystem) (x : Task) :
  pool_run acts (pool_init old_start_time old_total_wait_time num_threads)
  = Some s ->
  occ (EvRun x) (ptrace s) <= 1
  /\ occ (EvFinalize x) (ptrace s) <= occ (EvRun x) (ptrace s)
  /\ (forall pre post,
        ptrace s = pre ++ EvFinalize x :: post ->
        EvRun x ∈ pre /\ forall e, e ∈ post -> x ∉ event_tasks e)
  /\ (x ∈ submitted acts ->
      occ x (tasks_ (ppool s)) + occ_pcs wpc_tasks x (ppcs s)
      + occ_pcs wait_pc_tasks x (pcallers s) + occ (EvFinalize x) (ptrace s) = 1
      /\ (forallb wpc_idle (ppcs s) = true ->
          forallb wait_pc_idle (pcallers s) = true ->
          (occ x (tasks_ (ppool s)) = 1
           /\ occ (EvRun x) (ptrace s) = 0 /\ occ (EvFinalize x) (ptrace s) = 0)
          \/ (occ x (tasks_ (ppool s)) = 0
              /\ occ (EvRun x) (ptrace s) = 1 /\ occ (EvFinalize x) (ptrace s) = 1))).
Proof.
  intros Hrun.
  destruct (reachable_Pool _ _ _ _ _ Hrun) as (Hinv & Hacc & Hr & Hno).
  destruct (Hinv x) as [HS HO HD]. pool_nonneg s x.
  split; [lia|]. split; [lia|]. split; [|].
  - intros pre post Heq. split; [apply (Hr pre x post Heq)|].
    intros e He. apply (Hno pre x post e Heq He).
  - intros Hin. specialize (Hacc x Hin). unfold pool_accounted in Hacc.
    split; [lia|]. intros Hidle Hcidle.
    rewrite (occ_pcs_idle wpc_idle wpc_tasks x (ppcs s)) in *
      by (try assumption; intros pc; destruct pc; simpl; congruence).
    rewrite (occ_pcs_idle wait_pc_idle wait_pc_tasks x (pcallers s)) in *
      by (try assumption; intros pc; destruct pc; simpl; congruence).
    lia.
Qed.

Lemma plain_pool_runs_each_task_once_witness :
  exists s,
    pool_run [ActAddTask 1%nat; ActAddTask 2%nat; ActStartWorkers 0;
              ActWorker 0 1 1; ActWorker 1 1 1; ActWorker 1 0 0; ActWorker 0 0 0;
              ActWorker 1 0 0; ActWorker 0 0 0]
      (pool_init 0 0 2) = Some s
    /\ ppcs s = [WP_GetTask; WP_GetTask]
    /\ occ (EvRun 2%nat) (ptrace s) = 1 /\ occ (EvFinalize 2%nat) (ptrace s) = 1.
Proof.
  eexists. split; [vm_compute; reflexivity|]. split; [reflexivity|].
  match goal with
  | |- occ _ (ptrace ?s) = 1 /\ _ =>
      destruct (plain_pool_runs_each_task_once 0 0 2
        [ActAddTask 1%nat; ActAddTask 2%nat; ActStartWorkers 0;
         ActWorker 0 1 1; ActWorker 1 1 1; ActWorker 1 0 0; ActWorker 0 0 0;
         ActWorker 1 0 0; ActWorker 0 0 0] s 2%nat)
        as (_ & _ & _ & Hsub)
  end.
  - vm_compute. reflexivity.
  - destruct Hsub as [_ [(Hq & _)|(_ & Hr & Hf)]];
      [ vm_compute; apply elem_of_cons; right; apply elem_of_cons; auto
      | reflexivity | reflexivity | vm_compute in Hq; discriminate | auto ].
Defined.

(** X19: in every reachable state of a plain pool [waiting_count_] is the
    number of workers blocked in the wait of [GetTask], and a worker has
    left the loop of [ThreadPoolWorker::Run] only if [shutting_down_] is
    set.  A caller of [Wait] that tests the completion condition returns
    exactly when the pool is shutting down, or the queue is empty and every
    worker is blocked in [GetTask], and blocks otherwise; when it returns
    from a pool that is not shutting down, every task handed to [AddTask]
    has been run once and finalized once, except the tasks that another
    caller of [Wait] holds. *)
Theorem plain_pool_Wait_returns_when_work_is_done
    (old_start_time old_total_wait_time num_threads : Z)
    (acts : list Action) (s s' : PoolSystem) (j : nat) (pc : WaitPc) :
  0 <= num_threads < 2 ^ 64 ->
  pool_run acts (pool_init old_start_time old_total_wait_time num_threads)
  = Some s ->
  pcallers s !! j = Some pc -> pc = Wait_Lock \/ pc = Wait_Blocked ->
  pool_step (ActCaller j) s = Some s' ->
  waiting_count_ (ppool s) = waiting_pool_workers (ppcs s)
  /\ GetThreadCount (ppool s) = num_threads
  /\ (forall i, ppcs s !! i = Some WP_Exit -> shutting_down_ (ppool s) = true)
  /\ (pcallers s' !! j = Some Wait_Return
      <-> shutting_down_ (ppool s) = true
          \/ (tasks_ (ppool s) = []
              /\ Forall (fun pc => wpc_waiting pc = true) (ppcs s)))
  /\ (pcallers s' !! j = Some Wait_Return \/ pcallers s' !! j = Some Wait_Blocked)
  /\ (pcallers s' !! j = Some Wait_Return ->
      shutting_down_ (ppool s) = false ->
      forall x, x ∈ submitted acts ->
        (occ (EvRun x) (ptrace s') = 1 /\ occ (EvFinalize x) (ptrace s') = 1)
        \/ x ∈ flat_map wait_pc_tasks (pcallers s')).
Proof.
  intros Hn Hrun Hl Hpc Hstep.
  destruct (PoolQueueInv_run acts _ s
              (PoolQueueInv_init old_start_time old_total_wait_time num_threads Hn)
              Hrun) as [Hw Hth Hcount Hexit].
  pose proof (lookup_lt_Some _ _ _ Hl) as Hj.
  assert (Hlen : length (ppcs s) = Z.to_nat num_threads).
  { rewrite (pool_run_length _ _ _ Hrun). simpl. apply length_replicate. }
  assert (Hrun' : pool_run (acts ++ [ActCaller j])
                    (pool_init old_start_time old_total_wait_time num_threads)
                  = Some s').
  { rewrite pool_run_app, Hrun. cbn [pool_run]. rewrite Hstep. reflexivity. }
  assert (Hall : waiting_count_ (ppool s) = GetThreadCount (ppool s)
                 <-> Forall (fun pc => wpc_waiting pc = true) (ppcs s)).
  { unfold GetThreadCount. rewrite Hw, Hth. apply waiting_pool_workers_all. }
  assert (Hs' : exists evs pc1,
             s' = mkPoolSystem (ppool s) (ppcs s) (<[j := pc1]> (pcallers s))
                    (ptrace s ++ evs)
             /\ Wait_completion_loop (ppool s)
                = (match pc1 with
                   | Wait_Return => [EvUnlock task_queue_lock_]
                   | _ => [EvWait completion_condition_]
                   end, pc1)
             /\ (pc1 = Wait_Return \/ pc1 = Wait_Blocked)).
  { cbn [pool_step] in Hstep. rewrite Hl in Hstep.
    destruct Hpc as [-> | ->]; cbn [Wait_step] in Hstep;
      unfold Wait_completion_loop in *;
      destruct (_ && _); inversion Hstep; subst; clear Hstep;
      eexists _, _; (split; [reflexivity|]); auto. }
  destruct Hs' as (evs & pc1 & -> & Hloop & Hpc1).
  cbn [pcallers ptrace ppcs ppool] in *.
  rewrite list_lookup_insert_eq by exact Hj.
  unfold Wait_completion_loop in Hloop.
  split; [exact Hw|]. split; [unfold GetThreadCount; rewrite Hth, Hlen; lia|].
  split; [exact Hexit|]. split; [|split].
  - destruct (shutting_down_ (ppool s)) eqn:Hd; simpl in Hloop.
    + inversion Hloop; subst. split; auto.
    + destruct (Z.eqb_spec (waiting_count_ (ppool s)) (GetThreadCount (ppool s)))
        as [Hc|Hc]; simpl in Hloop.
      * destruct (tasks_ (ppool s)) as [|t q] eqn:Hq; simpl in Hloop;
          inversion Hloop; subst.
        -- split; [intros _; right; split; [reflexivity | apply Hall; exact Hc] | auto].
        -- split; [discriminate|]. intros [Hf|[Hf _]]; discriminate.
      * inversion Hloop; subst. split; [discriminate|].
        intros [Hf|[_ Hf]]; [discriminate|]. apply Hall in Hf. contradiction.
  - destruct Hpc1 as [-> | ->]; auto.
  - intros Hret Hd x Hin. inversion Hret; subst pc1. clear Hret.
    rewrite Hd in Hloop. simpl in Hloop.
    destruct (Z.eqb_spec (waiting_count_ (ppool s)) (GetThreadCount (ppool s)))
      as [Hc|Hc]; simpl in Hloop; [|discriminate].
    destruct (tasks_ (ppool s)) as [|t q] eqn:Hq; simpl in Hloop; [|discriminate].
    apply Hall in Hc.
    destruct (reachable_Pool _ _ _ _ _ Hrun') as (Hinv' & Hacc & _ & _).
    specialize (Hacc x). rewrite submitted_app in Hacc. simpl in Hacc.
    rewrite app_nil_r in Hacc. specialize (Hacc Hin). unfold pool_accounted in Hacc.
    destruct (Hinv' x) as [HS HO HD].
    cbn [pcallers ptrace ppcs ppool] in *. rewrite Hq in *.
    assert (Hz : forall f : WorkerPc -> list Task,
               (forall pc0, wpc_waiting pc0 = true -> f pc0 = []) ->
               occ_pcs f x (ppcs s) = 0).
    { intros f Hf. clear -Hc Hf. induction Hc as [|pc0 l Hpc0 _ IH]; [reflexivity|].
      rewrite occ_pcs_cons, (Hf pc0 Hpc0), IH. reflexivity. }
    rewrite (Hz wpc_tasks) in * by (intros pc0; destruct pc0; simpl; congruence).
    rewrite (Hz wpc_before_run) in * by (intros pc0; destruct pc0; simpl; congruence).
    rewrite (Hz wpc_after_run) in * by (intros pc0; destruct pc0; simpl; congruence).
    pose proof (occ_nonneg (EvRun x) (ptrace s ++ evs)).
    pose proof (occ_nonneg (EvFinalize x) (ptrace s ++ evs)).
    pose proof (occ_pcs_nonneg wait_pc_tasks x (<[j := Wait_Return]> (pcallers s))).
    pose proof (occ_pcs_nonneg wait_before_run x (<[j := Wait_Return]> (pcallers s))).
    pose proof (occ_pcs_nonneg wait_after_run x (<[j := Wait_Return]> (pcallers s))).
    pose proof (wait_tasks_split x (<[j := Wait_Return]> (pcallers s))).
    simpl occ in *.
    destruct (decide (0 < occ_pcs wait_pc_tasks x (<[j := Wait_Return]> (pcallers s))))
      as [Hheld|Hnot].
    + right. apply occ_pos_elem_of. exact Hheld.
    + left. lia.
Qed.

Lemma plain_pool_Wait_returns_when_work_is_done_witness :
  exists s s',
    pool_run [ActAddTask 1%nat; ActStartWorkers 0; ActWorker 0 1 1; ActWorker 0 0 0;
              ActWorker 0 0 0; ActWorker 0 7 7; ActWait true; ActCaller 0]
      (pool_init 0 0 1) = Some s
    /\ pool_step (ActCaller 0) s = Some s'
    /\ ppcs s = [WP_InGetTask 7] /\ pcallers s = [Wait_Lock]
    /\ pcallers s' = [Wait_Return]
    /\ occ (EvRun 1%nat) (ptrace s') = 1 /\ occ (EvFinalize 1%nat) (ptrace s') = 1.
Proof.
  eexists. eexists. split; [vm_compute; reflexivity|].
  match goal with |- pool_step _ ?s = _ /\ _ => set (st := s) end.
  split; [vm_compute; reflexivity|].
  split; [reflexivity|]. split; [reflexivity|]. split; [reflexivity|].
  match goal with
  | |- occ _ (ptrace ?s') = 1 /\ _ =>
      destruct (plain_pool_Wait_returns_when_work_is_done 0 0 1
        [ActAddTask 1%nat; ActStartWorkers 0; ActWorker 0 1 1; ActWorker 0 0 0;
         ActWorker 0 0 0; ActWorker 0 7 7; ActWait true; ActCaller 0]
        st s' 0%nat Wait_Lock)
        as (_ & _ & _ & _ & _ & Hdone)
  end.
  - lia.
  - vm_compute. reflexivity.
  - reflexivity.
  - left. reflexivity.
  - vm_compute. reflexivity.
  - destruct (Hdone eq_refl eq_refl 1%nat) as [Hd|Hd].
    + vm_compute. apply elem_of_cons. auto.
    + exact Hd.
    + vm_compute in Hd. inversion Hd.
Defined.

(** ** The workers of a plain pool after the destructor's locked region *)

Lemma pool_step_shutting_down (a : Action) (s s' : PoolSystem) (i : nat)
    (pc : WorkerPc) :
  shutting_down_ (ppool s) = true -> ppcs s !! i = Some pc ->
  pool_step a s = Some s' ->
  shutting_down_ (ppool s') = true
  /\ exists pc', ppcs s' !! i = Some pc'
       /\ (wpc_rank pc' <= wpc_rank pc - own_steps i [a])%nat.
Proof.
  intros Hd Hl Hstep.
  destruct a as [k t1 t2|task|now| | |do_work|j]; cbn [pool_step] in Hstep.
  - destruct (ppcs s !! k) as [pck|] eqn:Hk; [|discriminate].
    assert (Hw : exists pc1,
               ThreadPoolWorker_Run_step t1 t2 pck (ppool s)
               = (fst (fst (ThreadPoolWorker_Run_step t1 t2 pck (ppool s))),
                  snd (fst (ThreadPoolWorker_Run_step t1 t2 pck (ppool s))), pc1)
               /\ (wpc_rank pc1 <= wpc_rank pck - 1)%nat
               /\ shutting_down_
                    (fst (fst (ThreadPoolWorker_Run_step t1 t2 pck (ppool s)))) = true).
    { destruct pck; cbn [ThreadPoolWorker_Run_step].
      - unfold GetTask_enter. rewrite GetTask_loop_shutting_down by exact Hd.
        eexists. split; [reflexivity|]. split; [simpl; lia | exact Hd].
      - unfold GetTask_resume. rewrite GetTask_loop_shutting_down by exact Hd.
        eexists. split; [reflexivity|]. split; [simpl; lia | exact Hd].
      - eexists. split; [reflexivity|]. split; [simpl; lia | exact Hd].
      - eexists. split; [reflexivity|]. split; [simpl; lia | exact Hd].
      - eexists. split; [reflexivity|]. split; [simpl; lia | exact Hd]. }
    destruct Hw as (pc1 & Heq & Hrank & Hd').
    rewrite Heq in Hstep. inversion Hstep; subst; clear Hstep.
    cbn [ppool ppcs]. split; [exact Hd'|].
    cbn [own_steps].
    destruct (decide (k = i)) as [->|Hne].
    + rewrite Hk in Hl. inversion Hl; subst pck.
      exists pc1. split.
      * apply list_lookup_insert_eq. eapply lookup_lt_Some; eauto.
      * rewrite bool_decide_eq_true_2 by reflexivity. simpl. lia.
    + exists pc. split.
      * rewrite list_lookup_insert_ne by auto. exact Hl.
      * rewrite bool_decide_eq_false_2 by exact Hne. simpl. lia.
  - destruct (pool_fresh_task task s); inversion Hstep; subst.
    split; [exact Hd|]. exists pc. split; [exact Hl | simpl; lia].
  - inversion Hstep; subst.
    split; [exact Hd|]. exists pc. split; [exact Hl | simpl; lia].
  - inversion Hstep; subst.
    split; [exact Hd|]. exists pc. split; [exact Hl | simpl; lia].
  - inversion Hstep; subst.
    split; [reflexivity|]. exists pc. split; [exact Hl | simpl; lia].
  - inversion Hstep; subst.
    split; [exact Hd|]. exists pc. split; [exact Hl | simpl; lia].
  - destruct (pcallers s !! j) as [pcj|] eqn:Hj; [|discriminate].
    pose proof (Wait_step_flags pcj (ppool s)) as [Hd' _].
    destruct (Wait_step pcj (ppool s)) as [[p1 evs] pc1].
    inversion Hstep; subst; clear Hstep. simpl in Hd'.
    split; [cbn [ppool]; rewrite Hd'; exact Hd|].
    exists pc. split; [exact Hl | simpl; lia].
Qed.

Lemma own_steps_cons (i : nat) (a : Action) (acts : list Action) :
  own_steps i (a :: acts) = (own_steps i [a] + own_steps i acts)%nat.
Proof. destruct a; simpl; lia. Qed.

Lemma pool_run_shutting_down (acts : list Action) (s s' : PoolSystem) (i : nat)
    (pc : WorkerPc) :
  shutting_down_ (ppool s) = true -> ppcs s !! i = Some pc ->
  pool_run acts s = Some s' ->
  shutting_down_ (ppool s') = true
  /\ exists pc', ppcs s' !! i = Some pc'
       /\ (wpc_rank pc' <= wpc_rank pc - own_steps i acts)%nat.
Proof.
  revert s pc. induction acts as [|a acts IH]; intros s pc Hd Hl Hrun;
    simpl in Hrun.
  - inversion Hrun; subst. split; [exact Hd|]. exists pc.
    split; [exact Hl | simpl; lia].
  - destruct (pool_step a s) as [s1|] eqn:Hstep; [|discriminate].
    destruct (pool_step_shutting_down a s s1 i pc Hd Hl Hstep)
      as (Hd1 & pc1 & Hl1 & Hr1).
    destruct (IH s1 pc1 Hd1 Hl1 Hrun) as (Hd' & pc' & Hl' & Hr').
    split; [exact Hd'|]. exists pc'. split; [exact Hl'|].
    rewrite own_steps_cons. lia.
Qed.

(** X20: the workers of a plain pool stop after the destructor's locked
    region.  Once [shutting_down_] is set it stays set, and whatever the
    other threads do, a worker has left the loop of
    [ThreadPoolWorker::Run] after at most three steps of its own: it runs
    and finalizes the task it holds, if any, and its next [GetTask] returns
    none. *)
Theorem worker_exits_after_shutdown (acts : list Action) (s s' : PoolSystem)
    (i : nat) (pc : WorkerPc) :
  shutting_down_ (ppool s) = true -> ppcs s !! i = Some pc ->
  pool_run acts s = Some s' ->
  shutting_down_ (ppool s') = true
  /\ ((wpc_rank pc <= own_steps i acts)%nat -> ppcs s' !! i = Some WP_Exit)
  /\ ((3 <= own_steps i acts)%nat -> ppcs s' !! i = Some WP_Exit).
Proof.
  intros Hd Hl Hrun.
  destruct (pool_run_shutting_down acts s s' i pc Hd Hl Hrun)
    as (Hd' & pc' & Hl' & Hr').
  assert (Hrank : (wpc_rank pc <= 3)%nat) by (destruct pc; simpl; lia).
  assert (Hexit : (wpc_rank pc <= own_steps i acts)%nat -> ppcs s' !! i = Some WP_Exit).
  { intros Hsteps. rewrite Hl'. destruct pc'; simpl in Hr'; try lia. reflexivity. }
  split; [exact Hd'|]. split; [exact Hexit|].
  intros Hsteps. apply Hexit. lia.
Qed.

Lemma worker_exits_after_shutdown_witness :
  exists s s',
    pool_run [ActAddTask 1%nat; ActAddTask 2%nat; ActStartWorkers 0;
              ActWorker 0 1 1; ActShutdown]
      (pool_init 0 0 2) = Some s
    /\ ppcs s = [WP_Run 1%nat; WP_GetTask]
    /\ pool_run [ActWorker 0 0 0; ActWorker 1 0 0; ActWorker 0 0 0; ActWorker 0 0 0] s
       = Some s'
    /\ ppcs s' !! 0%nat = Some WP_Exit
    /\ tasks_ (ppool s') = [2%nat].
Proof.
  eexists. eexists. split; [vm_compute; reflexivity|]. split; [reflexivity|].
  match goal with |- pool_run _ ?s = _ /\ _ => set (st := s) end.
  split; [vm_compute; reflexivity|]. split; [|reflexivity].
  match goal with
  | |- ppcs ?s' !! _ = _ =>
      destruct (worker_exits_after_shutdown
        [ActWorker 0 0 0; ActWorker 1 0 0; ActWorker 0 0 0; ActWorker 0 0 0]
        st s' 0%nat (WP_Run 1%nat)) as (_ & _ & Hexit)
  end.
  - reflexivity.
  - reflexivity.
  - vm_compute. reflexivity.
  - apply Hexit. vm_compute. lia.
Defined.
